(** * datediff: calendar difference between two dates, and its rendering

    A shallow embedding of the Go package [datediff] (datediff.go, format.go)
    together with the part of the Go standard library it rests on:
    [time.Time] and [time.Location] with [Date], [AddDate], [Year], [In],
    [After], [Before], [Equal],
    and [strings.ReplaceAll], [strings.Contains], [strconv.Itoa],
    [unicode.IsUpper].

    Conventions.
    - A Go [int] is a [Z]; every count the package produces for two
      representable instants is far below 2^63, so no wrap-around occurs.
    - A Go [string] is a [string] of 8-bit [ascii] characters (Go indexes
      strings by byte).
    - A [time.Time] is an instant together with its location. [Year],
      [Date], [Clock] and [AddDate] read the clock of that location;
      [After], [Before] and [Equal] compare instants. Times lie far inside
      the range Go can represent, so no seconds count wraps around. *)

From Stdlib Require Import ZArith Lia Bool List String Ascii Permutation.
From Stdlib Require Import Numbers.DecimalString.
Import ListNotations.

Local Open Scope Z_scope.


(* ================================================================== *)
(** ** The standard library's [time] package: clock readings *)
(* ================================================================== *)

(** The calendar arithmetic of the package works on what a clock shows (its
    internal absolute time [abs]), whatever the zone: [absDate], [Clock],
    and the normalisation of [Date] before the zone is looked up. A reading
    is that clock time. Module [time] below adds the location. *)
Module clock.

Definition nsPerSecond : Z := 1000000000.
Definition nsPerMinute : Z := 60 * nsPerSecond.
Definition nsPerHour : Z := 60 * nsPerMinute.
Definition nsPerDay : Z := 24 * nsPerHour.

Definition daysPer400Years : Z := 365 * 400 + 97.
Definition daysPer100Years : Z := 365 * 100 + 24.
Definition daysPer4Years : Z := 365 * 4 + 1.

(** A reading: the nanoseconds the clock has counted since its own
    January 1, year 1, 00:00:00 (negative before it). Go keeps seconds and
    nanoseconds apart; the pair and this single number determine each
    other. *)
Record Time : Set := mkTime { nanos : Z }.

(** Two readings of one clock, compared. *)
Definition After (t u : Time) : bool := nanos u <? nanos t.
Definition Before (t u : Time) : bool := nanos t <? nanos u.
Definition Equal (t u : Time) : bool := nanos t =? nanos u.

(** [isLeap]: [year%4 == 0 && (year%100 != 0 || year%400 == 0)]. *)
Definition isLeap (year : Z) : bool :=
  (year mod 4 =? 0) && (negb (year mod 100 =? 0) || (year mod 400 =? 0)).

(** [daysBefore[m]]: days in a non-leap year before month [m+1]. *)
Definition daysBefore (m : Z) : Z :=
  nth (Z.to_nat m)
      [0; 31; 59; 90; 120; 151; 181; 212; 243; 273; 304; 334; 365] 0.

(** [daysSinceEpoch]: days from January 1 of year 1 to January 1 of [year],
    by 400-, 100- and 4-year cycles. Go shifts the year by a multiple of 400
    to keep the arithmetic unsigned; floor division does the same here. *)
Definition daysSinceEpoch (year : Z) : Z :=
  let y := year - 1 in
  let n := y / 400 in
  let y := y - 400 * n in
  let d := daysPer400Years * n in
  let n := y / 100 in
  let y := y - 100 * n in
  let d := d + daysPer100Years * n in
  let n := y / 4 in
  let y := y - 4 * n in
  let d := d + daysPer4Years * n in
  d + 365 * y.

(** Days from the epoch to the civil date [year-month-day], after [Date]'s
    normalisation of the month ([norm(year, month-1, 12)]); the day is added
    as it is, so a day past the month's end runs into the next month. *)
Definition dateToDays (year month day : Z) : Z :=
  let m := month - 1 in
  let year := year + m / 12 in
  let m := m mod 12 in
  let d := daysSinceEpoch year in
  let d := d + daysBefore m in
  let d := if isLeap year && (2 <=? m) then d + 1 else d in
  d + (day - 1).

(** The reading [time.Date(year, month, day, hour, min, sec, nsec, loc)]
    asks for. Go first carries nsec into sec, sec into min, min into hour
    and hour into day; the reading is the same weighted sum. *)
Definition Date (year month day hour min sec nsec : Z) : Time :=
  mkTime (dateToDays year month day * nsPerDay
          + hour * nsPerHour + min * nsPerMinute + sec * nsPerSecond + nsec).

(** [absDate]: year and day of the year (from 0) of a day number. *)
Definition absDate (d : Z) : Z * Z :=
  let n := d / daysPer400Years in
  let y := 400 * n in
  let d := d - daysPer400Years * n in
  let n := d / daysPer100Years in
  let n := n - Z.shiftr n 2 in
  let y := y + 100 * n in
  let d := d - daysPer100Years * n in
  let n := d / daysPer4Years in
  let y := y + 4 * n in
  let d := d - daysPer4Years * n in
  let n := d / 365 in
  let n := n - Z.shiftr n 2 in
  let y := y + n in
  let d := d - 365 * n in
  (y + 1, d).

(** Month and day of the month from the day of the year. *)
Definition monthDay (year yday : Z) : Z * Z :=
  if isLeap year && (yday =? 31 + 29 - 1) then (2, 29)
  else
    let day := if isLeap year && (yday >? 31 + 29 - 1) then yday - 1 else yday in
    let month := day / 31 in
    let e := daysBefore (month + 1) in
    if day >=? e then (month + 1 + 1, day - e + 1)
    else (month + 1, day - daysBefore month + 1).

(** Year, month and day of a reading. *)
Definition date (t : Time) : Z * Z * Z :=
  let '(year, yday) := absDate (nanos t / nsPerDay) in
  let '(month, day) := monthDay year yday in
  (year, month, day).

Definition Year (t : Time) : Z := fst (fst (date t)).
Definition Month (t : Time) : Z := snd (fst (date t)).
Definition Day (t : Time) : Z := snd (date t).

(** Hour, minute, second and nanosecond of a reading. *)
Definition Hour (t : Time) : Z := (nanos t mod nsPerDay) / nsPerHour.
Definition Minute (t : Time) : Z := (nanos t mod nsPerHour) / nsPerMinute.
Definition Second (t : Time) : Z := (nanos t mod nsPerMinute) / nsPerSecond.
Definition Nanosecond (t : Time) : Z := nanos t mod nsPerSecond.

(** The reading [t.AddDate(years, months, days)] asks for, from the reading
    of [t]. *)
Definition AddDate (t : Time) (years months days : Z) : Time :=
  let '(year, month, day) := date t in
  Date (year + years) (month + months) (day + days)
       (Hour t) (Minute t) (Second t) (Nanosecond t).

End clock.


(* ================================================================== *)
(** ** The standard library's [time] package: times with a location *)
(* ================================================================== *)

Module time.

Definition nsPerSecond : Z := clock.nsPerSecond.
Definition nsPerDay : Z := clock.nsPerDay.

(** [unixToInternal]: seconds from January 1, year 1 to January 1, 1970. *)
Definition unixToInternal : Z :=
  (1969 * 365 + 1969 / 4 - 1969 / 100 + 1969 / 400) * 86400.

(** A [Location]: the offset, in seconds east of UTC, in force before the
    first transition, and the transitions in increasing order of time, each
    with its Unix time and the offset in force from then on. Zone names and
    the daylight-saving flag, which no computation here reads, are left
    out, and so is the rule a location loaded from the system may carry for
    the years after its last transition: its last offset stays in force. *)
Record Location : Set := mkLocation { first : Z; tx : list (Z * Z) }.

(** [time.UTC] and [time.FixedZone(name, offset)]. *)
Definition FixedZone (offset : Z) : Location := mkLocation offset [].
Definition UTC : Location := FixedZone 0.

(** [l.lookup(sec)]: the offset in force at Unix time [sec], and the Unix
    times between which it is in force; [None] is Go's [alpha] at the start
    and [omega] at the end, which no time reaches. *)
Fixpoint lookupFrom (tx : list (Z * Z)) (offset : Z) (start : option Z)
    (sec : Z) : Z * option Z * option Z :=
  match tx with
  | [] => (offset, start, None)
  | (when, offset') :: rest =>
      if sec <? when then (offset, start, Some when)
      else lookupFrom rest offset' (Some when) sec
  end.

Definition lookup (l : Location) (sec : Z) : Z * option Z * option Z :=
  lookupFrom (tx l) (first l) None sec.

(** A [Time]: an instant, in nanoseconds since January 1, year 1,
    00:00:00 UTC, and the location its clock is read in. The monotonic
    clock reading that a time from [time.Now] carries is left out: a
    comparison uses it only when both times carry one, and [AddDate]
    strips it, so in the package only the first test [start.After(end)] of
    the constructors can see it; it orders two times as their instants do
    unless the system clock was set between them. *)
Record Time : Set := mkTime { nanos : Z; loc : Location }.

(** [t.After(u)], [t.Before(u)], [t.Equal(u)] compare instants; the
    locations play no part. *)
Definition After (t u : Time) : bool := nanos u <? nanos t.
Definition Before (t u : Time) : bool := nanos t <? nanos u.
Definition Equal (t u : Time) : bool := nanos t =? nanos u.

(** [t.In(loc)]: the same instant, read in [loc]; [t.UTC()] is
    [t.In(time.UTC)]. *)
Definition In (t : Time) (l : Location) : Time := mkTime (nanos t) l.

(** [t.unixSec()]. *)
Definition unixSec (t : Time) : Z := nanos t / nsPerSecond - unixToInternal.

(** The offset in force at [t] in its location: the second result of
    [t.Zone()]. *)
Definition offset (t : Time) : Z := fst (fst (lookup (loc t) (unixSec t))).

(** [t.abs()]: what the clock of the location shows at [t]. *)
Definition abs (t : Time) : clock.Time :=
  clock.mkTime (nanos t + offset t * nsPerSecond).

(** [t.Date()], [t.Clock()] and [t.Nanosecond()]: read off [t.abs()]. *)
Definition date (t : Time) : Z * Z * Z := clock.date (abs t).
Definition Year (t : Time) : Z := clock.Year (abs t).
Definition Month (t : Time) : Z := clock.Month (abs t).
Definition Day (t : Time) : Z := clock.Day (abs t).
Definition Hour (t : Time) : Z := clock.Hour (abs t).
Definition Minute (t : Time) : Z := clock.Minute (abs t).
Definition Second (t : Time) : Z := clock.Second (abs t).
Definition Nanosecond (t : Time) : Z := nanos t mod nsPerSecond.

(** [time.Date(year, month, day, hour, min, sec, nsec, loc)]. The reading is
    first taken for a Unix time and looked up; if the offset found is not
    0 and taking it off leaves the period it is in force for, the offset
    in force at that earlier or later time is taken instead. A reading the
    clock skips or shows twice is resolved by this rule. *)
Definition Date (year month day hour min sec nsec : Z) (l : Location) : Time :=
  let reading := clock.nanos (clock.Date year month day hour min sec nsec) in
  let unix := reading / nsPerSecond - unixToInternal in
  let '(offset, start, end_) := lookup l unix in
  let offset :=
    if offset =? 0 then offset
    else
      let utc := unix - offset in
      let early := match start with Some s => utc <? s | None => false end in
      let late := match end_ with Some e => e <=? utc | None => false end in
      if early || late then fst (fst (lookup l utc)) else offset in
  mkTime (reading - offset * nsPerSecond) l.

(** [t.AddDate(years, months, days)]:
    [Date(year+years, month+Month(months), day+days, hour, min, sec,
    int(t.nsec()), t.Location())]. *)
Definition AddDate (t : Time) (years months days : Z) : Time :=
  let '(year, month, day) := date t in
  Date (year + years) (month + months) (day + days)
       (Hour t) (Minute t) (Second t) (Nanosecond t) (loc t).

End time.


(* ================================================================== *)
(** ** [strings], [strconv] and [unicode], as far as the package uses them *)
(* ================================================================== *)

Module strings.

Local Open Scope string_scope.

(** [strings.Contains(s, substr)]: [substr] starts at some index of [s]. *)
Fixpoint Contains (s substr : string) : bool :=
  prefix substr s ||
  match s with
  | EmptyString => false
  | String _ rest => Contains rest substr
  end.

(** The scan of [strings.Replace(s, old, new, -1)] for a non-empty [old]:
    matches are taken from left to right and do not overlap; [skip] counts
    the characters of the last match still to be passed over. *)
Fixpoint replaceFrom (old new s : string) (skip : nat) : string :=
  match s with
  | EmptyString => EmptyString
  | String c rest =>
      match skip with
      | S k => replaceFrom old new rest k
      | O =>
          if prefix old s
          then new ++ replaceFrom old new rest (String.length old - 1)
          else String c (replaceFrom old new rest O)
      end
  end.

(** [strings.ReplaceAll(s, old, new)]. The package only ever passes a verb
    or a space and a verb as [old]; Go's rule for an empty [old] (insert
    [new] around every rune) is not needed and [s] is returned for it. *)
Definition ReplaceAll (s old new : string) : string :=
  match old with
  | EmptyString => s
  | _ => replaceFrom old new s O
  end.

End strings.

Module strconv.

(** [strconv.Itoa]: decimal digits, with a leading minus sign below zero. *)
Definition Itoa (n : Z) : string := NilZero.string_of_int (Z.to_int n).

End strconv.

Module unicode.

(** [unicode.IsUpper(rune(b))] for a byte [b]: the upper-case letters of
    Latin-1 are A-Z, U+00C0-U+00D6 and U+00D8-U+00DE. *)
Definition IsUpper (b : ascii) : bool :=
  let r := Z.of_nat (nat_of_ascii b) in
  ((65 <=? r) && (r <=? 90)) || ((192 <=? r) && (r <=? 214))
  || ((216 <=? r) && (r <=? 222)).

End unicode.


(* ================================================================== *)
(** ** datediff.go *)
(* ================================================================== *)

Definition monthsInYear : Z := 12.
Definition daysInWeek : Z := 7.

(** [type DiffMode uint8]; the constants are [1 << (8 - 1 - iota)]. *)
Definition DiffMode : Set := Z.

Definition ModeYears : DiffMode := Z.shiftl 1 (8 - 1 - 0).
Definition ModeMonths : DiffMode := Z.shiftl 1 (8 - 1 - 1).
Definition ModeWeeks : DiffMode := Z.shiftl 1 (8 - 1 - 2).
Definition ModeDays : DiffMode := Z.shiftl 1 (8 - 1 - 3).

(** [mode&flag != 0]. *)
Definition hasMode (mode flag : DiffMode) : bool :=
  negb (Z.land mode flag =? 0).

(** The [Diff] struct. *)
Record Diff : Set := mkDiff {
  Years : Z;
  Months : Z;
  Weeks : Z;
  Days : Z;
  rawFormat : string;
  mode : DiffMode
}.

(** [t.Before(end) || t.Equal(end)], the test of the three counting loops. *)
Definition reached (t end_ : time.Time) : bool :=
  time.Before t end_ || time.Equal t end_.

(** The least and the greatest offset of a location, and how far they are
    apart, in seconds. *)
Definition leastOffset (l : time.Location) : Z :=
  fold_right (fun t acc => Z.min (snd t) acc) (time.first l) (time.tx l).

Definition greatestOffset (l : time.Location) : Z :=
  fold_right (fun t acc => Z.max (snd t) acc) (time.first l) (time.tx l).

Definition offsetSpread (l : time.Location) : Z :=
  greatestOffset l - leastOffset l.

(** Loop fuel: one more than the whole days from [start] to [end_], the
    interval taken longer by the spread of the offsets of the location of
    [start]. Every probe of a counting loop is the clock of [start] moved
    on by at least one more day and taken back to an instant with an offset
    of the location, so the fuel is never used up (lemmas
    [months_loop_fuel], [weeks_loop_fuel], [days_loop_fuel]). *)
Definition iterations (start end_ : time.Time) : nat :=
  S (Z.to_nat ((time.nanos end_ - time.nanos start
                + offsetSpread (time.loc start) * time.nsPerSecond)
               / time.nsPerDay)).

Definition fullYearsDiff (start end_ : time.Time) : Z :=
  let years := time.Year end_ - time.Year start in
  if time.After (time.AddDate start years 0 0) end_ then years - 1 else years.

(** The [for] loop of [fullMonthsDiff], entered with the current [months];
    [None] when the fuel is used up. *)
Fixpoint fullMonthsDiff_loop (fuel : nat) (start end_ : time.Time) (months : Z)
  : option Z :=
  match fuel with
  | O => None
  | S fuel' =>
      if reached (time.AddDate start 0 (months + 1) 0) end_
      then fullMonthsDiff_loop fuel' start end_ (months + 1)
      else Some months
  end.

Definition fullMonthsDiff (start end_ : time.Time) : Z :=
  match fullMonthsDiff_loop (iterations start end_) start end_ 0 with
  | Some months => months
  | None => 0
  end.

(** The loop of [fullWeeksDiff] with its two variables [weeks] and [days]. *)
Fixpoint fullWeeksDiff_loop (fuel : nat) (start end_ : time.Time) (weeks days : Z)
  : option Z :=
  match fuel with
  | O => None
  | S fuel' =>
      if reached (time.AddDate start 0 0 days) end_
      then fullWeeksDiff_loop fuel' start end_ (weeks + 1) (days + daysInWeek)
      else Some weeks
  end.

Definition fullWeeksDiff (start end_ : time.Time) : Z :=
  match fullWeeksDiff_loop (iterations start end_) start end_ 0 daysInWeek with
  | Some weeks => weeks
  | None => 0
  end.

Fixpoint fullDaysDiff_loop (fuel : nat) (start end_ : time.Time) (days : Z)
  : option Z :=
  match fuel with
  | O => None
  | S fuel' =>
      if reached (time.AddDate start 0 0 (days + 1)) end_
      then fullDaysDiff_loop fuel' start end_ (days + 1)
      else Some days
  end.

Definition fullDaysDiff (start end_ : time.Time) : Z :=
  match fullDaysDiff_loop (iterations start end_) start end_ 0 with
  | Some days => days
  | None => 0
  end.

(** [newDiff]: the local [diff] and the cursor [start] are threaded through
    the four [if] blocks. *)
Definition newDiff (start end_ : time.Time) (mode : DiffMode) : Diff :=
  let diff := mkDiff 0 0 0 0 EmptyString mode in
  let '(diff, start) :=
    if hasMode mode ModeYears then
      let years := fullYearsDiff start end_ in
      (mkDiff years (Months diff) (Weeks diff) (Days diff) (rawFormat diff) mode,
       time.AddDate start years 0 0)
    else (diff, start) in
  let '(diff, start) :=
    if hasMode mode ModeMonths then
      let years := if hasMode mode ModeYears then 0 else fullYearsDiff start end_ in
      let months := fullMonthsDiff (time.AddDate start years 0 0) end_ in
      let total := years * monthsInYear + months in
      (mkDiff (Years diff) total (Weeks diff) (Days diff) (rawFormat diff) mode,
       time.AddDate start 0 total 0)
    else (diff, start) in
  let '(diff, start) :=
    if hasMode mode ModeWeeks then
      let weeks := fullWeeksDiff start end_ in
      (mkDiff (Years diff) (Months diff) weeks (Days diff) (rawFormat diff) mode,
       time.AddDate start 0 0 (weeks * daysInWeek))
    else (diff, start) in
  if hasMode mode ModeDays then
    mkDiff (Years diff) (Months diff) (Weeks diff) (fullDaysDiff start end_)
           (rawFormat diff) mode
  else diff.

(** Errors of the package. [errUnknownVerb] stands for
    [fmt.Errorf("format %q has unknown verb %c", rawFormat, c)]: it carries
    the two values the message prints. *)
Inductive error : Set :=
| errStartIsAfterEnd
| errUndefinedDiffMode
| errUnknownVerb (rawFormat : string) (c : ascii).

(** What a call does: return a value, return a non-nil error, or stop in a
    run-time panic "index out of range [index] with length [length]". *)
Inductive result (A : Type) : Type :=
| Ok (a : A)
| Err (e : error)
| Panic (index length : nat).

Arguments Ok {A} a.
Arguments Err {A} e.
Arguments Panic {A} index length.

(** The [switch] of [unmarshal]: the flag a verb character stands for. *)
Definition verbMode (c : ascii) : option DiffMode :=
  match c with
  | "Y"%char | "y"%char => Some ModeYears
  | "M"%char | "m"%char => Some ModeMonths
  | "W"%char | "w"%char => Some ModeWeeks
  | "D"%char | "d"%char => Some ModeDays
  | _ => None
  end.

(** The outer loop of [unmarshal], at index [i] with [rest = rawFormat[i:]].
    The inner loop passes over the characters that are not a percent sign;
    at a percent sign [i++] moves to the next byte, [rawFormat[i]] reads it,
    with no test that [i] is still below [len(rawFormat)], and the loop goes
    on from that byte (a verb letter, which the inner loop then passes). *)
Fixpoint unmarshal_from (rawFormat rest : string) (mode : DiffMode)
  : result DiffMode :=
  match rest with
  | EmptyString =>
      if mode =? 0 then Err errUndefinedDiffMode else Ok mode
  | String c rest' =>
      if Ascii.eqb c "%" then
        match rest' with
        | EmptyString =>
            Panic (String.length rawFormat) (String.length rawFormat)
        | String v _ =>
            match verbMode v with
            | Some flag => unmarshal_from rawFormat rest' (Z.lor mode flag)
            | None => Err (errUnknownVerb rawFormat v)
            end
        end
      else unmarshal_from rawFormat rest' mode
  end.

Definition unmarshal (rawFormat : string) : result DiffMode :=
  unmarshal_from rawFormat rawFormat 0.

Definition withRawFormat (diff : Diff) (rawFormat : string) : Diff :=
  mkDiff (Years diff) (Months diff) (Weeks diff) (Days diff) rawFormat (mode diff).

Definition NewDiff (start end_ : time.Time) (rawFormat : string) : result Diff :=
  if time.After start end_ then Err errStartIsAfterEnd
  else
    match unmarshal rawFormat with
    | Ok mode => Ok (withRawFormat (newDiff start end_ mode) rawFormat)
    | Err e => Err e
    | Panic i n => Panic i n
    end.

Definition NewDiffWithMode (start end_ : time.Time) (mode : DiffMode) : result Diff :=
  if time.After start end_ then Err errStartIsAfterEnd
  else Ok (newDiff start end_ mode).

(** [Diff.Equal]. *)
Definition Equal (d other : Diff) : bool :=
  (Years d =? Years other) && (Months d =? Months other)
  && (Weeks d =? Weeks other) && (Days d =? Days other).

(* ================================================================== *)
(** ** format.go *)
(* ================================================================== *)


Local Open Scope string_scope.

(** The map [formatUnits], as the list of its entries. *)
Definition formatUnits : list (string * string) :=
  [ ("%Y", "year"); ("%y", "year");
    ("%M", "month"); ("%m", "month");
    ("%W", "week"); ("%w", "week");
    ("%D", "day"); ("%d", "day") ].

(** [formatNoun]: [fmt.Sprintf("%d %s", n, s)], the format extended by an
    "s" when [n != 1]. *)
Definition formatNoun (n : Z) (s : string) : string :=
  strconv.Itoa n ++ " " ++ s ++ (if (n =? 1)%Z then "" else "s").

(** [verb[1]], the second byte of a verb. *)
Definition verbLetter (verb : string) : ascii :=
  match String.get 1 verb with
  | Some c => c
  | None => Ascii.zero
  end.

(** The text [verbReplace] puts in the place of a verb. *)
Definition replacement (n : Z) (verb unit : string) : string :=
  if unicode.IsUpper (verbLetter verb) then formatNoun n unit
  else strconv.Itoa n.

Definition verbReplace (s : string) (n : Z) (verb unit : string) : string :=
  strings.ReplaceAll s verb (replacement n verb unit).

Definition zeroVerbReplace (s verb : string) : string :=
  let s := strings.ReplaceAll s (" " ++ verb) "" in
  strings.ReplaceAll s verb "".

(** The [switch unit] of [frmt]; [n] keeps its zero value for another unit. *)
Definition unitCount (diff : Diff) (unit : string) : Z :=
  if String.eqb unit "year" then Years diff
  else if String.eqb unit "month" then Months diff
  else if String.eqb unit "week" then Weeks diff
  else if String.eqb unit "day" then Days diff
  else 0%Z.

Section MapOrder.

(** Go leaves the order in which [range] visits a map unspecified, and
    the run time varies it from one loop to the next. [order] is the order
    of one run of the loop in [frmt]: some arrangement of the entries of
    [formatUnits]. *)
Variable order : list (string * string).

(** [frmt]: the callback [replace] updates the captured variable [result];
    here it maps the old value of [result] to the new one. *)
Definition frmt (diff : Diff) (rawFormat : string)
    (replace : Z -> string -> string -> string -> string) (result : string)
  : string :=
  fold_left
    (fun result '(verb, unit) =>
       if strings.Contains rawFormat verb
       then replace (unitCount diff unit) verb unit result
       else result)
    order result.

Definition format (diff : Diff) (rawFormat : string) : string :=
  frmt diff rawFormat
       (fun n verb unit result =>
          if (n =? 0)%Z then zeroVerbReplace result verb
          else verbReplace result n verb unit)
       rawFormat.

Definition formatWithZeros (diff : Diff) (rawFormat : string) : string :=
  frmt diff rawFormat
       (fun n verb unit result => verbReplace result n verb unit)
       rawFormat.

(** [Diff.Format] and [Diff.FormatWithZeros]. *)
Definition Format (d : Diff) (rawFormat : string) : result string :=
  match unmarshal rawFormat with
  | Ok _ => Ok (format d rawFormat)
  | Err e => Err e
  | Panic i n => Panic i n
  end.

Definition FormatWithZeros (d : Diff) (rawFormat : string) : result string :=
  match unmarshal rawFormat with
  | Ok _ => Ok (formatWithZeros d rawFormat)
  | Err e => Err e
  | Panic i n => Panic i n
  end.

(** [formatMode] renders a result that carries no format string; its source
    is not among the files at hand, so it is a parameter here. *)
Variable formatMode : Diff -> DiffMode -> bool -> string.

(** The method [Diff.format], and [Diff.String] and [Diff.StringWithZeros]
    that call it. *)
Definition Diff_format (d : Diff) (withZeros : bool) : string :=
  if String.eqb (rawFormat d) "" then formatMode d (mode d) withZeros
  else if withZeros then formatWithZeros d (rawFormat d)
  else format d (rawFormat d).

Definition Diff_String (d : Diff) : string := Diff_format d false.

Definition Diff_StringWithZeros (d : Diff) : string := Diff_format d true.

End MapOrder.

Local Close Scope string_scope.


(* ================================================================== *)
(** ** Vocabulary for the statements *)
(* ================================================================== *)

Module Calendar.

Import clock.

(** Days of a month of the proleptic Gregorian calendar. *)
Definition daysIn (year month : Z) : Z :=
  if month =? 2 then (if isLeap year then 29 else 28)
  else if (month =? 4) || (month =? 6) || (month =? 9) || (month =? 11) then 30
  else 31.

(** A year, a month from 1 to 12 and a day of that month. *)
Definition validDate (year month day : Z) : bool :=
  (1 <=? month) && (month <=? 12) && (1 <=? day) && (day <=? daysIn year month).

(** Months are numbered through the years: month [i] is month [i mod 12 + 1]
    of year [i / 12]. [monthStart i] is the day number of its first day and
    [monthLength i] its number of days. *)
Definition monthStart (i : Z) : Z := dateToDays 0 (i + 1) 1.
Definition monthLength (i : Z) : Z := daysIn (i / 12) (i mod 12 + 1).

(** The civil date of a day number, as [date] reads it off a clock. *)
Definition civil (n : Z) : Z * Z * Z :=
  let '(year, yday) := absDate n in
  let '(month, day) := monthDay year yday in
  (year, month, day).

Definition dayNumber (t : Time) : Z := nanos t / nsPerDay.
Definition timeOfDay (t : Time) : Z := nanos t mod nsPerDay.
Definition monthIndex (t : Time) : Z := 12 * Year t + Month t - 1.

(** [f] holds of the [k] numbers from [i] on. *)
Fixpoint all_from (k : nat) (i : Z) (f : Z -> bool) : bool :=
  match k with
  | O => true
  | S k' => f i && all_from k' (i + 1) f
  end.

(** One day of the 400-year cycle: [civil] gives a date of the calendar,
    and [dateToDays] takes it back to the day. *)
Definition cycle_ok (r : Z) : bool :=
  let '(year, month, day) := civil r in
  validDate year month day && (dateToDays year month day =? r).

End Calendar.

(** The shape the three counting loops share: count up from [n] while the
    test holds of the next number. *)
Fixpoint count_loop (fuel : nat) (test : Z -> bool) (n : Z) : option Z :=
  match fuel with
  | O => None
  | S fuel' => if test (n + 1) then count_loop fuel' test (n + 1) else Some n
  end.


(** The four calendar units, from the coarsest to the finest. *)
Inductive timeUnit : Set := UnitYears | UnitMonths | UnitWeeks | UnitDays.

Definition unitFlag (u : timeUnit) : DiffMode :=
  match u with
  | UnitYears => ModeYears
  | UnitMonths => ModeMonths
  | UnitWeeks => ModeWeeks
  | UnitDays => ModeDays
  end.

Definition unitRank (u : timeUnit) : Z :=
  match u with
  | UnitYears => 0
  | UnitMonths => 1
  | UnitWeeks => 2
  | UnitDays => 3
  end.

(** The count a [Diff] reports for a unit. *)
Definition count (u : timeUnit) (d : Diff) : Z :=
  match u with
  | UnitYears => Years d
  | UnitMonths => Months d
  | UnitWeeks => Weeks d
  | UnitDays => Days d
  end.

Definition selected (mode : DiffMode) (u : timeUnit) : Prop :=
  hasMode mode (unitFlag u) = true.

(** [u] is selected and no unit coarser than [u] is. *)
Definition coarsest (mode : DiffMode) (u : timeUnit) : Prop :=
  selected mode u /\ forall v, unitRank v < unitRank u -> ~ selected mode v.

(** [start] moved forward by [n] whole units, with [AddDate]. *)
Definition advance (u : timeUnit) (start : time.Time) (n : Z) : time.Time :=
  match u with
  | UnitYears => time.AddDate start n 0 0
  | UnitMonths => time.AddDate start 0 n 0
  | UnitWeeks => time.AddDate start 0 0 (n * daysInWeek)
  | UnitDays => time.AddDate start 0 0 n
  end.

(** Boundary inclusivity for one selected unit, one start and one [n], at
    an end that is the instant of [start] moved forward by [n] units: [n]
    for the unit, 0 for every finer selected unit. *)
Definition boundaryInclusive (mode : DiffMode) (u : timeUnit)
    (start end_ : time.Time) (n : Z) : Prop :=
  selected mode u -> 0 <= n -> time.Equal end_ (advance u start n) = true ->
  let d := newDiff start end_ mode in
  count u d = n
  /\ forall v, unitRank u < unitRank v -> selected mode v -> count v d = 0.

(** Monotonicity in the end date for one mode, one unit and one start. *)
Definition monotoneInEnd (mode : DiffMode) (u : timeUnit)
    (start e1 e2 : time.Time) : Prop :=
  time.After start e1 = false -> time.After e1 e2 = false ->
  count u (newDiff start e1 mode) <= count u (newDiff start e2 mode).

(** Equal start and end give four zero counts. *)
Definition zeroWhenEqual (mode : DiffMode) (start end_ : time.Time) : Prop :=
  time.Equal start end_ = true ->
  NewDiffWithMode start end_ mode = Ok (mkDiff 0 0 0 0 EmptyString mode).

(** The offsets of Eastern Time (America/New_York) around 2021: five hours
    behind UTC, and four from 2021-03-14 07:00 UTC to 2021-11-07 06:00 UTC. *)
Definition easternTime2021 : time.Location :=
  time.mkLocation (-18000) [(1615705200, -14400); (1636264800, -18000)].

(** The offsets of Central European Time (Europe/Berlin) around 2021: one
    hour ahead of UTC, and two from 2021-03-28 01:00 UTC to 2021-10-31
    01:00 UTC. *)
Definition centralEurope2021 : time.Location :=
  time.mkLocation 3600 [(1616893200, 7200); (1635642000, 3600)].

(** The cursor of [newDiff] (its variable [start]) after each block. *)
Definition afterYears (start end_ : time.Time) (mode : DiffMode) : time.Time :=
  if hasMode mode ModeYears
  then time.AddDate start (fullYearsDiff start end_) 0 0
  else start.

Definition afterMonths (start end_ : time.Time) (mode : DiffMode) : time.Time :=
  if hasMode mode ModeMonths
  then time.AddDate (afterYears start end_ mode) 0
                    (Months (newDiff start end_ mode)) 0
  else afterYears start end_ mode.

Definition afterWeeks (start end_ : time.Time) (mode : DiffMode) : time.Time :=
  if hasMode mode ModeWeeks
  then time.AddDate (afterMonths start end_ mode) 0 0
                    (Weeks (newDiff start end_ mode) * daysInWeek)
  else afterMonths start end_ mode.

(** Case analysis on the four flags of a mode, reducing the projections of
    the resulting records. *)
Ltac by_mode m :=
  destruct (hasMode m ModeYears), (hasMode m ModeMonths),
           (hasMode m ModeWeeks), (hasMode m ModeDays);
  cbv beta iota zeta delta [Years Months Weeks Days rawFormat mode].


(* ================================================================== *)
(** ** The counting on clock readings *)
(* ================================================================== *)

(** The counting functions of datediff.go once more, with every time
    replaced by the reading of one clock that never changes its offset.
    They serve the proofs: for two times of one location with a fixed
    offset the package computes what these compute (lemmas [*_zoned] of
    [ZoneFacts]), and the calendar reasoning is done here, on readings. *)
Module OnClock.

(** The test of the three counting loops. *)
Definition reached (t end_ : clock.Time) : bool :=
  clock.Before t end_ || clock.Equal t end_.

(** Loop fuel: one more than the whole days from [start] to [end_]. *)
Definition iterations (start end_ : clock.Time) : nat :=
  S (Z.to_nat ((clock.nanos end_ - clock.nanos start) / clock.nsPerDay)).

Definition fullYearsDiff (start end_ : clock.Time) : Z :=
  let years := clock.Year end_ - clock.Year start in
  if clock.After (clock.AddDate start years 0 0) end_ then years - 1 else years.

Fixpoint fullMonthsDiff_loop (fuel : nat) (start end_ : clock.Time) (months : Z)
  : option Z :=
  match fuel with
  | O => None
  | S fuel' =>
      if reached (clock.AddDate start 0 (months + 1) 0) end_
      then fullMonthsDiff_loop fuel' start end_ (months + 1)
      else Some months
  end.

Definition fullMonthsDiff (start end_ : clock.Time) : Z :=
  match fullMonthsDiff_loop (iterations start end_) start end_ 0 with
  | Some months => months
  | None => 0
  end.

Fixpoint fullWeeksDiff_loop (fuel : nat) (start end_ : clock.Time) (weeks days : Z)
  : option Z :=
  match fuel with
  | O => None
  | S fuel' =>
      if reached (clock.AddDate start 0 0 days) end_
      then fullWeeksDiff_loop fuel' start end_ (weeks + 1) (days + daysInWeek)
      else Some weeks
  end.

Definition fullWeeksDiff (start end_ : clock.Time) : Z :=
  match fullWeeksDiff_loop (iterations start end_) start end_ 0 daysInWeek with
  | Some weeks => weeks
  | None => 0
  end.

Fixpoint fullDaysDiff_loop (fuel : nat) (start end_ : clock.Time) (days : Z)
  : option Z :=
  match fuel with
  | O => None
  | S fuel' =>
      if reached (clock.AddDate start 0 0 (days + 1)) end_
      then fullDaysDiff_loop fuel' start end_ (days + 1)
      else Some days
  end.

Definition fullDaysDiff (start end_ : clock.Time) : Z :=
  match fullDaysDiff_loop (iterations start end_) start end_ 0 with
  | Some days => days
  | None => 0
  end.

Definition newDiff (start end_ : clock.Time) (mode : DiffMode) : Diff :=
  let diff := mkDiff 0 0 0 0 EmptyString mode in
  let '(diff, start) :=
    if hasMode mode ModeYears then
      let years := fullYearsDiff start end_ in
      (mkDiff years (Months diff) (Weeks diff) (Days diff) (rawFormat diff) mode,
       clock.AddDate start years 0 0)
    else (diff, start) in
  let '(diff, start) :=
    if hasMode mode ModeMonths then
      let years := if hasMode mode ModeYears then 0 else fullYearsDiff start end_ in
      let months := fullMonthsDiff (clock.AddDate start years 0 0) end_ in
      let total := years * monthsInYear + months in
      (mkDiff (Years diff) total (Weeks diff) (Days diff) (rawFormat diff) mode,
       clock.AddDate start 0 total 0)
    else (diff, start) in
  let '(diff, start) :=
    if hasMode mode ModeWeeks then
      let weeks := fullWeeksDiff start end_ in
      (mkDiff (Years diff) (Months diff) weeks (Days diff) (rawFormat diff) mode,
       clock.AddDate start 0 0 (weeks * daysInWeek))
    else (diff, start) in
  if hasMode mode ModeDays then
    mkDiff (Years diff) (Months diff) (Weeks diff) (fullDaysDiff start end_)
           (rawFormat diff) mode
  else diff.

(** The cursor after each block. *)
Definition afterYears (start end_ : clock.Time) (mode : DiffMode) : clock.Time :=
  if hasMode mode ModeYears
  then clock.AddDate start (fullYearsDiff start end_) 0 0
  else start.

Definition afterMonths (start end_ : clock.Time) (mode : DiffMode) : clock.Time :=
  if hasMode mode ModeMonths
  then clock.AddDate (afterYears start end_ mode) 0
                    (Months (newDiff start end_ mode)) 0
  else afterYears start end_ mode.

Definition afterWeeks (start end_ : clock.Time) (mode : DiffMode) : clock.Time :=
  if hasMode mode ModeWeeks
  then clock.AddDate (afterMonths start end_ mode) 0 0
                    (Weeks (newDiff start end_ mode) * daysInWeek)
  else afterMonths start end_ mode.

(** A reading moved forward by [n] whole units. *)
Definition advance (u : timeUnit) (start : clock.Time) (n : Z) : clock.Time :=
  match u with
  | UnitYears => clock.AddDate start n 0 0
  | UnitMonths => clock.AddDate start 0 n 0
  | UnitWeeks => clock.AddDate start 0 0 (n * daysInWeek)
  | UnitDays => clock.AddDate start 0 0 n
  end.

End OnClock.

(** The time of the fixed zone with offset [o] at which the clock of the
    zone reads [r]. *)
Definition zoned (o : Z) (r : clock.Time) : time.Time :=
  time.mkTime (clock.nanos r - o * time.nsPerSecond) (time.FixedZone o).


(* ================================================================== *)
(** ** Vocabulary for format strings *)
(* ================================================================== *)

(** The letters that make a verb after a percent sign. *)
Definition verbLetters : list ascii :=
  ["Y"; "y"; "M"; "m"; "W"; "w"; "D"; "d"]%char.

(** At index [i] stands a percent sign followed by [c], which is no verb
    letter. *)
Definition unknownVerbAt (s : string) (i : nat) (c : ascii) : Prop :=
  String.get i s = Some "%"%char /\ String.get (S i) s = Some c
  /\ ~ In c verbLetters.

(** At index [i] stands the verb of letter [c]. *)
Definition verbAt (s : string) (i : nat) (c : ascii) : Prop :=
  String.get i s = Some "%"%char /\ String.get (S i) s = Some c
  /\ In c verbLetters.

(** [c] follows the first percent sign of [s] that no verb letter follows. *)
Definition firstUnknownVerb (s : string) (c : ascii) : Prop :=
  exists i, unknownVerbAt s i c
            /\ forall j c', (j < i)%nat -> ~ unknownVerbAt s j c'.

Definition noUnknownVerb (s : string) : Prop :=
  forall i c, ~ unknownVerbAt s i c.

Fixpoint lastChar (s : string) : option ascii :=
  match s with
  | EmptyString => None
  | String c EmptyString => Some c
  | String _ rest => lastChar rest
  end.

Definition flagIf (b : bool) (flag : DiffMode) : DiffMode :=
  if b then flag else 0.

(** The unit set of the verbs that occur in [s], in either case. *)
Definition unitsFound (s : string) : DiffMode :=
  Z.lor
    (Z.lor (flagIf (strings.Contains s "%Y" || strings.Contains s "%y") ModeYears)
           (flagIf (strings.Contains s "%M" || strings.Contains s "%m") ModeMonths))
    (Z.lor (flagIf (strings.Contains s "%W" || strings.Contains s "%w") ModeWeeks)
           (flagIf (strings.Contains s "%D" || strings.Contains s "%d") ModeDays)).

(** The parsing contract as the claim words it: UnknownVerb exactly when a
    percent sign is followed by a character that is no verb letter,
    EmptyUnitSet exactly when no verb occurs, and otherwise the non-empty
    set of the verbs found. *)
Definition parsesAsStated (s : string) : Prop :=
  ((exists c, unmarshal s = Err (errUnknownVerb s c))
   <-> exists i c, unknownVerbAt s i c)
  /\ (unmarshal s = Err errUndefinedDiffMode <-> ~ exists i c, verbAt s i c)
  /\ ((~ exists i c, unknownVerbAt s i c) -> (exists i c, verbAt s i c) ->
      unmarshal s = Ok (unitsFound s) /\ unitsFound s <> 0).


(* ================================================================== *)
(** ** Vocabulary for rendering *)
(* ================================================================== *)

Local Open Scope string_scope.

(** A format string read as tokens: a verb is a percent sign and its
    letter, everything else is a literal character. *)
Inductive token : Set :=
| Lit (c : ascii)
| Verb (v : ascii).

Fixpoint flat (toks : list token) : string :=
  match toks with
  | [] => EmptyString
  | Lit c :: rest => String c (flat rest)
  | Verb v :: rest => String "%" (String v (flat rest))
  end.

Fixpoint lits (s : string) : list token :=
  match s with
  | EmptyString => []
  | String c rest => Lit c :: lits rest
  end.

(** No literal is a percent sign and every verb has one of the letters. *)
Definition wellFormed (toks : list token) : Prop :=
  Forall (fun t => match t with
                   | Lit c => c <> "%"%char
                   | Verb v => In v verbLetters
                   end) toks.

(** What a rendering does with the verbs of one letter. *)
Inductive action : Set :=
| Keep
| Drop
| Put (text : string).

Definition isDrop (a : action) : bool :=
  match a with
  | Drop => true
  | _ => false
  end.

(** One pass over the tokens: a verb is kept, replaced by its text, or
    dropped, and a dropped verb takes the space right before it along. *)
Fixpoint pass (act : ascii -> action) (toks : list token) : list token :=
  match toks with
  | [] => []
  | Verb v :: rest =>
      match act v with
      | Keep => Verb v :: pass act rest
      | Drop => pass act rest
      | Put text => lits text ++ pass act rest
      end
  | Lit c :: rest =>
      match rest with
      | Verb v :: rest' =>
          if Ascii.eqb c " " && isDrop (act v) then pass act rest'
          else Lit c :: pass act rest
      | _ => Lit c :: pass act rest
      end
  end.

(** The tokens of [" %v"] taken out, as the first [ReplaceAll] of
    [zeroVerbReplace] does. *)
Fixpoint dropSpaced (v : ascii) (toks : list token) : list token :=
  match toks with
  | [] => []
  | Verb w :: rest => Verb w :: dropSpaced v rest
  | Lit c :: rest =>
      match rest with
      | Verb w :: rest' =>
          if Ascii.eqb c " " && Ascii.eqb w v then dropSpaced v rest'
          else Lit c :: dropSpaced v rest
      | _ => Lit c :: dropSpaced v rest
      end
  end.

(** The action on one letter only. *)
Definition only (v : ascii) (a : action) (w : ascii) : action :=
  if Ascii.eqb w v then a else Keep.

(** First [a1], then [a2] on what [a1] kept. *)
Definition andThen (a1 a2 : ascii -> action) (v : ascii) : action :=
  match a1 v with
  | Keep => a2 v
  | a => a
  end.

(** A replacement text that [pass] can be run over again: not empty, and
    not ending in a space. *)
Definition goodText (text : string) : Prop :=
  text <> EmptyString /\ lastChar text <> Some " "%char.

Definition goodTexts (act : ascii -> action) : Prop :=
  forall v text, act v = Put text -> goodText text.

(** The callback of [format] ([elide = true]) and of [formatWithZeros]. *)
Definition replaceWith (elide : bool) (n : Z) (verb unit result : string) : string :=
  if elide && (n =? 0)%Z then zeroVerbReplace result verb
  else verbReplace result n verb unit.

(** What [frmt] does for one entry of [formatUnits], as an action. *)
Definition entryAction (elide : bool) (d : Diff) (e : string * string) : action :=
  let n := unitCount d (snd e) in
  if elide && (n =? 0)%Z then Drop else Put (replacement n (fst e) (snd e)).

(** The action on a letter after the loop of [frmt] has gone through
    [entries]: that of the first entry with this letter. *)
Definition actOf (elide : bool) (d : Diff) (entries : list (string * string))
    (v : ascii) : action :=
  match find (fun e => Ascii.eqb (verbLetter (fst e)) v) entries with
  | Some e => entryAction elide d e
  | None => Keep
  end.

(** *** The rendering the specification describes *)

(** The count a verb letter stands for. *)
Definition specCount (d : Diff) (v : ascii) : Z :=
  match v with
  | "Y"%char | "y"%char => Years d
  | "M"%char | "m"%char => Months d
  | "W"%char | "w"%char => Weeks d
  | "D"%char | "d"%char => Days d
  | _ => 0%Z
  end.

Definition specNoun (v : ascii) : string :=
  match v with
  | "Y"%char | "y"%char => "year"
  | "M"%char | "m"%char => "month"
  | "W"%char | "w"%char => "week"
  | "D"%char | "d"%char => "day"
  | _ => ""
  end.

Definition specUpper (v : ascii) : bool :=
  match v with
  | "Y"%char | "M"%char | "W"%char | "D"%char => true
  | _ => false
  end.

(** Upper case: the number, a space and the noun, with an "s" unless the
    number is 1. Lower case: the number. *)
Definition specVerbText (n : Z) (v : ascii) : string :=
  if specUpper v
  then strconv.Itoa n ++ " " ++ specNoun v ++ (if (n =? 1)%Z then "" else "s")
  else strconv.Itoa n.

Definition isVerbLetter (v : ascii) : bool :=
  match verbMode v with
  | Some _ => true
  | None => false
  end.

(** One reading of the format string from left to right. With [elide], a
    verb whose count is 0 is left out, and so is the one space right before
    it; every other verb is replaced by its text. *)
Fixpoint specRender (elide : bool) (d : Diff) (s : string) : string :=
  match s with
  | EmptyString => EmptyString
  | String c rest =>
      match rest with
      | String v rest' =>
          if Ascii.eqb c "%" && isVerbLetter v then
            (if elide && (specCount d v =? 0)%Z then EmptyString
             else specVerbText (specCount d v) v)
            ++ specRender elide d rest'
          else
            match rest' with
            | String w rest'' =>
                if Ascii.eqb c " " && Ascii.eqb v "%" && isVerbLetter w
                   && elide && (specCount d w =? 0)%Z
                then specRender elide d rest''
                else String c (specRender elide d rest)
            | EmptyString => String c (specRender elide d rest)
            end
      | EmptyString => String c EmptyString
      end
  end.

(** The action of [specRender] on a verb letter. *)
Definition specAct (elide : bool) (d : Diff) (v : ascii) : action :=
  if elide && (specCount d v =? 0)%Z then Drop
  else Put (specVerbText (specCount d v) v).

(** Every verb of [s] with letter [v] replaced by [text]. *)
Fixpoint substVerb (v : ascii) (text s : string) : string :=
  match s with
  | EmptyString => EmptyString
  | String c rest =>
      match rest with
      | String w rest' =>
          if Ascii.eqb c "%" && Ascii.eqb w v then text ++ substVerb v text rest'
          else String c (substVerb v text rest)
      | EmptyString => String c EmptyString
      end
  end.

(** Rendering as the claim words it. *)
Definition rendersAsStated (order : list (string * string)) (d : Diff)
    (rawFormat : string) : Prop :=
  format order d rawFormat = specRender true d rawFormat
  /\ strings.Contains (format order d rawFormat) "  " = false
  /\ formatWithZeros order d rawFormat = specRender false d rawFormat.


(** The text of the verb with letter [v]. *)
Definition verbOf (v : ascii) : string := String "%" (String v EmptyString).

(** [s] has no two spaces in a row. *)
Definition noDoubleSpace (s : string) : Prop := strings.Contains s "  " = false.

(** [text] has no percent sign. *)
Definition cleanText (text : string) : Prop :=
  forall i, String.get i text <> Some "%"%char.

Fixpoint allChars (p : ascii -> bool) (s : string) : bool :=
  match s with
  | EmptyString => true
  | String c rest => p c && allChars p rest
  end.

(** Neither a percent sign nor a space. *)
Definition plain (c : ascii) : bool :=
  negb (Ascii.eqb c "%") && negb (Ascii.eqb c " ").

(** A replacement text that leaves no two spaces in a row. *)
Definition niceText (text : string) : Prop :=
  goodText text /\ noDoubleSpace text /\ String.get 0 text <> Some " "%char.

(** One turn of the loop of [frmt], on the result so far. *)
Definition frmtStep (elide : bool) (d : Diff) (rawFormat : string)
    (result : string) (e : string * string) : string :=
  let '(verb, unit) := e in
  if strings.Contains rawFormat verb
  then replaceWith elide (unitCount d unit) verb unit result
  else result.

(** The tokens of a format string: a percent sign and a verb letter make a
    verb, any other character is a literal. *)
Fixpoint tokenize (s : string) : list token :=
  match s with
  | EmptyString => []
  | String c rest =>
      match rest with
      | String v rest' =>
          if Ascii.eqb c "%" && isVerbLetter v then Verb v :: tokenize rest'
          else Lit c :: tokenize rest
      | EmptyString => [Lit c]
      end
  end.

Local Close Scope string_scope.


(* ================================================================== *)
(** ** The calendar *)
(* ================================================================== *)

Module CalendarFacts.

Import clock Calendar.

Local Open Scope bool_scope.

Lemma daysSinceEpoch_closed year :
  daysSinceEpoch year =
  365 * (year - 1) + (year - 1) / 4 - (year - 1) / 100 + (year - 1) / 400.
Proof.
  unfold daysSinceEpoch, daysPer400Years, daysPer100Years, daysPer4Years.
  cbv zeta. Z.div_mod_to_equations. lia.
Qed.

Lemma isLeap_spec year :
  isLeap year = true <-> (year mod 4 = 0 /\ (year mod 100 <> 0 \/ year mod 400 = 0)).
Proof.
  unfold isLeap. rewrite andb_true_iff, orb_true_iff, negb_true_iff.
  rewrite !Z.eqb_eq, Z.eqb_neq. tauto.
Qed.

Lemma daysSinceEpoch_succ year :
  daysSinceEpoch (year + 1) =
  daysSinceEpoch year + 365 + (if isLeap year then 1 else 0).
Proof.
  rewrite !daysSinceEpoch_closed.
  replace (year + 1 - 1) with year by lia.
  destruct (isLeap year) eqn:E.
  - apply isLeap_spec in E. Z.div_mod_to_equations. lia.
  - assert (H : ~ (year mod 4 = 0 /\ (year mod 100 <> 0 \/ year mod 400 = 0))).
    { rewrite <- isLeap_spec. congruence. }
    Z.div_mod_to_equations. lia.
Qed.

Lemma dateToDays_monthStart year month day :
  dateToDays year month day = monthStart (12 * year + month - 1) + (day - 1).
Proof.
  unfold monthStart, dateToDays. cbv zeta.
  replace (12 * year + month - 1 + 1 - 1) with ((month - 1) + year * 12) by lia.
  rewrite Z.div_add, Z.mod_add by lia.
  replace (0 + ((month - 1) / 12 + year)) with (year + (month - 1) / 12) by lia.
  destruct (isLeap _ && _); lia.
Qed.

Lemma monthStart_unfold i :
  monthStart i =
  daysSinceEpoch (i / 12) + daysBefore (i mod 12)
  + (if isLeap (i / 12) && (2 <=? i mod 12) then 1 else 0).
Proof.
  unfold monthStart, dateToDays. cbv zeta.
  replace (i + 1 - 1) with i by lia. rewrite Z.add_0_l.
  destruct (isLeap _ && _); lia.
Qed.

Lemma mod12_cases i :
  let m := i mod 12 in
  m = 0 \/ m = 1 \/ m = 2 \/ m = 3 \/ m = 4 \/ m = 5 \/ m = 6 \/ m = 7 \/
  m = 8 \/ m = 9 \/ m = 10 \/ m = 11.
Proof. cbv zeta. pose proof (Z.mod_pos_bound i 12). lia. Qed.

Lemma succ_div_mod12 i :
  (i mod 12 < 11 /\ (i + 1) / 12 = i / 12 /\ (i + 1) mod 12 = i mod 12 + 1)
  \/ (i mod 12 = 11 /\ (i + 1) / 12 = i / 12 + 1 /\ (i + 1) mod 12 = 0).
Proof. Z.div_mod_to_equations. lia. Qed.

Lemma monthStart_succ i : monthStart (i + 1) = monthStart i + monthLength i.
Proof.
  rewrite !monthStart_unfold. unfold monthLength, daysIn.
  destruct (succ_div_mod12 i) as [(Hlt & Hd & Hm) | (Heq & Hd & Hm)];
    rewrite Hd, Hm.
  - pose proof (mod12_cases i) as Hc. cbv zeta in Hc.
    generalize (daysSinceEpoch (i / 12)); intros a.
    destruct (isLeap (i / 12));
      repeat (destruct Hc as [Hc | Hc]; [rewrite Hc; vm_compute daysBefore; cbn; lia | ]);
      lia.
  - rewrite Heq, daysSinceEpoch_succ.
    generalize (daysSinceEpoch (i / 12)); intros a.
    destruct (isLeap (i / 12)), (isLeap (i / 12 + 1));
      vm_compute daysBefore; cbn; lia.
Qed.

Lemma monthLength_bounds i : 28 <= monthLength i <= 31.
Proof.
  unfold monthLength, daysIn.
  destruct (_ =? 2); [destruct (isLeap _); lia | ].
  destruct (_ || _); lia.
Qed.

Lemma monthStart_mono_steps i k :
  0 <= k -> monthStart i + 28 * k <= monthStart (i + k).
Proof.
  intros Hk. pattern k. apply natlike_ind; [ | | assumption].
  - replace (i + 0) with i by lia. lia.
  - intros x Hx IH. replace (i + Z.succ x) with (i + x + 1) by lia.
    rewrite monthStart_succ. pose proof (monthLength_bounds (i + x)). lia.
Qed.

Lemma monthStart_lt i j : i < j -> monthStart i + 28 * (j - i) <= monthStart j.
Proof.
  intros H. pose proof (monthStart_mono_steps i (j - i)).
  replace (i + (j - i)) with j in * by lia. lia.
Qed.

Lemma monthStart_le i j : i <= j -> monthStart i <= monthStart j.
Proof.
  intros H. destruct (Z.eq_dec i j) as [-> | ]; [lia | ].
  pose proof (monthStart_lt i j). lia.
Qed.

Lemma monthStart_lt_inv i j : monthStart i < monthStart j -> i < j.
Proof.
  intros H. destruct (Z_lt_le_dec i j) as [ | Hle]; [assumption | ].
  apply monthStart_le in Hle. lia.
Qed.

Lemma all_from_spec f k : forall i,
  all_from k i f = true -> forall j, i <= j < i + Z.of_nat k -> f j = true.
Proof.
  induction k as [ | k IH]; intros i H j Hj.
  - simpl in Hj. lia.
  - cbn [all_from] in H. apply andb_true_iff in H as [Hi Hrest].
    destruct (Z.eq_dec i j) as [-> | Hne]; [assumption | ].
    apply (IH (i + 1) Hrest). lia.
Qed.

Lemma cycle_checked : all_from (Z.to_nat daysPer400Years) 0 cycle_ok = true.
Proof. vm_cast_no_check (eq_refl true). Qed.

Lemma cycle_ok_all r : 0 <= r < daysPer400Years -> cycle_ok r = true.
Proof.
  intros H. apply (all_from_spec cycle_ok _ 0 cycle_checked).
  rewrite Z2Nat.id by (unfold daysPer400Years; lia). lia.
Qed.

Lemma absDate_period n :
  absDate n =
  (400 * (n / daysPer400Years) + fst (absDate (n mod daysPer400Years)),
   snd (absDate (n mod daysPer400Years))).
Proof.
  assert (Hpos : 0 < daysPer400Years) by (unfold daysPer400Years; lia).
  pose proof (Z.mod_pos_bound n daysPer400Years Hpos) as Hb.
  unfold absDate at 2 3. cbv zeta.
  rewrite (Z.div_small (n mod daysPer400Years)) by assumption.
  rewrite Z.mul_0_r, Z.sub_0_r, Z.add_0_l.
  unfold absDate. cbv zeta. cbn [fst snd].
  replace (n - daysPer400Years * (n / daysPer400Years)) with (n mod daysPer400Years)
    by (rewrite Z.mod_eq by lia; reflexivity).
  f_equal. lia.
Qed.

Lemma isLeap_period q year : isLeap (400 * q + year) = isLeap year.
Proof.
  unfold isLeap.
  replace (400 * q + year) with (year + (100 * q) * 4) at 1 by lia.
  replace (400 * q + year) with (year + (4 * q) * 100) at 1 by lia.
  replace (400 * q + year) with (year + q * 400) by lia.
  rewrite !Z.mod_add by lia. reflexivity.
Qed.

Lemma daysSinceEpoch_period q year :
  daysSinceEpoch (400 * q + year) = daysPer400Years * q + daysSinceEpoch year.
Proof.
  rewrite !daysSinceEpoch_closed. unfold daysPer400Years.
  Z.div_mod_to_equations. lia.
Qed.

Lemma dateToDays_period q year month day :
  dateToDays (400 * q + year) month day =
  daysPer400Years * q + dateToDays year month day.
Proof.
  unfold dateToDays. cbv zeta.
  rewrite <- Z.add_assoc, isLeap_period, daysSinceEpoch_period.
  destruct (isLeap _ && _); lia.
Qed.

Lemma daysIn_period q year month : daysIn (400 * q + year) month = daysIn year month.
Proof. unfold daysIn. rewrite isLeap_period. reflexivity. Qed.

Lemma civil_period n :
  civil n =
  let '(year, month, day) := civil (n mod daysPer400Years) in
  (400 * (n / daysPer400Years) + year, month, day).
Proof.
  unfold civil. rewrite absDate_period.
  destruct (absDate (n mod daysPer400Years)) as [year yday]. cbn [fst snd].
  unfold monthDay. rewrite isLeap_period.
  destruct (isLeap year && (yday =? 31 + 29 - 1)); [reflexivity | ].
  cbv zeta. destruct (_ >=? _); reflexivity.
Qed.

Lemma civil_valid n :
  let '(year, month, day) := civil n in
  validDate year month day = true /\ dateToDays year month day = n.
Proof.
  assert (Hpos : 0 < daysPer400Years) by (unfold daysPer400Years; lia).
  rewrite civil_period.
  pose proof (cycle_ok_all (n mod daysPer400Years) (Z.mod_pos_bound _ _ Hpos)) as H.
  unfold cycle_ok in H.
  destruct (civil (n mod daysPer400Years)) as [[year month] day].
  apply andb_true_iff in H as [Hv Hd]. apply Z.eqb_eq in Hd.
  split.
  - unfold validDate in *. rewrite daysIn_period. assumption.
  - rewrite dateToDays_period, Hd. rewrite (Z.div_mod n daysPer400Years) at 3 by lia.
    reflexivity.
Qed.

Lemma nsPerDay_eq : nsPerDay = 86400000000000.
Proof. reflexivity. Qed.

Lemma nanos_split t : nanos t = dayNumber t * nsPerDay + timeOfDay t.
Proof.
  unfold dayNumber, timeOfDay. rewrite nsPerDay_eq.
  Z.div_mod_to_equations. lia.
Qed.

Lemma timeOfDay_bounds t : 0 <= timeOfDay t < nsPerDay.
Proof. apply Z.mod_pos_bound. reflexivity. Qed.

Lemma date_civil t : date t = civil (dayNumber t).
Proof. reflexivity. Qed.

Lemma clock_sum t :
  Hour t * nsPerHour + Minute t * nsPerMinute + Second t * nsPerSecond
  + Nanosecond t = timeOfDay t.
Proof.
  unfold Hour, Minute, Second, Nanosecond, timeOfDay.
  change nsPerDay with 86400000000000. change nsPerHour with 3600000000000.
  change nsPerMinute with 60000000000. change nsPerSecond with 1000000000.
  Z.div_mod_to_equations. lia.
Qed.

Lemma monthLength_daysIn year month :
  1 <= month <= 12 -> monthLength (12 * year + month - 1) = daysIn year month.
Proof.
  intros H. unfold monthLength.
  replace (12 * year + month - 1) with ((month - 1) + year * 12) by lia.
  rewrite Z.div_add, Z.mod_add by lia.
  rewrite Z.div_small, Z.mod_small by lia. f_equal; lia.
Qed.

Lemma date_spec t :
  1 <= Month t <= 12 /\ 1 <= Day t <= monthLength (monthIndex t)
  /\ dayNumber t = monthStart (monthIndex t) + (Day t - 1).
Proof.
  unfold monthIndex, Year, Month, Day. rewrite date_civil.
  pose proof (civil_valid (dayNumber t)) as H.
  destruct (civil (dayNumber t)) as [[year month] day]. cbn [fst snd].
  destruct H as [Hv Hd]. unfold validDate in Hv.
  rewrite !andb_true_iff, !Z.leb_le in Hv.
  rewrite monthLength_daysIn by lia.
  rewrite <- dateToDays_monthStart. lia.
Qed.

Lemma nanos_AddDate t years months days :
  nanos (AddDate t years months days) =
  (monthStart (monthIndex t + 12 * years + months) + (Day t + days - 1)) * nsPerDay
  + timeOfDay t.
Proof.
  unfold AddDate, monthIndex, Year, Month, Day.
  destruct (date t) as [[year month] day]. cbn [fst snd].
  unfold Date. cbn [nanos]. rewrite dateToDays_monthStart.
  pose proof (clock_sum t).
  replace (12 * (year + years) + (month + months) - 1)
    with (12 * year + month - 1 + 12 * years + months) by lia.
  lia.
Qed.

Lemma dayNumber_AddDate t years months days :
  dayNumber (AddDate t years months days) =
  monthStart (monthIndex t + 12 * years + months) + (Day t + days - 1).
Proof.
  unfold dayNumber at 1. rewrite nanos_AddDate.
  pose proof (timeOfDay_bounds t). rewrite nsPerDay_eq in *.
  Z.div_mod_to_equations. lia.
Qed.

Lemma nanos_AddDate_days t days :
  nanos (AddDate t 0 0 days) = nanos t + days * nsPerDay.
Proof.
  rewrite nanos_AddDate, (nanos_split t).
  destruct (date_spec t) as (_ & _ & ->).
  replace (monthIndex t + 12 * 0 + 0) with (monthIndex t) by lia. lia.
Qed.

Lemma AddDate_zero t : AddDate t 0 0 0 = t.
Proof.
  pose proof (nanos_AddDate_days t 0) as H.
  destruct (AddDate t 0 0 0) as [n], t as [n']. cbn [nanos] in H.
  f_equal. lia.
Qed.

Lemma nanos_AddDate_lt t y1 m1 y2 m2 :
  12 * y1 + m1 < 12 * y2 + m2 ->
  nanos (AddDate t y1 m1 0) < nanos (AddDate t y2 m2 0).
Proof.
  intros H. rewrite !nanos_AddDate.
  pose proof (monthStart_lt (monthIndex t + 12 * y1 + m1) (monthIndex t + 12 * y2 + m2)).
  rewrite nsPerDay_eq. lia.
Qed.

Lemma nanos_AddDate_le t y1 m1 y2 m2 :
  12 * y1 + m1 <= 12 * y2 + m2 ->
  nanos (AddDate t y1 m1 0) <= nanos (AddDate t y2 m2 0).
Proof.
  intros H. rewrite !nanos_AddDate.
  pose proof (monthStart_le (monthIndex t + 12 * y1 + m1) (monthIndex t + 12 * y2 + m2)).
  rewrite nsPerDay_eq. lia.
Qed.

Lemma nanos_AddDate_months_ge t months :
  0 <= months -> nanos t + 28 * months * nsPerDay <= nanos (AddDate t 0 months 0).
Proof.
  intros H. rewrite nanos_AddDate, (nanos_split t).
  destruct (date_spec t) as (_ & _ & ->).
  pose proof (monthStart_mono_steps (monthIndex t) months H).
  replace (monthIndex t + 12 * 0 + months) with (monthIndex t + months) by lia.
  rewrite nsPerDay_eq. lia.
Qed.

Lemma Year_bounds t :
  monthStart (12 * Year t) <= dayNumber t < monthStart (12 * Year t + 12).
Proof.
  destruct (date_spec t) as (Hm & Hd & ->). unfold monthIndex in *.
  split.
  - pose proof (monthStart_le (12 * Year t) (12 * Year t + Month t - 1)). lia.
  - pose proof (monthStart_succ (12 * Year t + Month t - 1)).
    pose proof (monthStart_le (12 * Year t + Month t - 1 + 1) (12 * Year t + 12)).
    lia.
Qed.

Lemma Year_unique t year :
  monthStart (12 * year) <= dayNumber t < monthStart (12 * year + 12) ->
  Year t = year.
Proof.
  intros H. pose proof (Year_bounds t) as Hb.
  destruct (Z.lt_trichotomy (Year t) year) as [Hlt | [Heq | Hgt]];
    [ | assumption | ].
  - pose proof (monthStart_le (12 * Year t + 12) (12 * year)). lia.
  - pose proof (monthStart_le (12 * year + 12) (12 * Year t)). lia.
Qed.

Lemma dayNumber_le a b : nanos a <= nanos b -> dayNumber a <= dayNumber b.
Proof. intros H. unfold dayNumber. apply Z.div_le_mono; [reflexivity | assumption]. Qed.

Lemma Year_mono a b : nanos a <= nanos b -> Year a <= Year b.
Proof.
  intros H. apply dayNumber_le in H.
  pose proof (Year_bounds a). pose proof (Year_bounds b).
  destruct (Z_le_gt_dec (Year a) (Year b)) as [ | Hgt]; [assumption | ].
  pose proof (monthStart_le (12 * Year b + 12) (12 * Year a)). lia.
Qed.

Lemma Year_AddDate_years t years : Year (AddDate t years 0 0) = Year t + years.
Proof.
  apply Year_unique. rewrite dayNumber_AddDate.
  destruct (date_spec t) as (Hm & Hd & _). unfold monthIndex in *.
  pose proof (monthLength_bounds (12 * Year t + Month t - 1)) as Hl.
  set (i := 12 * Year t + Month t - 1 + 12 * years + 0).
  split.
  - pose proof (monthStart_le (12 * (Year t + years)) i). lia.
  - destruct (Z.eq_dec (Month t) 12) as [H12 | Hne].
    + pose proof (monthStart_succ i) as Hs.
      assert (Hlen : monthLength i = 31).
      { unfold monthLength, daysIn. subst i.
        replace (12 * Year t + Month t - 1 + 12 * years + 0)
          with (11 + (Year t + years) * 12) by lia.
        rewrite Z.mod_add by lia. reflexivity. }
      replace (12 * (Year t + years) + 12) with (i + 1) by lia. lia.
    + pose proof (monthStart_lt i (12 * (Year t + years) + 12)). lia.
Qed.


End CalendarFacts.


(* ================================================================== *)
(** ** The counting loops and [fullYearsDiff] *)
(* ================================================================== *)

Module DiffFacts.

Import clock Calendar CalendarFacts OnClock.

Local Open Scope bool_scope.

Lemma reached_le t e : reached t e = true <-> nanos t <= nanos e.
Proof.
  unfold reached, Before, Equal. rewrite orb_true_iff, Z.ltb_lt, Z.eqb_eq. lia.
Qed.

Lemma reached_gt t e : reached t e = false <-> nanos e < nanos t.
Proof.
  rewrite <- not_true_iff_false, reached_le. lia.
Qed.

Lemma After_gt t u : After t u = true <-> nanos u < nanos t.
Proof. unfold After. apply Z.ltb_lt. Qed.

Lemma After_le t u : After t u = false <-> nanos t <= nanos u.
Proof. unfold After. rewrite Z.ltb_ge. reflexivity. Qed.

Lemma fullMonthsDiff_loop_count fuel start end_ : forall months,
  fullMonthsDiff_loop fuel start end_ months =
  count_loop fuel (fun j => reached (AddDate start 0 j 0) end_) months.
Proof.
  induction fuel as [ | fuel IH]; intros months; cbn; [reflexivity | ].
  rewrite IH. reflexivity.
Qed.

Lemma fullWeeksDiff_loop_count fuel start end_ : forall weeks,
  fullWeeksDiff_loop fuel start end_ weeks ((weeks + 1) * daysInWeek) =
  count_loop fuel (fun j => reached (AddDate start 0 0 (j * daysInWeek)) end_) weeks.
Proof.
  induction fuel as [ | fuel IH]; intros weeks; cbn [fullWeeksDiff_loop count_loop];
    [reflexivity | ].
  replace ((weeks + 1) * daysInWeek + daysInWeek) with ((weeks + 1 + 1) * daysInWeek) by lia.
  rewrite IH. reflexivity.
Qed.

Lemma fullWeeksDiff_loop_count0 fuel start end_ :
  fullWeeksDiff_loop fuel start end_ 0 daysInWeek =
  count_loop fuel (fun j => reached (AddDate start 0 0 (j * daysInWeek)) end_) 0.
Proof. apply (fullWeeksDiff_loop_count fuel start end_ 0). Qed.

Lemma fullDaysDiff_loop_count fuel start end_ : forall days,
  fullDaysDiff_loop fuel start end_ days =
  count_loop fuel (fun j => reached (AddDate start 0 0 j) end_) days.
Proof.
  induction fuel as [ | fuel IH]; intros days; cbn; [reflexivity | ].
  rewrite IH. reflexivity.
Qed.

(** What a finished loop returns. *)
Lemma count_loop_some test : forall fuel n r,
  count_loop fuel test n = Some r ->
  n <= r /\ test (r + 1) = false /\ forall j, n < j <= r -> test j = true.
Proof.
  induction fuel as [ | fuel IH]; intros n r H; cbn in H; [discriminate | ].
  destruct (test (n + 1)) eqn:E.
  - apply IH in H as (Hle & Hstop & Hall). repeat split; [lia | assumption | ].
    intros j Hj. destruct (Z.eq_dec j (n + 1)) as [-> | ]; [assumption | ].
    apply Hall. lia.
  - injection H as <-. repeat split; [lia | assumption | intros j Hj; lia].
Qed.

(** A failing test [k] steps ahead bounds the fuel the loop needs. *)
Lemma count_loop_enough test : forall (k : nat) fuel n,
  test (n + Z.of_nat k + 1) = false -> (k < fuel)%nat ->
  exists r, count_loop fuel test n = Some r.
Proof.
  induction k as [ | k IH]; intros fuel n Hk Hfuel;
    (destruct fuel as [ | fuel]; [lia | ]); cbn [count_loop].
  - replace (n + Z.of_nat 0 + 1) with (n + 1) in Hk by lia. rewrite Hk. eauto.
  - destruct (test (n + 1)); [ | eauto].
    apply IH; [ | lia].
    replace (n + 1 + Z.of_nat k + 1) with (n + Z.of_nat (S k) + 1) by lia.
    assumption.
Qed.

Lemma count_loop_fuel test fuel fuel' n r :
  count_loop fuel test n = Some r -> (fuel <= fuel')%nat ->
  count_loop fuel' test n = Some r.
Proof.
  revert fuel' n. induction fuel as [ | fuel IH]; intros fuel' n H Hle;
    cbn in H; [discriminate | ].
  destruct fuel' as [ | fuel']; [lia | ]. cbn.
  destruct (test (n + 1)); [ | assumption]. apply IH; [assumption | lia].
Qed.

Lemma iterations_spec start end_ :
  nanos end_ - nanos start < Z.of_nat (iterations start end_) * nsPerDay.
Proof.
  unfold iterations. rewrite Nat2Z.inj_succ. rewrite nsPerDay_eq.
  Z.div_mod_to_equations. lia.
Qed.

Lemma count_loop_total test fuel :
  (0 < fuel)%nat -> test (Z.of_nat fuel) = false ->
  exists r, count_loop fuel test 0 = Some r.
Proof.
  intros Hpos H. apply (count_loop_enough test (fuel - 1)); [ | lia].
  replace (0 + Z.of_nat (fuel - 1) + 1) with (Z.of_nat fuel) by lia. assumption.
Qed.

Lemma iterations_pos start end_ : (0 < iterations start end_)%nat.
Proof. unfold iterations. lia. Qed.

(** *** The three counting loops run to their exit test *)
Lemma fullMonthsDiff_fuel start end_ fuel :
  (iterations start end_ <= fuel)%nat ->
  fullMonthsDiff_loop fuel start end_ 0 = Some (fullMonthsDiff start end_).
Proof.
  intros Hfuel.
  destruct (count_loop_total (fun j => reached (AddDate start 0 j 0) end_)
              (iterations start end_) (iterations_pos _ _)) as [r Hr].
  { apply reached_gt. pose proof (iterations_spec start end_).
    pose proof (nanos_AddDate_months_ge start (Z.of_nat (iterations start end_))).
    rewrite nsPerDay_eq in *. lia. }
  unfold fullMonthsDiff. rewrite !fullMonthsDiff_loop_count, Hr.
  apply (count_loop_fuel _ _ _ _ _ Hr Hfuel).
Qed.

Lemma fullWeeksDiff_fuel start end_ fuel :
  (iterations start end_ <= fuel)%nat ->
  fullWeeksDiff_loop fuel start end_ 0 daysInWeek = Some (fullWeeksDiff start end_).
Proof.
  intros Hfuel.
  destruct (count_loop_total (fun j => reached (AddDate start 0 0 (j * daysInWeek)) end_)
              (iterations start end_) (iterations_pos _ _)) as [r Hr].
  { apply reached_gt. pose proof (iterations_spec start end_).
    rewrite nanos_AddDate_days. unfold daysInWeek. rewrite nsPerDay_eq in *. lia. }
  unfold fullWeeksDiff. rewrite !fullWeeksDiff_loop_count0, Hr.
  apply (count_loop_fuel _ _ _ _ _ Hr Hfuel).
Qed.

Lemma fullDaysDiff_fuel start end_ fuel :
  (iterations start end_ <= fuel)%nat ->
  fullDaysDiff_loop fuel start end_ 0 = Some (fullDaysDiff start end_).
Proof.
  intros Hfuel.
  destruct (count_loop_total (fun j => reached (AddDate start 0 0 j) end_)
              (iterations start end_) (iterations_pos _ _)) as [r Hr].
  { apply reached_gt. pose proof (iterations_spec start end_).
    rewrite nanos_AddDate_days. rewrite nsPerDay_eq in *. lia. }
  unfold fullDaysDiff. rewrite !fullDaysDiff_loop_count, Hr.
  apply (count_loop_fuel _ _ _ _ _ Hr Hfuel).
Qed.

(** *** What the loops count *)
Lemma fullMonthsDiff_spec start end_ :
  let months := fullMonthsDiff start end_ in
  0 <= months
  /\ nanos end_ < nanos (AddDate start 0 (months + 1) 0)
  /\ (0 < months -> nanos (AddDate start 0 months 0) <= nanos end_).
Proof.
  cbv zeta. pose proof (fullMonthsDiff_fuel start end_ _ (Nat.le_refl _)) as H.
  rewrite fullMonthsDiff_loop_count in H.
  apply count_loop_some in H as (Hle & Hstop & Hall).
  repeat split; [assumption | apply reached_gt; assumption | ].
  intros Hpos. apply reached_le. apply Hall. lia.
Qed.

Lemma fullMonthsDiff_unique start end_ months :
  0 <= months ->
  (0 < months -> nanos (AddDate start 0 months 0) <= nanos end_) ->
  nanos end_ < nanos (AddDate start 0 (months + 1) 0) ->
  fullMonthsDiff start end_ = months.
Proof.
  intros Hpos Hle Hgt.
  destruct (fullMonthsDiff_spec start end_) as (Hr0 & Hr1 & Hr2).
  set (r := fullMonthsDiff start end_) in *.
  destruct (Z.lt_trichotomy r months) as [Hlt | [Heq | Hlt]]; [ | assumption | ].
  - pose proof (nanos_AddDate_le start 0 (r + 1) 0 months). lia.
  - pose proof (nanos_AddDate_le start 0 (months + 1) 0 r). lia.
Qed.

Lemma fullWeeksDiff_eq start end_ :
  fullWeeksDiff start end_ =
  Z.max 0 ((nanos end_ - nanos start) / (daysInWeek * nsPerDay)).
Proof.
  pose proof (fullWeeksDiff_fuel start end_ _ (Nat.le_refl _)) as H.
  rewrite fullWeeksDiff_loop_count0 in H.
  apply count_loop_some in H as (Hle & Hstop & Hall).
  set (r := fullWeeksDiff start end_) in *.
  apply reached_gt in Hstop. rewrite nanos_AddDate_days in Hstop.
  assert (Hr : 0 < r -> nanos start + r * daysInWeek * nsPerDay <= nanos end_).
  { intros Hr. rewrite <- nanos_AddDate_days. apply reached_le. apply Hall. lia. }
  unfold daysInWeek in *. rewrite nsPerDay_eq in *.
  Z.div_mod_to_equations. lia.
Qed.

Lemma fullDaysDiff_eq start end_ :
  fullDaysDiff start end_ = Z.max 0 ((nanos end_ - nanos start) / nsPerDay).
Proof.
  pose proof (fullDaysDiff_fuel start end_ _ (Nat.le_refl _)) as H.
  rewrite fullDaysDiff_loop_count in H.
  apply count_loop_some in H as (Hle & Hstop & Hall).
  set (r := fullDaysDiff start end_) in *.
  apply reached_gt in Hstop. rewrite nanos_AddDate_days in Hstop.
  assert (Hr : 0 < r -> nanos start + r * nsPerDay <= nanos end_).
  { intros Hr. rewrite <- nanos_AddDate_days. apply reached_le. apply Hall. lia. }
  rewrite nsPerDay_eq in *.
  Z.div_mod_to_equations. lia.
Qed.

(** *** Whole years *)
Lemma fullYearsDiff_le start end_ :
  nanos (AddDate start (fullYearsDiff start end_) 0 0) <= nanos end_.
Proof.
  unfold fullYearsDiff. cbv zeta.
  destruct (After _ _) eqn:E; [ | apply After_le; assumption].
  set (k := Year end_ - Year start).
  destruct (Z_le_gt_dec (nanos (AddDate start (k - 1) 0 0)) (nanos end_)) as [ | Hgt];
    [assumption | ].
  assert (H : nanos end_ <= nanos (AddDate start (k - 1) 0 0)) by lia.
  apply Year_mono in H. rewrite Year_AddDate_years in H. lia.
Qed.

Lemma fullYearsDiff_gt start end_ :
  nanos end_ < nanos (AddDate start (fullYearsDiff start end_ + 1) 0 0).
Proof.
  unfold fullYearsDiff. cbv zeta.
  destruct (After _ _) eqn:E.
  - apply After_gt in E. replace (Year end_ - Year start - 1 + 1)
      with (Year end_ - Year start) by lia. assumption.
  - set (k := Year end_ - Year start).
    destruct (Z_lt_le_dec (nanos end_) (nanos (AddDate start (k + 1) 0 0))) as [ | Hle];
      [assumption | ].
    apply Year_mono in Hle. rewrite Year_AddDate_years in Hle. lia.
Qed.

Lemma fullYearsDiff_unique start end_ years :
  nanos (AddDate start years 0 0) <= nanos end_ ->
  nanos end_ < nanos (AddDate start (years + 1) 0 0) ->
  fullYearsDiff start end_ = years.
Proof.
  intros Hle Hgt.
  pose proof (fullYearsDiff_le start end_) as Hr1.
  pose proof (fullYearsDiff_gt start end_) as Hr2.
  set (r := fullYearsDiff start end_) in *.
  destruct (Z.lt_trichotomy r years) as [Hlt | [Heq | Hlt]]; [ | assumption | ].
  - pose proof (nanos_AddDate_le start (r + 1) 0 years 0). lia.
  - pose proof (nanos_AddDate_le start (years + 1) 0 r 0). lia.
Qed.

Lemma fullYearsDiff_nonneg start end_ :
  nanos start <= nanos end_ -> 0 <= fullYearsDiff start end_.
Proof.
  intros H. pose proof (fullYearsDiff_gt start end_) as Hgt.
  destruct (Z_le_gt_dec 0 (fullYearsDiff start end_)) as [ | Hneg]; [assumption | ].
  pose proof (nanos_AddDate_le start (fullYearsDiff start end_ + 1) 0 0 0).
  rewrite AddDate_zero in *. lia.
Qed.

Lemma fullYearsDiff_mono start e1 e2 :
  nanos e1 <= nanos e2 -> fullYearsDiff start e1 <= fullYearsDiff start e2.
Proof.
  intros H.
  pose proof (fullYearsDiff_le start e1). pose proof (fullYearsDiff_gt start e2).
  destruct (Z_le_gt_dec (fullYearsDiff start e1) (fullYearsDiff start e2)) as [ | Hgt];
    [assumption | ].
  pose proof (nanos_AddDate_le start (fullYearsDiff start e2 + 1) 0
                (fullYearsDiff start e1) 0). lia.
Qed.


Lemma Time_eq a b : nanos a = nanos b -> a = b.
Proof. destruct a, b. cbn. intros ->. reflexivity. Qed.

Lemma timeOfDay_AddDate t years months days :
  timeOfDay (AddDate t years months days) = timeOfDay t.
Proof.
  unfold timeOfDay at 1. rewrite nanos_AddDate.
  pose proof (timeOfDay_bounds t). rewrite nsPerDay_eq in *.
  Z.div_mod_to_equations. lia.
Qed.

(** A date of the calendar is the date of its own day. *)
Lemma date_unique t year month day :
  validDate year month day = true ->
  dayNumber t = dateToDays year month day ->
  Year t = year /\ Month t = month /\ Day t = day.
Proof.
  intros Hv Hd. unfold validDate in Hv.
  rewrite !andb_true_iff, !Z.leb_le in Hv.
  destruct (date_spec t) as (Hm & Hday & Hn). unfold monthIndex in *.
  rewrite dateToDays_monthStart, Hn in Hd.
  rewrite <- monthLength_daysIn in Hv by lia.
  set (i := 12 * Year t + Month t - 1) in *.
  set (j := 12 * year + month - 1) in *.
  assert (Hij : i = j).
  { destruct (Z.lt_trichotomy i j) as [Hlt | [Heq | Hlt]]; [ | assumption | ].
    - pose proof (monthStart_succ i). pose proof (monthStart_le (i + 1) j). lia.
    - pose proof (monthStart_succ j). pose proof (monthStart_le (j + 1) i). lia. }
  rewrite Hij in Hd. subst i j. lia.
Qed.

(** Adding whole years keeps month and day, except from February 29 into
    a year without one, where [Date] runs on to March 1. *)
Lemma AddDate_years_date t years :
  let c := AddDate t years 0 0 in
  (monthIndex c = monthIndex t + 12 * years /\ Day c = Day t)
  \/ (Month t = 2 /\ Day t = 29
      /\ monthIndex c = monthIndex t + 12 * years + 1 /\ Day c = 1).
Proof.
  cbv zeta. set (c := AddDate t years 0 0).
  destruct (date_spec t) as (Hm & Hday & _).
  unfold monthIndex in Hday. rewrite monthLength_daysIn in Hday by assumption.
  assert (Hn : dayNumber c = dateToDays (Year t + years) (Month t) (Day t)).
  { unfold c. rewrite dayNumber_AddDate, dateToDays_monthStart. unfold monthIndex.
    f_equal; [f_equal | ]; lia. }
  destruct (validDate (Year t + years) (Month t) (Day t)) eqn:Hv.
  - left. destruct (date_unique c _ _ _ Hv Hn) as (Hy & Hmo & Hd).
    unfold monthIndex. rewrite Hy, Hmo, Hd. lia.
  - right.
    assert (Hfeb : Month t = 2 /\ Day t = 29 /\ isLeap (Year t + years) = false).
    { unfold validDate in Hv. rewrite !andb_false_iff, !Z.leb_gt in Hv.
      unfold daysIn in *.
      destruct (Month t =? 2) eqn:E2.
      - apply Z.eqb_eq in E2.
        destruct (isLeap (Year t)), (isLeap (Year t + years));
          repeat split; try reflexivity; lia.
      - destruct (_ || _); lia. }
    destruct Hfeb as (H2 & H29 & Hleap).
    assert (Hv' : validDate (Year t + years) 3 1 = true) by reflexivity.
    assert (Hn' : dayNumber c = dateToDays (Year t + years) 3 1).
    { rewrite Hn, H2, H29, !dateToDays_monthStart.
      replace (12 * (Year t + years) + 3 - 1)
        with (12 * (Year t + years) + 2 - 1 + 1) by lia.
      rewrite monthStart_succ, monthLength_daysIn by lia.
      unfold daysIn. rewrite Hleap. cbn. lia. }
    destruct (date_unique c _ _ _ Hv' Hn') as (Hy & Hmo & Hd).
    unfold monthIndex. rewrite Hy, Hmo, Hd, H2. repeat split; lia.
Qed.

(** Away from February 29, years and then months is years and months. *)
Lemma AddDate_years_months t years months :
  ~ (Month t = 2 /\ Day t = 29) ->
  AddDate (AddDate t years 0 0) 0 months 0 = AddDate t years months 0.
Proof.
  intros Hfeb. apply Time_eq. rewrite (nanos_AddDate (AddDate _ _ _ _)).
  rewrite timeOfDay_AddDate, (nanos_AddDate t).
  destruct (AddDate_years_date t years) as [(Hi & Hd) | (H2 & H29 & _)]; [ | tauto].
  rewrite Hi, Hd.
  replace (monthIndex t + 12 * years + 12 * 0 + months)
    with (monthIndex t + 12 * years + months) by lia.
  reflexivity.
Qed.

(** Twelve months on from the year cursor is no earlier than the next
    year cursor. *)
Lemma AddDate_next_year_le t years :
  nanos (AddDate t (years + 1) 0 0)
  <= nanos (AddDate (AddDate t years 0 0) 0 12 0).
Proof.
  rewrite (nanos_AddDate (AddDate _ _ _ _)), timeOfDay_AddDate, (nanos_AddDate t).
  destruct (AddDate_years_date t years) as [(Hi & Hd) | (H2 & H29 & Hi & Hd)];
    rewrite Hi, Hd.
  - replace (monthIndex t + 12 * years + 12 * 0 + 12)
      with (monthIndex t + 12 * (years + 1) + 0) by lia. lia.
  - replace (monthIndex t + 12 * years + 1 + 12 * 0 + 12)
      with (monthIndex t + 12 * (years + 1) + 0 + 1) by lia.
    rewrite monthStart_succ.
    pose proof (monthLength_bounds (monthIndex t + 12 * (years + 1) + 0)).
    rewrite nsPerDay_eq. lia.
Qed.

Lemma AddDate_months_gt t : nanos t < nanos (AddDate t 0 1 0).
Proof.
  pose proof (nanos_AddDate_months_ge t 1). rewrite nsPerDay_eq in *. lia.
Qed.

Lemma fullMonthsDiff_same t : fullMonthsDiff t t = 0.
Proof.
  apply fullMonthsDiff_unique; [lia | lia | ].
  apply AddDate_months_gt.
Qed.

Lemma fullWeeksDiff_same t : fullWeeksDiff t t = 0.
Proof. rewrite fullWeeksDiff_eq, Z.sub_diag. reflexivity. Qed.

Lemma fullDaysDiff_same t : fullDaysDiff t t = 0.
Proof. rewrite fullDaysDiff_eq, Z.sub_diag. reflexivity. Qed.

Lemma fullYearsDiff_AddDate t years : fullYearsDiff t (AddDate t years 0 0) = years.
Proof.
  apply fullYearsDiff_unique; [lia | ]. apply nanos_AddDate_lt. lia.
Qed.

Lemma fullYearsDiff_same t : fullYearsDiff t t = 0.
Proof.
  pose proof (fullYearsDiff_AddDate t 0) as H. rewrite AddDate_zero in H. assumption.
Qed.

(** *** The fields of [newDiff] *)

Lemma newDiff_Years start end_ m :
  Years (newDiff start end_ m) =
  if hasMode m ModeYears then fullYearsDiff start end_ else 0.
Proof. unfold newDiff. by_mode m; exact eq_refl. Qed.

Lemma newDiff_Months start end_ m :
  Months (newDiff start end_ m) =
  if hasMode m ModeMonths then
    if hasMode m ModeYears
    then fullMonthsDiff (afterYears start end_ m) end_
    else fullYearsDiff start end_ * monthsInYear
         + fullMonthsDiff (AddDate start (fullYearsDiff start end_) 0 0) end_
  else 0.
Proof.
  unfold afterYears, newDiff.
  by_mode m; rewrite ?AddDate_zero, ?Z.mul_0_l, ?Z.add_0_l; exact eq_refl.
Qed.

Lemma newDiff_Weeks start end_ m :
  Weeks (newDiff start end_ m) =
  if hasMode m ModeWeeks then fullWeeksDiff (afterMonths start end_ m) end_ else 0.
Proof.
  unfold afterMonths, afterYears. rewrite newDiff_Months. unfold afterYears, newDiff.
  by_mode m; rewrite ?AddDate_zero, ?Z.mul_0_l, ?Z.add_0_l; exact eq_refl.
Qed.

Lemma newDiff_Days start end_ m :
  Days (newDiff start end_ m) =
  if hasMode m ModeDays then fullDaysDiff (afterWeeks start end_ m) end_ else 0.
Proof.
  unfold afterWeeks. rewrite newDiff_Weeks.
  unfold afterMonths, afterYears. rewrite newDiff_Months. unfold afterYears, newDiff.
  by_mode m; rewrite ?AddDate_zero, ?Z.mul_0_l, ?Z.add_0_l; exact eq_refl.
Qed.

Lemma newDiff_mode start end_ m : mode (newDiff start end_ m) = m.
Proof. unfold newDiff. by_mode m; exact eq_refl. Qed.

Lemma newDiff_rawFormat start end_ m : rawFormat (newDiff start end_ m) = EmptyString.
Proof. unfold newDiff. by_mode m; exact eq_refl. Qed.

Lemma Diff_eta d :
  d = mkDiff (Years d) (Months d) (Weeks d) (Days d) (rawFormat d) (mode d).
Proof. destruct d. reflexivity. Qed.


(** *** Once the cursor is on the end date, nothing is left to count *)

Lemma weeks_days_zero start end_ m :
  afterMonths start end_ m = end_ ->
  Weeks (newDiff start end_ m) = 0 /\ Days (newDiff start end_ m) = 0.
Proof.
  intros Hc.
  assert (Hw : Weeks (newDiff start end_ m) = 0).
  { rewrite newDiff_Weeks, Hc, fullWeeksDiff_same. destruct (hasMode _ _); reflexivity. }
  split; [assumption | ].
  rewrite newDiff_Days. unfold afterWeeks. rewrite Hw, Hc.
  change (0 * daysInWeek) with 0. rewrite AddDate_zero.
  destruct (hasMode m ModeWeeks), (hasMode m ModeDays);
    rewrite ?fullDaysDiff_same; reflexivity.
Qed.

Lemma not_selected m v : ~ selected m v -> hasMode m (unitFlag v) = false.
Proof. unfold selected. apply not_true_is_false. Qed.

Lemma coarsest_flags m u :
  coarsest m u ->
  match u with
  | UnitYears => hasMode m ModeYears = true
  | UnitMonths => hasMode m ModeYears = false /\ hasMode m ModeMonths = true
  | UnitWeeks => hasMode m ModeYears = false /\ hasMode m ModeMonths = false
                 /\ hasMode m ModeWeeks = true
  | UnitDays => hasMode m ModeYears = false /\ hasMode m ModeMonths = false
                /\ hasMode m ModeWeeks = false /\ hasMode m ModeDays = true
  end.
Proof.
  intros [Hsel Hno].
  pose proof (fun v H => not_selected m v (Hno v H)) as Hf.
  destruct u; cbn in *; repeat split; try assumption;
    first [ apply (Hf UnitYears) | apply (Hf UnitMonths) | apply (Hf UnitWeeks) ];
    cbn; lia.
Qed.

(** *** Months without years *)

Lemma months_alone_eq start end_ m :
  hasMode m ModeYears = false -> hasMode m ModeMonths = true ->
  Months (newDiff start end_ m) =
  fullYearsDiff start end_ * 12
  + fullMonthsDiff (clock.AddDate start (fullYearsDiff start end_) 0 0) end_.
Proof. intros HY HM. rewrite newDiff_Months, HY, HM. reflexivity. Qed.

Lemma fullMonthsDiff_lt_12 start end_ :
  fullMonthsDiff (clock.AddDate start (fullYearsDiff start end_) 0 0) end_ < 12.
Proof.
  set (c := clock.AddDate start (fullYearsDiff start end_) 0 0).
  destruct (fullMonthsDiff_spec c end_) as (Hpos & _ & Hle).
  destruct (Z_lt_le_dec (fullMonthsDiff c end_) 12) as [ | H12]; [assumption | ].
  pose proof (fullYearsDiff_gt start end_) as Hgt.
  pose proof (AddDate_next_year_le start (fullYearsDiff start end_)) as Hnext.
  pose proof (nanos_AddDate_le c 0 12 0 (fullMonthsDiff c end_)) as Hmono.
  fold c in Hnext. lia.
Qed.

Lemma fullMonthsDiff_mono start e1 e2 :
  clock.nanos e1 <= clock.nanos e2 -> fullMonthsDiff start e1 <= fullMonthsDiff start e2.
Proof.
  intros H.
  destruct (fullMonthsDiff_spec start e1) as (_ & _ & Hle1).
  destruct (fullMonthsDiff_spec start e2) as (Hpos & Hgt2 & _).
  destruct (Z_le_gt_dec (fullMonthsDiff start e1) (fullMonthsDiff start e2)) as [ | Hgt];
    [assumption | ].
  pose proof (nanos_AddDate_le start 0 (fullMonthsDiff start e2 + 1) 0
                (fullMonthsDiff start e1)). lia.
Qed.

Lemma months_alone_mono start e1 e2 m :
  hasMode m ModeYears = false -> hasMode m ModeMonths = true ->
  clock.nanos e1 <= clock.nanos e2 ->
  Months (newDiff start e1 m) <= Months (newDiff start e2 m).
Proof.
  intros HY HM H. rewrite !months_alone_eq by assumption.
  pose proof (fullYearsDiff_mono start e1 e2 H) as Hy.
  destruct (Z.eq_dec (fullYearsDiff start e1) (fullYearsDiff start e2)) as [Heq | Hne].
  - rewrite Heq.
    pose proof (fullMonthsDiff_mono
                  (clock.AddDate start (fullYearsDiff start e2) 0 0) e1 e2 H). lia.
  - pose proof (fullMonthsDiff_lt_12 start e1) as Hlt.
    destruct (fullMonthsDiff_spec
                (clock.AddDate start (fullYearsDiff start e2) 0 0) e2) as (Hpos & _).
    lia.
Qed.

(** From a start that is not February 29, the months loop started at the
    year cursor counts the months [AddDate] itself would add. *)
Lemma months_alone_exact start n m :
  hasMode m ModeYears = false -> hasMode m ModeMonths = true ->
  ~ (clock.Month start = 2 /\ clock.Day start = 29) ->
  Months (newDiff start (clock.AddDate start 0 n 0) m) = n.
Proof.
  intros HY HM Hfeb. rewrite months_alone_eq by assumption.
  set (end_ := clock.AddDate start 0 n 0).
  set (y := fullYearsDiff start end_).
  assert (Hy : 12 * y <= n).
  { pose proof (fullYearsDiff_le start end_) as Hle. fold y in Hle.
    destruct (Z_le_gt_dec (12 * y) n) as [ | Hgt]; [assumption | ].
    pose proof (nanos_AddDate_lt start 0 n y 0) as Hlt. unfold end_ in Hle. lia. }
  rewrite (fullMonthsDiff_unique _ end_ (n - 12 * y)); [lia | lia | | ].
  - intros _. rewrite AddDate_years_months by assumption.
    apply nanos_AddDate_le. lia.
  - rewrite AddDate_years_months by assumption.
    apply nanos_AddDate_lt. lia.
Qed.


Lemma newDiff_same t m : newDiff t t m = mkDiff 0 0 0 0 EmptyString m.
Proof.
  rewrite (Diff_eta (newDiff t t m)).
  assert (HY : Years (newDiff t t m) = 0).
  { rewrite newDiff_Years, fullYearsDiff_same. destruct (hasMode _ _); reflexivity. }
  assert (Hcur : afterYears t t m = t).
  { unfold afterYears. rewrite fullYearsDiff_same, AddDate_zero.
    destruct (hasMode _ _); reflexivity. }
  assert (HM : Months (newDiff t t m) = 0).
  { rewrite newDiff_Months, Hcur, fullYearsDiff_same, AddDate_zero, fullMonthsDiff_same.
    destruct (hasMode m ModeMonths), (hasMode m ModeYears); reflexivity. }
  assert (Hcur' : afterMonths t t m = t).
  { unfold afterMonths. rewrite HM, Hcur, AddDate_zero.
    destruct (hasMode _ _); reflexivity. }
  destruct (weeks_days_zero t t m Hcur') as [HW HD].
  rewrite HY, HM, HW, HD, newDiff_mode, newDiff_rawFormat. reflexivity.
Qed.

Lemma After_irrefl t : clock.After t t = false.
Proof. apply After_le. lia. Qed.

(** *** The statements about dates, on clock readings *)

(** With Months selected and Years not, [newDiff] reports twelve times
    the whole years from start to end plus the whole months from the
    year-advanced cursor to end: the months add up over the years and are
    not a remainder below twelve. After exactly [n] years they are [12 * n]. *)
Lemma clock_months_alone_total (start end_ : clock.Time) (m : DiffMode) :
  clock.After start end_ = false ->
  hasMode m ModeMonths = true -> hasMode m ModeYears = false ->
  let years := fullYearsDiff start end_ in
  let cursor := clock.AddDate start years 0 0 in
  let months := fullMonthsDiff cursor end_ in
  Months (newDiff start end_ m) = years * 12 + months
  /\ 0 <= years
  /\ reached cursor end_ = true
  /\ reached (clock.AddDate start (years + 1) 0 0) end_ = false
  /\ 0 <= months
  /\ reached (clock.AddDate cursor 0 months 0) end_ = true
  /\ reached (clock.AddDate cursor 0 (months + 1) 0) end_ = false
  /\ (forall n, 0 <= n ->
        Months (newDiff start (clock.AddDate start n 0 0) m) = 12 * n).
Proof.
  intros Hord HM HY. cbv zeta. apply After_le in Hord.
  pose proof (fullYearsDiff_le start end_) as Hyle.
  destruct (fullMonthsDiff_spec
              (clock.AddDate start (fullYearsDiff start end_) 0 0) end_)
    as (Hm0 & Hmgt & Hmle).
  repeat split.
  - apply months_alone_eq; assumption.
  - apply fullYearsDiff_nonneg; assumption.
  - apply reached_le; assumption.
  - apply reached_gt, fullYearsDiff_gt.
  - assumption.
  - apply reached_le.
    destruct (Z.eq_dec
                (fullMonthsDiff (clock.AddDate start (fullYearsDiff start end_) 0 0) end_)
                0) as [-> | Hne].
    + rewrite AddDate_zero. assumption.
    + apply Hmle. lia.
  - apply reached_gt; assumption.
  - intros n Hn. rewrite months_alone_eq by assumption.
    rewrite fullYearsDiff_AddDate, fullMonthsDiff_same. lia.
Qed.

(** For start not after end no count of [newDiff] is negative. *)
Lemma clock_counts_nonnegative (start end_ : clock.Time) (m : DiffMode) :
  clock.After start end_ = false ->
  forall u, 0 <= count u (newDiff start end_ m).
Proof.
  intros Hord u. apply After_le in Hord.
  pose proof (fullYearsDiff_nonneg start end_ Hord) as Hy.
  destruct u; cbn [count].
  - rewrite newDiff_Years. destruct (hasMode _ _); lia.
  - rewrite newDiff_Months.
    destruct (fullMonthsDiff_spec (afterYears start end_ m) end_) as (H1 & _).
    destruct (fullMonthsDiff_spec
                (clock.AddDate start (fullYearsDiff start end_) 0 0) end_) as (H2 & _).
    unfold monthsInYear. destruct (hasMode m ModeMonths), (hasMode m ModeYears); lia.
  - rewrite newDiff_Weeks, fullWeeksDiff_eq. destruct (hasMode _ _); lia.
  - rewrite newDiff_Days, fullDaysDiff_eq. destruct (hasMode _ _); lia.
Qed.

(** With Years selected, the months [newDiff] reports are a remainder
    below twelve. *)
Lemma clock_months_below_twelve (start end_ : clock.Time) (m : DiffMode) :
  hasMode m ModeYears = true ->
  0 <= Months (newDiff start end_ m) <= 11.
Proof.
  intros HY. rewrite newDiff_Months, HY. unfold afterYears. rewrite HY.
  destruct (hasMode m ModeMonths); [ | lia].
  pose proof (fullMonthsDiff_lt_12 start end_).
  destruct (fullMonthsDiff_spec
              (clock.AddDate start (fullYearsDiff start end_) 0 0) end_) as (H0 & _).
  lia.
Qed.

(** With Weeks selected, the days [newDiff] reports are a remainder
    below seven. *)
Lemma clock_days_below_seven (start end_ : clock.Time) (m : DiffMode) :
  hasMode m ModeWeeks = true ->
  0 <= Days (newDiff start end_ m) <= 6.
Proof.
  intros HW. rewrite newDiff_Days. unfold afterWeeks.
  rewrite newDiff_Weeks, HW.
  destruct (hasMode m ModeDays); [ | lia].
  rewrite fullDaysDiff_eq, nanos_AddDate_days, fullWeeksDiff_eq.
  set (c := clock.nanos (afterMonths start end_ m)).
  unfold daysInWeek. rewrite nsPerDay_eq.
  Z.div_mod_to_equations. lia.
Qed.

(** The months block leaves less than five weeks. *)
Lemma afterMonths_gap start end_ m :
  hasMode m ModeMonths = true ->
  clock.nanos end_ - clock.nanos (afterMonths start end_ m) < 35 * clock.nsPerDay.
Proof.
  intros HM. unfold afterMonths. rewrite HM, newDiff_Months, HM.
  unfold afterYears. destruct (hasMode m ModeYears).
  - set (c := clock.AddDate start (fullYearsDiff start end_) 0 0).
    destruct (fullMonthsDiff_spec c end_) as (H0 & Hgt & _).
    rewrite nanos_AddDate in *.
    replace (monthIndex c + 12 * 0 + (fullMonthsDiff c end_ + 1))
      with (monthIndex c + 12 * 0 + fullMonthsDiff c end_ + 1) in Hgt by lia.
    rewrite monthStart_succ in Hgt.
    pose proof (monthLength_bounds (monthIndex c + 12 * 0 + fullMonthsDiff c end_)).
    rewrite nsPerDay_eq in *. lia.
  - set (y := fullYearsDiff start end_).
    set (c := clock.AddDate start y 0 0).
    destruct (fullMonthsDiff_spec c end_) as (H0 & Hgt & _).
    set (k := fullMonthsDiff c end_) in *.
    pose proof (timeOfDay_AddDate start y 0 0) as Htod. fold c in Htod.
    rewrite nanos_AddDate in *. rewrite Htod in Hgt. unfold monthsInYear.
    destruct (AddDate_years_date start y) as [(Hi & Hd) | (H2 & H29 & Hi & Hd)];
      fold c in Hi, Hd; rewrite Hi, Hd in Hgt.
    + replace (monthIndex start + 12 * y + 12 * 0 + (k + 1))
        with (monthIndex start + 12 * 0 + (y * 12 + k) + 1) in Hgt by lia.
      rewrite monthStart_succ in Hgt.
      pose proof (monthLength_bounds (monthIndex start + 12 * 0 + (y * 12 + k))).
      rewrite nsPerDay_eq in *. lia.
    + replace (monthIndex start + 12 * y + 1 + 12 * 0 + (k + 1))
        with (monthIndex start + 12 * 0 + (y * 12 + k) + 1 + 1) in Hgt by lia.
      rewrite !monthStart_succ in Hgt.
      pose proof (monthLength_bounds (monthIndex start + 12 * 0 + (y * 12 + k))).
      pose proof (monthLength_bounds (monthIndex start + 12 * 0 + (y * 12 + k) + 1)).
      rewrite nsPerDay_eq in *. lia.
Qed.

(** With Months selected, [newDiff] reports at most four weeks. *)
Lemma clock_weeks_at_most_four (start end_ : clock.Time) (m : DiffMode) :
  hasMode m ModeMonths = true ->
  0 <= Weeks (newDiff start end_ m) <= 4.
Proof.
  intros HM. rewrite newDiff_Weeks. destruct (hasMode m ModeWeeks); [ | lia].
  rewrite fullWeeksDiff_eq. pose proof (afterMonths_gap start end_ m HM) as H.
  revert H. generalize (clock.nanos (afterMonths start end_ m)) (clock.nanos end_).
  intros c e H. unfold daysInWeek. rewrite nsPerDay_eq in *.
  change (7 * 86400000000000) with 604800000000000.
  change (35 * 86400000000000) with 3024000000000000 in H.
  Z.div_mod_to_equations. lia.
Qed.

(** The cursor of [newDiff] never passes the end date. *)
Lemma afterYears_le start end_ m :
  clock.nanos start <= clock.nanos end_ ->
  clock.nanos (afterYears start end_ m) <= clock.nanos end_.
Proof.
  intros H. unfold afterYears. destruct (hasMode m ModeYears); [ | exact H].
  apply fullYearsDiff_le.
Qed.

Lemma AddDate_months_loop_le c end_ :
  clock.nanos c <= clock.nanos end_ ->
  clock.nanos (clock.AddDate c 0 (fullMonthsDiff c end_) 0) <= clock.nanos end_.
Proof.
  intros H. destruct (fullMonthsDiff_spec c end_) as (H0 & _ & Hle).
  destruct (Z.eq_dec (fullMonthsDiff c end_) 0) as [-> | Hne].
  - rewrite AddDate_zero. exact H.
  - apply Hle. lia.
Qed.

(** With all four units selected and start not after end, moving
    start on by the years, then the months, then the weeks and days that
    [newDiff] reports gives a reading that is not after end and is less
    than 24 hours before it. *)
Lemma clock_counts_lead_back_to_end (start end_ : clock.Time) (m : DiffMode) :
  clock.After start end_ = false ->
  hasMode m ModeYears = true -> hasMode m ModeMonths = true ->
  hasMode m ModeWeeks = true -> hasMode m ModeDays = true ->
  let d := newDiff start end_ m in
  let t := clock.AddDate
             (clock.AddDate (clock.AddDate start (Years d) 0 0) 0 (Months d) 0)
             0 0 (Weeks d * daysInWeek + Days d) in
  clock.nanos t <= clock.nanos end_ < clock.nanos t + clock.nsPerDay.
Proof.
  intros Hord HY HM HW HD. cbv zeta. apply After_le in Hord.
  rewrite newDiff_Days, HD. unfold afterWeeks. rewrite HW.
  rewrite newDiff_Weeks, HW. unfold afterMonths. rewrite HM.
  rewrite newDiff_Months, HM, HY. unfold afterYears. rewrite HY.
  rewrite newDiff_Years, HY.
  set (c1 := clock.AddDate start (fullYearsDiff start end_) 0 0).
  set (c2 := clock.AddDate c1 0 (fullMonthsDiff c1 end_) 0).
  assert (H1 : clock.nanos c1 <= clock.nanos end_) by apply fullYearsDiff_le.
  assert (H2 : clock.nanos c2 <= clock.nanos end_)
    by (apply AddDate_months_loop_le; exact H1).
  rewrite fullDaysDiff_eq, !nanos_AddDate_days, fullWeeksDiff_eq.
  revert H2. generalize (clock.nanos c2) (clock.nanos end_). intros n2 e H2.
  unfold daysInWeek. rewrite nsPerDay_eq.
  change (7 * 86400000000000) with 604800000000000.
  Z.div_mod_to_equations. lia.
Qed.

(** Weeks and days together count the days: seven times the weeks
    plus the days of mode Weeks|Days are the days of mode Days. *)
Lemma clock_weeks_and_days (start end_ : clock.Time) :
  let d := newDiff start end_ (Z.lor ModeWeeks ModeDays) in
  daysInWeek * Weeks d + Days d = Days (newDiff start end_ ModeDays).
Proof.
  cbv zeta. rewrite !newDiff_Days, newDiff_Weeks.
  unfold afterWeeks. rewrite newDiff_Weeks. unfold afterMonths, afterYears.
  change (hasMode (Z.lor ModeWeeks ModeDays) ModeYears) with false.
  change (hasMode (Z.lor ModeWeeks ModeDays) ModeMonths) with false.
  change (hasMode (Z.lor ModeWeeks ModeDays) ModeWeeks) with true.
  change (hasMode (Z.lor ModeWeeks ModeDays) ModeDays) with true.
  change (hasMode ModeDays ModeYears) with false.
  change (hasMode ModeDays ModeMonths) with false.
  change (hasMode ModeDays ModeWeeks) with false.
  change (hasMode ModeDays ModeDays) with true.
  cbv iota.
  rewrite !fullDaysDiff_eq, nanos_AddDate_days, fullWeeksDiff_eq.
  generalize (clock.nanos start) (clock.nanos end_). intros s e.
  unfold daysInWeek. rewrite nsPerDay_eq.
  change (7 * 86400000000000) with 604800000000000.
  Z.div_mod_to_equations. lia.
Qed.

(** [fullYearsDiff] is the one number of years [y] for which start
    moved on by [y] years is not after end and start moved on by [y + 1]
    years is, whatever the two dates are. *)
Lemma clock_fullYearsDiff_bracket (start end_ : clock.Time) :
  let years := fullYearsDiff start end_ in
  clock.After (clock.AddDate start years 0 0) end_ = false
  /\ clock.After (clock.AddDate start (years + 1) 0 0) end_ = true
  /\ forall y,
       clock.After (clock.AddDate start y 0 0) end_ = false ->
       clock.After (clock.AddDate start (y + 1) 0 0) end_ = true ->
       y = years.
Proof.
  cbv zeta. repeat apply conj.
  - apply After_le, fullYearsDiff_le.
  - apply After_gt, fullYearsDiff_gt.
  - intros y H1 H2. apply After_le in H1. apply After_gt in H2.
    symmetry. apply fullYearsDiff_unique; assumption.
Qed.

(** For start not after end, [fullMonthsDiff] is the one number of
    months [m >= 0] for which start moved on by [m] months is not after end
    and start moved on by [m + 1] months is. *)
Lemma clock_fullMonthsDiff_bracket (start end_ : clock.Time) :
  clock.After start end_ = false ->
  let months := fullMonthsDiff start end_ in
  0 <= months
  /\ clock.After (clock.AddDate start 0 months 0) end_ = false
  /\ clock.After (clock.AddDate start 0 (months + 1) 0) end_ = true
  /\ forall m,
       0 <= m ->
       clock.After (clock.AddDate start 0 m 0) end_ = false ->
       clock.After (clock.AddDate start 0 (m + 1) 0) end_ = true ->
       m = months.
Proof.
  intros Hord. cbv zeta. apply After_le in Hord.
  destruct (fullMonthsDiff_spec start end_) as (H0 & Hgt & Hle).
  repeat apply conj.
  - exact H0.
  - apply After_le.
    destruct (Z.eq_dec (fullMonthsDiff start end_) 0) as [-> | Hne].
    + rewrite AddDate_zero. exact Hord.
    + apply Hle. lia.
  - apply After_gt. exact Hgt.
  - intros m Hm H1 H2. apply After_le in H1. apply After_gt in H2.
    symmetry. apply fullMonthsDiff_unique; auto.
Qed.

(** A month count is 0 when start is after end. *)
Lemma clock_fullMonthsDiff_after (start end_ : clock.Time) :
  clock.After start end_ = true -> fullMonthsDiff start end_ = 0.
Proof.
  intros H. apply After_gt in H. apply fullMonthsDiff_unique; [lia | lia | ].
  change (0 + 1) with 1. pose proof (AddDate_months_gt start). lia.
Qed.

(** *** A block whose count is 0 leaves the cursor where it is *)

Lemma afterYears_stay start end_ m :
  (hasMode m ModeYears = true -> Years (newDiff start end_ m) = 0) ->
  afterYears start end_ m = start.
Proof.
  intros H. unfold afterYears. destruct (hasMode m ModeYears) eqn:E; [ | reflexivity].
  specialize (H eq_refl). rewrite newDiff_Years, E in H. rewrite H. apply AddDate_zero.
Qed.

Lemma afterMonths_stay start end_ m :
  (hasMode m ModeYears = true -> Years (newDiff start end_ m) = 0) ->
  (hasMode m ModeMonths = true -> Months (newDiff start end_ m) = 0) ->
  afterMonths start end_ m = start.
Proof.
  intros HY HM. unfold afterMonths. rewrite (afterYears_stay _ _ _ HY).
  destruct (hasMode m ModeMonths); [ | reflexivity].
  rewrite (HM eq_refl). apply AddDate_zero.
Qed.

Lemma afterWeeks_stay start end_ m :
  (hasMode m ModeYears = true -> Years (newDiff start end_ m) = 0) ->
  (hasMode m ModeMonths = true -> Months (newDiff start end_ m) = 0) ->
  (hasMode m ModeWeeks = true -> Weeks (newDiff start end_ m) = 0) ->
  afterWeeks start end_ m = start.
Proof.
  intros HY HM HW. unfold afterWeeks. rewrite (afterMonths_stay _ _ _ HY HM).
  destruct (hasMode m ModeWeeks); [ | reflexivity].
  rewrite (HW eq_refl). apply AddDate_zero.
Qed.

Lemma fullMonthsDiff_AddDate t n : 0 <= n -> fullMonthsDiff t (AddDate t 0 n 0) = n.
Proof.
  intros Hn. apply fullMonthsDiff_unique; [lia | lia | ].
  apply nanos_AddDate_lt. lia.
Qed.

(** When end is start advanced by [n] whole units of a selected unit and
    no coarser selected unit has a count, that unit counts [n] and every
    finer unit counts 0. For months without years the start must not be
    February 29. *)
Lemma clock_boundary_inclusive (m : DiffMode) (u : timeUnit)
    (start : clock.Time) (n : Z) :
  selected m u -> 0 <= n ->
  let d := newDiff start (advance u start n) m in
  (forall v, unitRank v < unitRank u -> selected m v -> count v d = 0) ->
  (u = UnitMonths -> hasMode m ModeYears = false ->
   ~ (clock.Month start = 2 /\ clock.Day start = 29)) ->
  count u d = n /\ forall v, unitRank u < unitRank v -> count v d = 0.
Proof.
  intros Hsel Hn. cbv zeta. intros Hzero Hfeb. unfold selected in *.
  assert (HzY : unitRank UnitYears < unitRank u -> hasMode m ModeYears = true ->
                Years (newDiff start (advance u start n) m) = 0).
  { intros Hr Hs. exact (Hzero UnitYears Hr Hs). }
  assert (HzM : unitRank UnitMonths < unitRank u -> hasMode m ModeMonths = true ->
                Months (newDiff start (advance u start n) m) = 0).
  { intros Hr Hs. exact (Hzero UnitMonths Hr Hs). }
  assert (HzW : unitRank UnitWeeks < unitRank u -> hasMode m ModeWeeks = true ->
                Weeks (newDiff start (advance u start n) m) = 0).
  { intros Hr Hs. exact (Hzero UnitWeeks Hr Hs). }
  clear Hzero.
  destruct u; cbn [advance count unitRank unitFlag] in *.
  - (* years *)
    set (end_ := AddDate start n 0 0).
    assert (HY : Years (newDiff start end_ m) = n).
    { rewrite newDiff_Years, Hsel. apply fullYearsDiff_AddDate. }
    assert (Hcur : afterYears start end_ m = end_).
    { unfold afterYears. rewrite Hsel. unfold end_.
      rewrite fullYearsDiff_AddDate. reflexivity. }
    assert (HM : Months (newDiff start end_ m) = 0).
    { rewrite newDiff_Months, Hsel, Hcur, fullMonthsDiff_same.
      destruct (hasMode m ModeMonths); reflexivity. }
    assert (Hcur' : afterMonths start end_ m = end_).
    { unfold afterMonths. rewrite HM, Hcur, AddDate_zero.
      destruct (hasMode m ModeMonths); reflexivity. }
    destruct (weeks_days_zero start end_ m Hcur') as [HW HD].
    split; [assumption | ].
    intros v Hv. destruct v; cbn [unitRank count] in *; solve [lia | assumption].
  - (* months *)
    set (end_ := AddDate start 0 n 0) in *.
    assert (Hmon : Months (newDiff start end_ m) = n
                   /\ afterMonths start end_ m = end_).
    { destruct (hasMode m ModeYears) eqn:HY.
      - assert (Hcur : afterYears start end_ m = start).
        { apply afterYears_stay. intros _. apply HzY; [lia | reflexivity]. }
        assert (Hmon : Months (newDiff start end_ m) = n).
        { rewrite newDiff_Months, Hsel, HY, Hcur. apply fullMonthsDiff_AddDate, Hn. }
        split; [exact Hmon | ]. unfold afterMonths. rewrite Hsel, Hmon, Hcur. reflexivity.
      - assert (Hmon : Months (newDiff start end_ m) = n).
        { apply months_alone_exact; auto. }
        split; [exact Hmon | ].
        unfold afterMonths, afterYears. rewrite Hmon, HY, Hsel. reflexivity. }
    destruct Hmon as [Hmon Hcur'].
    destruct (weeks_days_zero start end_ m Hcur') as [HW HD].
    split; [assumption | ].
    intros v Hv. destruct v; cbn [unitRank count] in *; solve [lia | assumption].
  - (* weeks *)
    set (end_ := AddDate start 0 0 (n * daysInWeek)) in *.
    assert (Hcur : afterMonths start end_ m = start).
    { apply afterMonths_stay; intros H; [apply HzY | apply HzM]; first [lia | exact H]. }
    assert (Hweeks : Weeks (newDiff start end_ m) = n).
    { rewrite newDiff_Weeks, Hsel, Hcur, fullWeeksDiff_eq. unfold end_.
      rewrite nanos_AddDate_days. generalize (nanos start). intros s.
      unfold daysInWeek. rewrite nsPerDay_eq.
      change (7 * 86400000000000) with 604800000000000.
      Z.div_mod_to_equations. lia. }
    split; [assumption | ].
    intros v Hv. destruct v; cbn [unitRank count] in *; try lia.
    rewrite newDiff_Days. unfold afterWeeks. rewrite Hsel, Hweeks, Hcur.
    fold end_. rewrite fullDaysDiff_same. destruct (hasMode m ModeDays); reflexivity.
  - (* days *)
    split; [ | intros v Hv; destruct v; cbn [unitRank count] in *; lia].
    rewrite newDiff_Days, Hsel.
    rewrite afterWeeks_stay
      by (intros H; first [apply HzY | apply HzM | apply HzW]; first [lia | exact H]).
    rewrite fullDaysDiff_eq, nanos_AddDate_days, nsPerDay_eq.
    Z.div_mod_to_equations. lia.
Qed.

(** *** The cursor is start moved on by the counts of the coarser units *)

Lemma afterYears_count start end_ m :
  afterYears start end_ m =
  if hasMode m ModeYears
  then AddDate start (Years (newDiff start end_ m)) 0 0 else start.
Proof.
  unfold afterYears. rewrite newDiff_Years.
  destruct (hasMode m ModeYears); reflexivity.
Qed.

Lemma afterYears_same start e1 e2 m :
  (hasMode m ModeYears = true ->
   Years (newDiff start e1 m) = Years (newDiff start e2 m)) ->
  afterYears start e1 m = afterYears start e2 m.
Proof.
  intros H. rewrite !afterYears_count.
  destruct (hasMode m ModeYears); [rewrite (H eq_refl) | ]; reflexivity.
Qed.

Lemma afterMonths_same start e1 e2 m :
  (hasMode m ModeYears = true ->
   Years (newDiff start e1 m) = Years (newDiff start e2 m)) ->
  (hasMode m ModeMonths = true ->
   Months (newDiff start e1 m) = Months (newDiff start e2 m)) ->
  afterMonths start e1 m = afterMonths start e2 m.
Proof.
  intros HY HM. unfold afterMonths. rewrite (afterYears_same _ _ _ _ HY).
  destruct (hasMode m ModeMonths); [rewrite (HM eq_refl) | ]; reflexivity.
Qed.

Lemma afterWeeks_same start e1 e2 m :
  (hasMode m ModeYears = true ->
   Years (newDiff start e1 m) = Years (newDiff start e2 m)) ->
  (hasMode m ModeMonths = true ->
   Months (newDiff start e1 m) = Months (newDiff start e2 m)) ->
  (hasMode m ModeWeeks = true ->
   Weeks (newDiff start e1 m) = Weeks (newDiff start e2 m)) ->
  afterWeeks start e1 m = afterWeeks start e2 m.
Proof.
  intros HY HM HW. unfold afterWeeks. rewrite (afterMonths_same _ _ _ _ HY HM).
  destruct (hasMode m ModeWeeks); [rewrite (HW eq_refl) | ]; reflexivity.
Qed.

(** The count of a unit never decreases when the end moves forward, as
    long as the coarser selected units count the same for both ends. *)
Lemma clock_count_monotone (m : DiffMode) (u : timeUnit)
    (start e1 e2 : clock.Time) :
  clock.After e1 e2 = false ->
  (forall v, unitRank v < unitRank u -> selected m v ->
             count v (newDiff start e1 m) = count v (newDiff start e2 m)) ->
  count u (newDiff start e1 m) <= count u (newDiff start e2 m).
Proof.
  intros H12 Hsame. apply After_le in H12. unfold selected in Hsame.
  assert (HsY : unitRank UnitYears < unitRank u -> hasMode m ModeYears = true ->
                Years (newDiff start e1 m) = Years (newDiff start e2 m)).
  { intros Hr Hs. exact (Hsame UnitYears Hr Hs). }
  assert (HsM : unitRank UnitMonths < unitRank u -> hasMode m ModeMonths = true ->
                Months (newDiff start e1 m) = Months (newDiff start e2 m)).
  { intros Hr Hs. exact (Hsame UnitMonths Hr Hs). }
  assert (HsW : unitRank UnitWeeks < unitRank u -> hasMode m ModeWeeks = true ->
                Weeks (newDiff start e1 m) = Weeks (newDiff start e2 m)).
  { intros Hr Hs. exact (Hsame UnitWeeks Hr Hs). }
  clear Hsame.
  destruct u; cbn [count unitRank] in *.
  - rewrite !newDiff_Years. destruct (hasMode m ModeYears); [ | lia].
    apply fullYearsDiff_mono, H12.
  - destruct (hasMode m ModeMonths) eqn:HM;
      [ | rewrite !newDiff_Months, HM; lia].
    destruct (hasMode m ModeYears) eqn:HY.
    + rewrite !newDiff_Months, HM, HY.
      rewrite (afterYears_same start e1 e2 m) by (intros _; apply HsY; [lia | reflexivity]).
      apply fullMonthsDiff_mono, H12.
    + apply months_alone_mono; assumption.
  - rewrite !newDiff_Weeks. destruct (hasMode m ModeWeeks); [ | lia].
    rewrite (afterMonths_same start e1 e2 m)
      by (intros H; first [apply HsY | apply HsM]; first [lia | exact H]).
    rewrite !fullWeeksDiff_eq.
    apply Z.max_le_compat_l, Z.div_le_mono; [reflexivity | lia].
  - rewrite !newDiff_Days. destruct (hasMode m ModeDays); [ | lia].
    rewrite (afterWeeks_same start e1 e2 m)
      by (intros H; first [apply HsY | apply HsM | apply HsW]; first [lia | exact H]).
    rewrite !fullDaysDiff_eq.
    apply Z.max_le_compat_l, Z.div_le_mono; [reflexivity | lia].
Qed.


End DiffFacts.


(* ================================================================== *)
(** ** The format parser *)
(* ================================================================== *)

Module UnmarshalFacts.

Local Open Scope bool_scope.

Lemma verbMode_letters c : verbMode c <> None <-> In c verbLetters.
Proof.
  split.
  - intros H. unfold verbLetters.
    destruct c as [[] [] [] [] [] [] [] []]; cbn in H; try congruence;
      cbn; tauto.
  - intros H. cbn in H. repeat (destruct H as [<- | H]; [discriminate | ]).
    contradiction.
Qed.

Lemma verbMode_None c : verbMode c = None <-> ~ In c verbLetters.
Proof.
  rewrite <- verbMode_letters. destruct (verbMode c); split; intros H.
  - discriminate H.
  - exfalso. apply H. discriminate.
  - intros H'. apply H'. reflexivity.
  - reflexivity.
Qed.

Lemma verbMode_Some c flag : verbMode c = Some flag -> In c verbLetters.
Proof. intros H. apply verbMode_letters. congruence. Qed.

Lemma percent_not_letter : ~ In "%"%char verbLetters.
Proof. cbn. intuition discriminate. Qed.

Lemma unknownVerbAt_S c rest i c' :
  unknownVerbAt (String c rest) (S i) c' <-> unknownVerbAt rest i c'.
Proof. reflexivity. Qed.

Lemma verbAt_S c rest i c' : verbAt (String c rest) (S i) c' <-> verbAt rest i c'.
Proof. reflexivity. Qed.

Lemma unknownVerbAt_0 c rest c' :
  unknownVerbAt (String c rest) 0 c' <->
  c = "%"%char /\ String.get 0 rest = Some c' /\ ~ In c' verbLetters.
Proof.
  unfold unknownVerbAt. cbn. split.
  - intros (H & H1 & H2). injection H as ->. tauto.
  - intros (-> & H1 & H2). tauto.
Qed.

Lemma noUnknownVerb_cons c rest :
  noUnknownVerb rest ->
  (c = "%"%char -> forall c', String.get 0 rest = Some c' -> In c' verbLetters) ->
  noUnknownVerb (String c rest).
Proof.
  intros Hrest Hhead [ | i] c' H.
  - apply unknownVerbAt_0 in H as (Hc & Hget & Hno). apply Hno, (Hhead Hc _ Hget).
  - apply (Hrest i c'), H.
Qed.

Lemma firstUnknownVerb_cons c rest c' :
  firstUnknownVerb rest c' ->
  (c = "%"%char -> forall v, String.get 0 rest = Some v -> In v verbLetters) ->
  firstUnknownVerb (String c rest) c'.
Proof.
  intros (i & Hi & Hfirst) Hhead. exists (S i). split; [exact Hi | ].
  intros [ | j] c'' Hj H.
  - apply unknownVerbAt_0 in H as (Hc & Hget & Hno). apply Hno, (Hhead Hc _ Hget).
  - apply (Hfirst j c''); [lia | exact H].
Qed.

Lemma lastChar_cons c rest :
  lastChar (String c rest) = match rest with EmptyString => Some c | _ => lastChar rest end.
Proof. destruct rest; reflexivity. Qed.

Lemma prefix_pair s a b :
  prefix (String a (String b EmptyString)) s = true
  <-> String.get 0 s = Some a /\ String.get 1 s = Some b.
Proof.
  destruct s as [ | c [ | c2 s]]; cbn.
  - split; [intros H; discriminate H | intros [H _]; discriminate H].
  - destruct (ascii_dec a c); split; intros H;
      solve [discriminate H | destruct H as [_ H]; discriminate H].
  - destruct (ascii_dec a c) as [-> | Ha], (ascii_dec b c2) as [-> | Hb];
      split; intros H; try discriminate H; try (split; reflexivity);
      destruct s; try reflexivity; destruct H as [H1 H2]; congruence.
Qed.

(** [Contains] of a two-character string, by positions. *)
Lemma Contains_pair s a b :
  strings.Contains s (String a (String b EmptyString)) = true
  <-> exists i, String.get i s = Some a /\ String.get (S i) s = Some b.
Proof.
  induction s as [ | c s IH].
  - cbn. split; [intros H; discriminate H | intros (i & H & _); destruct i; discriminate H].
  - cbn [strings.Contains]. rewrite orb_true_iff, IH, prefix_pair. split.
    + intros [H | (i & H)]; [exists 0%nat; exact H | exists (S i); exact H].
    + intros ([ | i] & H); [left; exact H | right; exists i; exact H].
Qed.

Lemma Contains_cons_other c s a b :
  c <> a ->
  strings.Contains (String c s) (String a (String b EmptyString)) =
  strings.Contains s (String a (String b EmptyString)).
Proof.
  intros H. cbn [strings.Contains]. cbn [prefix].
  destruct (ascii_dec a c); [congruence | reflexivity].
Qed.

Lemma Contains_percent_cons v s b :
  strings.Contains (String "%" (String v s)) (String "%" (String b EmptyString)) =
  Ascii.eqb b v || strings.Contains (String v s) (String "%" (String b EmptyString)).
Proof.
  cbn [strings.Contains]. f_equal. cbn [prefix].
  destruct (ascii_dec "%" "%") as [_ | Hne]; [ | congruence].
  destruct (ascii_dec b v) as [-> | Hne].
  - rewrite Ascii.eqb_refl. destruct s; reflexivity.
  - symmetry. apply Ascii.eqb_neq. assumption.
Qed.

Lemma unitsFound_cons_other c s : c <> "%"%char -> unitsFound (String c s) = unitsFound s.
Proof.
  intros H. unfold unitsFound. rewrite !Contains_cons_other by assumption. reflexivity.
Qed.

Lemma unitsFound_empty : unitsFound EmptyString = 0.
Proof. reflexivity. Qed.

Lemma unitsFound_verb v s flag :
  verbMode v = Some flag ->
  unitsFound (String "%" (String v s)) = Z.lor flag (unitsFound (String v s)).
Proof.
  intros H. unfold unitsFound. rewrite !Contains_percent_cons.
  generalize (strings.Contains (String v s) "%Y") (strings.Contains (String v s) "%y")
             (strings.Contains (String v s) "%M") (strings.Contains (String v s) "%m")
             (strings.Contains (String v s) "%W") (strings.Contains (String v s) "%w")
             (strings.Contains (String v s) "%D") (strings.Contains (String v s) "%d").
  intros bY by_ bM bm bW bw bD bd.
  destruct v as [[] [] [] [] [] [] [] []]; cbn in H; try discriminate;
    injection H as <-; cbn [Ascii.eqb Bool.eqb andb orb];
    destruct bY, by_, bM, bm, bW, bw, bD, bd; reflexivity.
Qed.

(** What each outcome of the scan says about the part of the string still
    to be read. *)
Lemma unmarshal_from_spec raw : forall rest mode,
  match unmarshal_from raw rest mode with
  | Ok m =>
      noUnknownVerb rest /\ lastChar rest <> Some "%"%char
      /\ m = Z.lor mode (unitsFound rest) /\ m <> 0
  | Err (errUnknownVerb f c) => f = raw /\ firstUnknownVerb rest c
  | Err errUndefinedDiffMode =>
      noUnknownVerb rest /\ lastChar rest <> Some "%"%char
      /\ Z.lor mode (unitsFound rest) = 0
  | Err errStartIsAfterEnd => False
  | Panic i n =>
      i = String.length raw /\ n = String.length raw
      /\ noUnknownVerb rest /\ lastChar rest = Some "%"%char
  end.
Proof.
  induction rest as [ | c rest IH]; intros mode.
  - cbn [unmarshal_from].
    assert (Hno : noUnknownVerb EmptyString).
    { intros i c (H & _). destruct i; discriminate H. }
    destruct (mode =? 0) eqn:E.
    + apply Z.eqb_eq in E. subst mode. repeat split; [exact Hno | discriminate].
    + apply Z.eqb_neq in E. rewrite unitsFound_empty, Z.lor_0_r.
      repeat split; [exact Hno | discriminate | exact E].
  - cbn [unmarshal_from]. destruct (Ascii.eqb c "%") eqn:Ec.
    + apply Ascii.eqb_eq in Ec. subst c.
      destruct rest as [ | v rest'].
      * repeat split.
        intros i c (H0 & H1 & _). destruct i as [ | [ | i]]; discriminate H1.
      * destruct (verbMode v) as [flag | ] eqn:Ev.
        -- assert (Hhead : forall c', String.get 0 (String v rest') = Some c' ->
                                      In c' verbLetters).
           { intros c' H. cbn in H. injection H as <-. exact (verbMode_Some _ _ Ev). }
           specialize (IH (Z.lor mode flag)).
           rewrite (unitsFound_verb _ _ _ Ev), Z.lor_assoc.
           rewrite lastChar_cons.
           destruct (unmarshal_from raw (String v rest') (Z.lor mode flag))
             as [m | [ | | f c] | i n].
           ++ destruct IH as (H1 & H2 & H3 & H4).
              repeat split; try assumption. apply noUnknownVerb_cons; auto.
           ++ exact IH.
           ++ destruct IH as (H1 & H2 & H3).
              repeat split; try assumption. apply noUnknownVerb_cons; auto.
           ++ destruct IH as [H1 H2]. split; [exact H1 | ].
              apply firstUnknownVerb_cons; auto.
           ++ destruct IH as (H1 & H2 & H3 & H4).
              repeat split; try assumption. apply noUnknownVerb_cons; auto.
        -- split; [reflexivity | ]. exists 0%nat. split.
           ++ apply unknownVerbAt_0. repeat split. apply verbMode_None, Ev.
           ++ intros j c' Hj. lia.
    + apply Ascii.eqb_neq in Ec.
      specialize (IH mode). rewrite (unitsFound_cons_other _ _ Ec), lastChar_cons.
      assert (Hlast : lastChar rest <> Some "%"%char ->
                      match rest with
                      | EmptyString => Some c
                      | String _ _ => lastChar rest
                      end <> Some "%"%char).
      { destruct rest; [intros _ H; injection H as H; contradiction | auto]. }
      destruct (unmarshal_from raw rest mode) as [m | [ | | f c'] | i n].
      * destruct IH as (H1 & H2 & H3 & H4).
        repeat split; auto. apply noUnknownVerb_cons; [assumption | contradiction].
      * exact IH.
      * destruct IH as (H1 & H2 & H3).
        repeat split; auto. apply noUnknownVerb_cons; [assumption | contradiction].
      * destruct IH as [H1 H2]. split; [exact H1 | ].
        apply firstUnknownVerb_cons; [assumption | contradiction].
      * destruct IH as (H1 & H2 & H3 & H4).
        repeat split; auto; [apply noUnknownVerb_cons; [assumption | contradiction] | ].
        destruct rest; [discriminate H4 | exact H4].
Qed.

Lemma unitsFound_verbAt s : unitsFound s <> 0 <-> exists i c, verbAt s i c.
Proof.
  assert (Hc : forall b, In b verbLetters ->
                 (strings.Contains s (String "%" (String b EmptyString)) = true
                  <-> exists i, verbAt s i b)).
  { intros b Hb. rewrite Contains_pair. unfold verbAt.
    split; intros (i & H0 & H1); exists i; tauto. }
  split.
  - intros H. unfold unitsFound in H.
    assert (Hex : exists b, In b verbLetters /\
              strings.Contains s (String "%" (String b EmptyString)) = true).
    { destruct (strings.Contains s "%Y") eqn:E1; [exists "Y"%char; cbn; tauto | ].
      destruct (strings.Contains s "%y") eqn:E2; [exists "y"%char; cbn; tauto | ].
      destruct (strings.Contains s "%M") eqn:E3; [exists "M"%char; cbn; tauto | ].
      destruct (strings.Contains s "%m") eqn:E4; [exists "m"%char; cbn; tauto | ].
      destruct (strings.Contains s "%W") eqn:E5; [exists "W"%char; cbn; tauto | ].
      destruct (strings.Contains s "%w") eqn:E6; [exists "w"%char; cbn; tauto | ].
      destruct (strings.Contains s "%D") eqn:E7; [exists "D"%char; cbn; tauto | ].
      destruct (strings.Contains s "%d") eqn:E8; [exists "d"%char; cbn; tauto | ].
      exfalso. apply H. reflexivity. }
    destruct Hex as (b & Hb & Hcont). apply (Hc b Hb) in Hcont as [i Hi].
    exists i, b. exact Hi.
  - intros (i & c & Hv). pose proof Hv as (_ & _ & Hin).
    assert (Hcont : strings.Contains s (String "%" (String c EmptyString)) = true).
    { apply (Hc c Hin). exists i. exact Hv. }
    unfold unitsFound. cbn in Hin.
    repeat (destruct Hin as [<- | Hin];
            [rewrite Hcont;
             repeat match goal with
                    | |- context [strings.Contains s ?p] =>
                        destruct (strings.Contains s p)
                    end; cbn; discriminate | ]).
    contradiction.
Qed.

Lemma firstUnknownVerb_unique s c c' :
  firstUnknownVerb s c -> firstUnknownVerb s c' -> c = c'.
Proof.
  intros (i & Hi & Hfi) (j & Hj & Hfj).
  destruct (Nat.lt_trichotomy i j) as [Hlt | [Heq | Hlt]].
  - exfalso. apply (Hfj i c Hlt Hi).
  - subst j. destruct Hi as (_ & Hi & _), Hj as (_ & Hj & _). congruence.
  - exfalso. apply (Hfi j c' Hlt Hj).
Qed.

Lemma unmarshal_spec s :
  match unmarshal s with
  | Ok m =>
      noUnknownVerb s /\ lastChar s <> Some "%"%char /\ m = unitsFound s /\ m <> 0
  | Err (errUnknownVerb f c) => f = s /\ firstUnknownVerb s c
  | Err errUndefinedDiffMode =>
      noUnknownVerb s /\ lastChar s <> Some "%"%char /\ unitsFound s = 0
  | Err errStartIsAfterEnd => False
  | Panic i n =>
      i = String.length s /\ n = String.length s
      /\ noUnknownVerb s /\ lastChar s = Some "%"%char
  end.
Proof. exact (unmarshal_from_spec s s 0). Qed.

Lemma unmarshal_not_after s : unmarshal s <> Err errStartIsAfterEnd.
Proof. intros H. pose proof (unmarshal_spec s) as Hs. rewrite H in Hs. exact Hs. Qed.

Lemma unmarshal_Ok_nonzero s m : unmarshal s = Ok m -> m <> 0.
Proof. intros H. pose proof (unmarshal_spec s) as Hs. rewrite H in Hs. tauto. Qed.

End UnmarshalFacts.


(* ================================================================== *)
(** ** Rendering *)
(* ================================================================== *)

Module RenderFacts.

Import UnmarshalFacts.

Local Open Scope bool_scope.

(** Induction over a token list two tokens at a time. *)
Lemma token_pair_ind (P : list token -> Prop) :
  P [] -> (forall t, P [t]) ->
  (forall t u rest, P rest -> P (u :: rest) -> P (t :: u :: rest)) ->
  forall toks, P toks.
Proof.
  intros H0 H1 H2 toks.
  assert (H : P toks /\ forall t, P (t :: toks)); [ | tauto].
  induction toks as [ | u rest [IH IH']]; [split; auto | ].
  split; [apply IH' | ]. intros t. apply H2; [exact IH | apply IH'].
Qed.

Lemma flat_app a b : flat (a ++ b) = (flat a ++ flat b)%string.
Proof.
  induction a as [ | [c | v] a IH]; cbn; [reflexivity | | ]; rewrite IH; reflexivity.
Qed.

Lemma flat_lits s : flat (lits s) = s.
Proof. induction s as [ | c s IH]; cbn; [ | rewrite IH]; reflexivity. Qed.

Lemma prefix_empty s : prefix EmptyString s = true.
Proof. destruct s; reflexivity. Qed.

Lemma letter_not_percent v : In v verbLetters -> v <> "%"%char.
Proof. intros H ->. exact (percent_not_letter H). Qed.

Lemma letter_not_space v : In v verbLetters -> v <> " "%char.
Proof. intros H ->. cbn in H. intuition discriminate. Qed.

Lemma wellFormed_cons t toks :
  wellFormed (t :: toks) <->
  match t with Lit c => c <> "%"%char | Verb v => In v verbLetters end
  /\ wellFormed toks.
Proof. unfold wellFormed. split; [intros H; inversion H; tauto | intros [H1 H2]; constructor; assumption]. Qed.

Lemma wellFormed_app a b : wellFormed a -> wellFormed b -> wellFormed (a ++ b).
Proof. unfold wellFormed. intros Ha Hb. apply Forall_app. tauto. Qed.

(** *** [pass], one token at a time *)

Lemma pass_verb act v rest :
  pass act (Verb v :: rest) =
  match act v with
  | Keep => Verb v :: pass act rest
  | Drop => pass act rest
  | Put text => lits text ++ pass act rest
  end.
Proof. reflexivity. Qed.

Lemma pass_lit_verb act c v rest :
  pass act (Lit c :: Verb v :: rest) =
  if Ascii.eqb c " " && isDrop (act v) then pass act rest
  else Lit c :: pass act (Verb v :: rest).
Proof. reflexivity. Qed.

Lemma pass_lit_lit act c c' rest :
  pass act (Lit c :: Lit c' :: rest) = Lit c :: pass act (Lit c' :: rest).
Proof. reflexivity. Qed.

Lemma pass_nonspace act c rest :
  c <> " "%char -> pass act (Lit c :: rest) = Lit c :: pass act rest.
Proof.
  intros H. destruct rest as [ | [c' | v] rest]; try reflexivity.
  rewrite pass_lit_verb. apply Ascii.eqb_neq in H. rewrite H. reflexivity.
Qed.

Lemma pass_lit_nodrop act c rest :
  (forall v, act v <> Drop) -> pass act (Lit c :: rest) = Lit c :: pass act rest.
Proof.
  intros H. destruct rest as [ | [c' | v] rest]; try reflexivity.
  rewrite pass_lit_verb. specialize (H v). destruct (act v); try contradiction;
    rewrite andb_false_r; reflexivity.
Qed.

Lemma pass_keep toks : pass (fun _ => Keep) toks = toks.
Proof.
  induction toks as [ | [c | v] rest IH].
  - reflexivity.
  - rewrite pass_lit_nodrop by discriminate. rewrite IH. reflexivity.
  - rewrite pass_verb, IH. reflexivity.
Qed.

Lemma pass_ext a a' toks :
  (forall v, In (Verb v) toks -> a v = a' v) -> pass a toks = pass a' toks.
Proof.
  induction toks as [ | | t u rest IH IH'] using token_pair_ind; intros H.
  - reflexivity.
  - destruct t as [c | v]; [reflexivity | ].
    rewrite !pass_verb, (H v) by (left; reflexivity). reflexivity.
  - assert (Hrest : pass a rest = pass a' rest).
    { apply IH. intros v Hv. apply H. right. right. exact Hv. }
    assert (Hu : pass a (u :: rest) = pass a' (u :: rest)).
    { apply IH'. intros v Hv. apply H. right. exact Hv. }
    destruct t as [c | v].
    + destruct u as [c' | w].
      * rewrite !pass_lit_lit, Hu. reflexivity.
      * rewrite !pass_lit_verb, Hu, Hrest, (H w) by (right; left; reflexivity).
        reflexivity.
    + rewrite !pass_verb, Hu, (H v) by (left; reflexivity). reflexivity.
Qed.

Lemma pass_lits_nonspace act s rest :
  lastChar s <> Some " "%char ->
  pass act (lits s ++ rest) = lits s ++ pass act rest.
Proof.
  induction s as [ | c s IH]; intros H; [reflexivity | ].
  rewrite lastChar_cons in H. cbn [lits app].
  destruct s as [ | c' s].
  - cbn [lits app]. apply pass_nonspace. congruence.
  - cbn [lits app] in *. rewrite pass_lit_lit, IH by exact H. reflexivity.
Qed.

Lemma pass_space_lits act s rest :
  s <> EmptyString -> pass act (Lit " " :: lits s ++ rest) = Lit " " :: pass act (lits s ++ rest).
Proof. intros H. destruct s as [ | c s]; [contradiction | reflexivity]. Qed.

Lemma pass_good act text rest :
  goodText text -> pass act (lits text ++ rest) = lits text ++ pass act rest.
Proof. intros [_ H]. apply pass_lits_nonspace, H. Qed.

Lemma noDoubleSpace_tail c s : noDoubleSpace (String c s) -> noDoubleSpace s.
Proof.
  unfold noDoubleSpace. cbn [strings.Contains]. intros H.
  apply orb_false_iff in H. tauto.
Qed.

Lemma noDoubleSpace_flat_tail t toks :
  noDoubleSpace (flat (t :: toks)) -> noDoubleSpace (flat toks).
Proof.
  destruct t as [c | v]; cbn [flat]; intros H.
  - exact (noDoubleSpace_tail _ _ H).
  - exact (noDoubleSpace_tail _ _ (noDoubleSpace_tail _ _ H)).
Qed.

Lemma noDoubleSpace_head c s :
  noDoubleSpace (String " " (String c s)) -> c <> " "%char.
Proof.
  unfold noDoubleSpace. cbn [strings.Contains]. intros H Hc. subst c.
  apply orb_false_iff in H as [H _]. cbn in H. rewrite prefix_empty in H.
  discriminate H.
Qed.

Lemma andThen_drop a1 a2 v : a1 v = Drop -> andThen a1 a2 v = Drop.
Proof. unfold andThen. intros ->. reflexivity. Qed.

Lemma andThen_put a1 a2 v text : a1 v = Put text -> andThen a1 a2 v = Put text.
Proof. unfold andThen. intros ->. reflexivity. Qed.

Lemma andThen_keep a1 a2 v : a1 v = Keep -> andThen a1 a2 v = a2 v.
Proof. unfold andThen. intros ->. reflexivity. Qed.

(** Running [a2] over the result of [a1] is one pass with both, when the
    format has no two spaces in a row or [a2] drops nothing. *)
Lemma pass_pass a1 a2 toks :
  goodTexts a1 ->
  noDoubleSpace (flat toks) \/ (forall v, a2 v <> Drop) ->
  pass a2 (pass a1 toks) = pass (andThen a1 a2) toks.
Proof.
  intros Hgood.
  induction toks as [ | | t u rest IH IH'] using token_pair_ind; intros Hnds.
  - reflexivity.
  - destruct t as [c | v]; [reflexivity | ].
    rewrite (pass_verb a1), (pass_verb (andThen a1 a2)).
    destruct (a1 v) as [ | | text] eqn:E.
    + rewrite (andThen_keep _ _ _ E). reflexivity.
    + rewrite (andThen_drop _ _ _ E). reflexivity.
    + rewrite (andThen_put _ _ _ _ E).
      rewrite (pass_good _ _ _ (Hgood _ _ E)). reflexivity.
  - assert (Hnds1 : noDoubleSpace (flat (u :: rest)) \/ (forall v, a2 v <> Drop)).
    { destruct Hnds as [H | H]; [left; exact (noDoubleSpace_flat_tail _ _ H) | right; exact H]. }
    assert (Hnds2 : noDoubleSpace (flat rest) \/ (forall v, a2 v <> Drop)).
    { destruct Hnds1 as [H | H]; [left; exact (noDoubleSpace_flat_tail _ _ H) | right; exact H]. }
    specialize (IH Hnds2). specialize (IH' Hnds1).
    destruct t as [c | v].
    + destruct u as [c' | w].
      * (* two literals *)
        rewrite (pass_lit_lit a1), (pass_lit_lit (andThen a1 a2)), <- IH'.
        destruct (ascii_dec c " ") as [-> | Hc]; [ | apply pass_nonspace; exact Hc].
        destruct Hnds as [Hnds | Hno]; [ | apply pass_lit_nodrop; exact Hno].
        cbn [flat] in Hnds. apply noDoubleSpace_head in Hnds.
        rewrite (pass_nonspace a1 c') by exact Hnds. reflexivity.
      * (* a literal before a verb *)
        rewrite (pass_lit_verb a1), (pass_lit_verb (andThen a1 a2)).
        destruct (ascii_dec c " ") as [-> | Hc].
        -- change (Ascii.eqb " " " ") with true. rewrite !andb_true_l.
           destruct (a1 w) as [ | | text] eqn:E.
           ++ rewrite (andThen_keep _ _ _ E). cbn [isDrop].
              rewrite (pass_verb a1), E, pass_lit_verb.
              change (Ascii.eqb " " " ") with true. rewrite andb_true_l.
              destruct (isDrop (a2 w)) eqn:E2; [exact IH | ].
              rewrite <- IH', (pass_verb a1), E. reflexivity.
           ++ rewrite (andThen_drop _ _ _ E). cbn [isDrop]. exact IH.
           ++ rewrite (andThen_put _ _ _ _ E). cbn [isDrop].
              rewrite <- IH', (pass_verb a1), E.
              apply pass_space_lits. exact (proj1 (Hgood _ _ E)).
        -- apply Ascii.eqb_neq in Hc. rewrite Hc, !andb_false_l, <- IH'.
           apply Ascii.eqb_neq in Hc. apply pass_nonspace. exact Hc.
    + rewrite (pass_verb a1), (pass_verb (andThen a1 a2)).
      destruct (a1 v) as [ | | text] eqn:E.
      * rewrite (andThen_keep _ _ _ E), pass_verb, IH'. reflexivity.
      * rewrite (andThen_drop _ _ _ E). exact IH'.
      * rewrite (andThen_put _ _ _ _ E), (pass_good _ _ _ (Hgood _ _ E)), IH'.
        reflexivity.
Qed.

Lemma wellFormed_lits text : cleanText text -> wellFormed (lits text).
Proof.
  induction text as [ | c text IH]; intros H; [constructor | ].
  cbn [lits]. apply wellFormed_cons. split.
  - intros ->. exact (H 0%nat eq_refl).
  - apply IH. intros i. exact (H (S i)).
Qed.

Lemma wellFormed_pass act toks :
  (forall v text, act v = Put text -> cleanText text) ->
  wellFormed toks -> wellFormed (pass act toks).
Proof.
  intros Hclean.
  induction toks as [ | | t u rest IH IH'] using token_pair_ind; intros Hwf.
  - constructor.
  - destruct t as [c | v]; [exact Hwf | ].
    rewrite pass_verb. destruct (act v) eqn:E;
      [exact Hwf | constructor | ].
    rewrite app_nil_r. apply wellFormed_lits, (Hclean _ _ E).
  - pose proof (proj2 (proj1 (wellFormed_cons _ _) Hwf)) as Hwf1.
    pose proof (proj2 (proj1 (wellFormed_cons _ _) Hwf1)) as Hwf2.
    specialize (IH Hwf2). specialize (IH' Hwf1).
    pose proof (proj1 (proj1 (wellFormed_cons _ _) Hwf)) as Ht.
    destruct t as [c | v].
    + destruct u as [c' | w].
      * rewrite pass_lit_lit. apply wellFormed_cons. split; assumption.
      * rewrite pass_lit_verb. destruct (_ && _); [exact IH | ].
        apply wellFormed_cons. split; assumption.
    + rewrite pass_verb. destruct (act v) eqn:E.
      * apply wellFormed_cons. split; assumption.
      * exact IH'.
      * apply wellFormed_app; [ | exact IH']. apply wellFormed_lits, (Hclean _ _ E).
Qed.

Lemma prefix_cons a s1 b s2 :
  prefix (String a s1) (String b s2) = Ascii.eqb a b && prefix s1 s2.
Proof.
  cbn [prefix]. destruct (ascii_dec a b) as [-> | Hne].
  - rewrite Ascii.eqb_refl. reflexivity.
  - apply Ascii.eqb_neq in Hne. rewrite Hne. reflexivity.
Qed.

Lemma eqb_percent c : c <> "%"%char -> Ascii.eqb "%" c = false.
Proof. intros H. apply Ascii.eqb_neq. congruence. Qed.

Lemma eqb_space_letter v : In v verbLetters -> Ascii.eqb " " v = false.
Proof. intros H. apply Ascii.eqb_neq. intros <-. exact (letter_not_space _ H eq_refl). Qed.

Lemma eqb_percent_letter v : In v verbLetters -> Ascii.eqb "%" v = false.
Proof. intros H. apply eqb_percent, letter_not_percent, H. Qed.

Lemma replaceFrom_verb v text toks :
  In v verbLetters -> wellFormed toks ->
  strings.replaceFrom (verbOf v) text (flat toks) 0 =
  flat (pass (only v (Put text)) toks).
Proof.
  intros Hv. unfold verbOf. induction toks as [ | [c | w] rest IH]; intros Hwf.
  - reflexivity.
  - apply wellFormed_cons in Hwf as [Hc Hwf].
    rewrite pass_lit_nodrop
      by (intros w; unfold only; destruct (Ascii.eqb w v); discriminate).
    cbn [flat strings.replaceFrom verbOf].
    rewrite prefix_cons, (eqb_percent _ Hc), andb_false_l, (IH Hwf). reflexivity.
  - apply wellFormed_cons in Hwf as [Hw Hwf].
    rewrite pass_verb. unfold only at 1.
    cbn [flat strings.replaceFrom verbOf String.length Nat.sub].
    rewrite !prefix_cons, prefix_empty, andb_true_r, Ascii.eqb_refl, andb_true_l.
    rewrite (Ascii.eqb_sym v w).
    destruct (Ascii.eqb w v).
    + rewrite flat_app, flat_lits, (IH Hwf). reflexivity.
    + cbn [flat]. f_equal.
      rewrite (eqb_percent_letter _ Hw), andb_false_l, (IH Hwf). reflexivity.
Qed.

Lemma ReplaceAll_verb v text toks :
  In v verbLetters -> wellFormed toks ->
  strings.ReplaceAll (flat toks) (verbOf v) text = flat (pass (only v (Put text)) toks).
Proof. apply replaceFrom_verb. Qed.

Lemma wellFormed_dropSpaced v toks : wellFormed toks -> wellFormed (dropSpaced v toks).
Proof.
  induction toks as [ | | t u rest IH IH'] using token_pair_ind; intros Hwf.
  - constructor.
  - destruct t; exact Hwf.
  - pose proof (proj2 (proj1 (wellFormed_cons _ _) Hwf)) as Hwf1.
    pose proof (proj2 (proj1 (wellFormed_cons _ _) Hwf1)) as Hwf2.
    pose proof (proj1 (proj1 (wellFormed_cons _ _) Hwf)) as Ht.
    specialize (IH Hwf2). specialize (IH' Hwf1).
    destruct t as [c | w]; [destruct u as [c' | w] | ]; cbn [dropSpaced] in *.
    + apply wellFormed_cons. split; assumption.
    + destruct (_ && _); [exact IH | ]. apply wellFormed_cons. split; assumption.
    + apply wellFormed_cons. split; assumption.
Qed.

Lemma replaceFrom_here old new c s :
  strings.replaceFrom old new (String c s) 0 =
  if prefix old (String c s)
  then (new ++ strings.replaceFrom old new s (String.length old - 1))%string
  else String c (strings.replaceFrom old new s 0).
Proof. reflexivity. Qed.

Lemma replaceFrom_skip old new c s k :
  strings.replaceFrom old new (String c s) (S k) = strings.replaceFrom old new s k.
Proof. reflexivity. Qed.

Lemma flat_lit c rest : flat (Lit c :: rest) = String c (flat rest).
Proof. reflexivity. Qed.

Lemma flat_verb v rest : flat (Verb v :: rest) = String "%" (String v (flat rest)).
Proof. reflexivity. Qed.

Lemma dropSpaced_verb v w rest :
  dropSpaced v (Verb w :: rest) = Verb w :: dropSpaced v rest.
Proof. reflexivity. Qed.

Lemma dropSpaced_lit_lit v c c' rest :
  dropSpaced v (Lit c :: Lit c' :: rest) = Lit c :: dropSpaced v (Lit c' :: rest).
Proof. reflexivity. Qed.

Lemma dropSpaced_lit_verb v c w rest :
  dropSpaced v (Lit c :: Verb w :: rest) =
  if Ascii.eqb c " " && Ascii.eqb w v then dropSpaced v rest
  else Lit c :: dropSpaced v (Verb w :: rest).
Proof. reflexivity. Qed.

Lemma replaceFrom_spaced v toks :
  In v verbLetters -> wellFormed toks ->
  strings.replaceFrom (String " " (verbOf v)) EmptyString (flat toks) 0 =
  flat (dropSpaced v toks).
Proof.
  intros Hv. unfold verbOf.
  induction toks as [ | | t u rest IH IH'] using token_pair_ind; intros Hwf.
  - reflexivity.
  - apply wellFormed_cons in Hwf as [Ht _]. destruct t as [c | w].
    + cbn [flat dropSpaced]. rewrite replaceFrom_here, prefix_cons.
      cbn [prefix]. rewrite andb_false_r. reflexivity.
    + cbn [flat dropSpaced]. rewrite replaceFrom_here, prefix_cons.
      change (Ascii.eqb " " "%") with false. cbn [andb].
      rewrite replaceFrom_here, prefix_cons, (eqb_space_letter _ Ht). reflexivity.
  - pose proof (proj2 (proj1 (wellFormed_cons _ _) Hwf)) as Hwf1.
    pose proof (proj2 (proj1 (wellFormed_cons _ _) Hwf1)) as Hwf2.
    pose proof (proj1 (proj1 (wellFormed_cons _ _) Hwf)) as Ht.
    pose proof (proj1 (proj1 (wellFormed_cons _ _) Hwf1)) as Hu.
    specialize (IH Hwf2). specialize (IH' Hwf1).
    destruct t as [c | w].
    + destruct u as [c' | w].
      * rewrite dropSpaced_lit_lit, (flat_lit c), (flat_lit c (dropSpaced _ _)).
        rewrite replaceFrom_here, <- IH'. rewrite flat_lit, !prefix_cons.
        rewrite (eqb_percent _ Hu), andb_false_l, andb_false_r. reflexivity.
      * rewrite dropSpaced_lit_verb, (flat_lit c), flat_verb.
        rewrite replaceFrom_here, !prefix_cons, prefix_empty, andb_true_r.
        rewrite Ascii.eqb_refl, andb_true_l.
        rewrite (Ascii.eqb_sym " " c), (Ascii.eqb_sym v w).
        destruct (Ascii.eqb c " " && Ascii.eqb w v).
        -- cbn [String.length Nat.sub append].
           rewrite !replaceFrom_skip. exact IH.
        -- rewrite flat_lit, <- IH', flat_verb. reflexivity.
    + rewrite dropSpaced_verb, !flat_verb, <- IH'.
      rewrite replaceFrom_here, prefix_cons.
      change (Ascii.eqb " " "%") with false. cbn [andb].
      rewrite replaceFrom_here, prefix_cons, (eqb_space_letter _ Ht). reflexivity.
Qed.

Lemma isDrop_only_Drop v w : isDrop (only v Drop w) = Ascii.eqb w v.
Proof. unfold only. destruct (Ascii.eqb w v); reflexivity. Qed.

Lemma pass_drop_dropSpaced v toks :
  pass (only v (Put EmptyString)) (dropSpaced v toks) = pass (only v Drop) toks.
Proof.
  assert (Hnd : forall w, only v (Put EmptyString) w <> Drop).
  { intros w. unfold only. destruct (Ascii.eqb w v); discriminate. }
  assert (Hverb : forall w rest,
            pass (only v (Put EmptyString)) (dropSpaced v rest) = pass (only v Drop) rest ->
            pass (only v (Put EmptyString)) (dropSpaced v (Verb w :: rest))
            = pass (only v Drop) (Verb w :: rest)).
  { intros w rest H. rewrite dropSpaced_verb, !pass_verb, H. unfold only.
    destruct (Ascii.eqb w v); reflexivity. }
  induction toks as [ | | t u rest IH IH'] using token_pair_ind.
  - reflexivity.
  - destruct t as [c | w]; [reflexivity | ]. apply Hverb. reflexivity.
  - destruct t as [c | w]; [ | apply Hverb; exact IH'].
    destruct u as [c' | w].
    + rewrite dropSpaced_lit_lit, pass_lit_nodrop by exact Hnd.
      rewrite IH', pass_lit_lit. reflexivity.
    + rewrite dropSpaced_lit_verb, pass_lit_verb, isDrop_only_Drop.
      destruct (Ascii.eqb c " " && Ascii.eqb w v); [exact IH | ].
      rewrite pass_lit_nodrop by exact Hnd. rewrite IH'. reflexivity.
Qed.

Lemma zeroVerbReplace_tokens v toks :
  In v verbLetters -> wellFormed toks ->
  zeroVerbReplace (flat toks) (verbOf v) = flat (pass (only v Drop) toks).
Proof.
  intros Hv Hwf. unfold zeroVerbReplace.
  change (" " ++ verbOf v)%string with (String " " (verbOf v)).
  unfold strings.ReplaceAll at 2. cbn [verbOf].
  fold (verbOf v). rewrite (replaceFrom_spaced v toks Hv Hwf).
  rewrite (ReplaceAll_verb v EmptyString _ Hv (wellFormed_dropSpaced v toks Hwf)).
  rewrite pass_drop_dropSpaced. reflexivity.
Qed.

Lemma verbReplace_tokens v n unit toks :
  In v verbLetters -> wellFormed toks ->
  verbReplace (flat toks) n (verbOf v) unit =
  flat (pass (only v (Put (replacement n (verbOf v) unit))) toks).
Proof. intros Hv Hwf. unfold verbReplace. apply ReplaceAll_verb; assumption. Qed.

Lemma allChars_app p a b : allChars p (a ++ b) = allChars p a && allChars p b.
Proof.
  induction a as [ | c a IH]; cbn; [reflexivity | ].
  rewrite IH, andb_assoc. reflexivity.
Qed.

Lemma allChars_get p s :
  allChars p s = true -> forall i c, String.get i s = Some c -> p c = true.
Proof.
  induction s as [ | c s IH]; intros H i c' Hget; [destruct i; discriminate Hget | ].
  cbn in H. apply andb_true_iff in H as [Hc Hs].
  destruct i as [ | i]; cbn in Hget; [injection Hget as <-; exact Hc | ].
  exact (IH Hs i c' Hget).
Qed.

Lemma lastChar_get s c : lastChar s = Some c -> exists i, String.get i s = Some c.
Proof.
  induction s as [ | c' s IH]; intros H; [discriminate H | ].
  rewrite lastChar_cons in H. destruct s as [ | c'' s].
  - exists 0%nat. exact H.
  - destruct (IH H) as [i Hi]. exists (S i). exact Hi.
Qed.

Lemma plain_cleanText s : allChars plain s = true -> cleanText s.
Proof.
  intros H i Hget. pose proof (allChars_get _ _ H i _ Hget) as Hp.
  discriminate Hp.
Qed.

Lemma plain_goodText s : s <> EmptyString -> allChars plain s = true -> goodText s.
Proof.
  intros Hne H. split; [exact Hne | ]. intros Hlast.
  apply lastChar_get in Hlast as [i Hi].
  pose proof (allChars_get _ _ H i _ Hi) as Hp. discriminate Hp.
Qed.

Lemma lastChar_app a b : b <> EmptyString -> lastChar (a ++ b) = lastChar b.
Proof.
  intros Hb. induction a as [ | c a IH]; [reflexivity | ].
  cbn [append]. rewrite lastChar_cons, IH.
  destruct (a ++ b)%string eqn:E; [ | reflexivity].
  destruct a; [cbn in E; contradiction | discriminate E].
Qed.

Lemma uint_plain d : allChars plain (NilEmpty.string_of_uint d) = true.
Proof. induction d; cbn; auto. Qed.

Lemma uint_nonempty d : NilZero.string_of_uint d <> EmptyString.
Proof. destruct d; discriminate. Qed.

Lemma uint0_plain d : allChars plain (NilZero.string_of_uint d) = true.
Proof. destruct d; try reflexivity; apply (uint_plain (_ d)). Qed.

Lemma Itoa_plain n : allChars plain (strconv.Itoa n) = true.
Proof.
  unfold strconv.Itoa. destruct (Z.to_int n) as [d | d]; cbn [NilZero.string_of_int].
  - apply uint0_plain.
  - cbn [allChars]. rewrite uint0_plain. reflexivity.
Qed.

Lemma Itoa_nonempty n : strconv.Itoa n <> EmptyString.
Proof.
  unfold strconv.Itoa. destruct (Z.to_int n) as [d | d]; cbn [NilZero.string_of_int].
  - apply uint_nonempty.
  - discriminate.
Qed.

(** *** The entries of [formatUnits] *)

Lemma entry_cases (P : string * string -> Prop) :
  P ("%Y", "year")%string -> P ("%y", "year")%string ->
  P ("%M", "month")%string -> P ("%m", "month")%string ->
  P ("%W", "week")%string -> P ("%w", "week")%string ->
  P ("%D", "day")%string -> P ("%d", "day")%string ->
  forall e, In e formatUnits -> P e.
Proof.
  intros H1 H2 H3 H4 H5 H6 H7 H8 e He. cbn in He.
  repeat (destruct He as [<- | He]; [assumption | ]). contradiction.
Qed.

Lemma entry_verb e : In e formatUnits -> fst e = verbOf (verbLetter (fst e)).
Proof. revert e. apply entry_cases; reflexivity. Qed.

Lemma entry_letter e : In e formatUnits -> In (verbLetter (fst e)) verbLetters.
Proof. revert e. apply entry_cases; cbn; tauto. Qed.

Lemma entry_count d e :
  In e formatUnits -> unitCount d (snd e) = specCount d (verbLetter (fst e)).
Proof. revert e. apply entry_cases; reflexivity. Qed.

Lemma entry_text n e :
  In e formatUnits ->
  replacement n (fst e) (snd e) = specVerbText n (verbLetter (fst e)).
Proof. revert e. apply entry_cases; reflexivity. Qed.

Lemma letter_cases (P : ascii -> Prop) :
  P "Y"%char -> P "y"%char -> P "M"%char -> P "m"%char ->
  P "W"%char -> P "w"%char -> P "D"%char -> P "d"%char ->
  forall v, In v verbLetters -> P v.
Proof.
  intros H1 H2 H3 H4 H5 H6 H7 H8 v Hv. cbn in Hv.
  repeat (destruct Hv as [<- | Hv]; [assumption | ]). contradiction.
Qed.

Lemma specVerbText_plain_parts n v :
  In v verbLetters ->
  specVerbText n v <> EmptyString
  /\ allChars (fun c => negb (Ascii.eqb c "%")) (specVerbText n v) = true
  /\ lastChar (specVerbText n v) <> Some " "%char.
Proof.
  assert (HI : allChars (fun c => negb (Ascii.eqb c "%")) (strconv.Itoa n) = true).
  { pose proof (Itoa_plain n) as H. induction (strconv.Itoa n) as [ | c s IH];
      [reflexivity | ].
    cbn in *. apply andb_true_iff in H as [Hc Hs]. unfold plain in Hc.
    apply andb_true_iff in Hc as [Hc _]. rewrite Hc, (IH Hs). reflexivity. }
  assert (HL : lastChar (strconv.Itoa n) <> Some " "%char).
  { apply (plain_goodText _ (Itoa_nonempty n) (Itoa_plain n)). }
  pose proof (Itoa_nonempty n) as HN.
  assert (Happ : forall t, (strconv.Itoa n ++ t)%string <> EmptyString).
  { intros t H. destruct (strconv.Itoa n); [contradiction | discriminate H]. }
  revert v. apply letter_cases; unfold specVerbText; cbn [specUpper specNoun];
    repeat split; try assumption; try apply Happ;
    try (rewrite allChars_app, HI; destruct (n =? 1); reflexivity);
    try (rewrite lastChar_app by (destruct (n =? 1); discriminate);
         destruct (n =? 1); discriminate).
Qed.

Lemma specVerbText_good n v : In v verbLetters -> goodText (specVerbText n v).
Proof. intros H. destruct (specVerbText_plain_parts n v H) as (H1 & _ & H3). split; assumption. Qed.

Lemma specVerbText_clean n v : In v verbLetters -> cleanText (specVerbText n v).
Proof.
  intros H. destruct (specVerbText_plain_parts n v H) as (_ & H2 & _).
  intros i Hget. pose proof (allChars_get _ _ H2 i _ Hget) as Hp. discriminate Hp.
Qed.

(** *** The loop of [frmt], entry by entry *)

Lemma In_Verb_Contains v toks :
  In (Verb v) toks -> strings.Contains (flat toks) (verbOf v) = true.
Proof.
  induction toks as [ | t rest IH]; intros H; [contradiction | ].
  destruct H as [-> | H].
  - cbn [flat strings.Contains]. unfold verbOf.
    rewrite !prefix_cons, !Ascii.eqb_refl, prefix_empty. reflexivity.
  - specialize (IH H). destruct t as [c | w]; cbn [flat strings.Contains];
      rewrite IH, ?orb_true_r; reflexivity.
Qed.

Lemma find_append {A} (f : A -> bool) l l' :
  find f (l ++ l') = match find f l with Some x => Some x | None => find f l' end.
Proof.
  induction l as [ | x l IH]; [reflexivity | ].
  cbn. destruct (f x); [reflexivity | exact IH].
Qed.

Lemma entryAction_not_Keep elide d e : entryAction elide d e <> Keep.
Proof. unfold entryAction. destruct (_ && _); discriminate. Qed.

Lemma actOf_app elide d P e w :
  actOf elide d (P ++ [e]) w =
  andThen (actOf elide d P)
          (only (verbLetter (fst e)) (entryAction elide d e)) w.
Proof.
  unfold actOf, andThen. rewrite find_append.
  destruct (find _ P) as [e' | ].
  - pose proof (entryAction_not_Keep elide d e') as H.
    destruct (entryAction elide d e'); [contradiction | reflexivity | reflexivity].
  - cbn [find]. unfold only. rewrite (Ascii.eqb_sym w).
    destruct (Ascii.eqb (verbLetter (fst e)) w); reflexivity.
Qed.

Lemma actOf_In (P : list (string * string)) w e :
  find (fun e => Ascii.eqb (verbLetter (fst e)) w) P = Some e ->
  In e P /\ verbLetter (fst e) = w.
Proof.
  intros H. apply find_some in H as [H1 H2]. apply Ascii.eqb_eq in H2. tauto.
Qed.

Lemma actOf_text elide d P w text :
  (forall e, In e P -> In e formatUnits) ->
  actOf elide d P w = Put text ->
  In w verbLetters /\ text = specVerbText (specCount d w) w.
Proof.
  intros HP. unfold actOf.
  destruct (find _ P) as [e | ] eqn:E; [ | discriminate].
  apply actOf_In in E as [He <-]. specialize (HP e He).
  unfold entryAction. rewrite (entry_count d e HP), (entry_text _ e HP).
  destruct (_ && _); [discriminate | ]. intros H. injection H as <-.
  split; [apply entry_letter, HP | reflexivity].
Qed.

Lemma actOf_good elide d P :
  (forall e, In e P -> In e formatUnits) -> goodTexts (actOf elide d P).
Proof.
  intros HP w text H. apply (actOf_text _ _ _ _ _ HP) in H as [Hw ->].
  apply specVerbText_good, Hw.
Qed.

Lemma actOf_clean elide d P :
  (forall e, In e P -> In e formatUnits) ->
  forall w text, actOf elide d P w = Put text -> cleanText text.
Proof.
  intros HP w text H. apply (actOf_text _ _ _ _ _ HP) in H as [Hw ->].
  apply specVerbText_clean, Hw.
Qed.

Lemma replaceWith_tokens elide d e toks :
  In e formatUnits -> wellFormed toks ->
  replaceWith elide (unitCount d (snd e)) (fst e) (snd e) (flat toks) =
  flat (pass (only (verbLetter (fst e)) (entryAction elide d e)) toks).
Proof.
  intros He Hwf. unfold replaceWith, entryAction.
  pose proof (entry_verb e He) as Hverb. pose proof (entry_letter e He) as Hv.
  remember (verbLetter (fst e)) as v eqn:Ev. clear Ev. rewrite Hverb.
  destruct (elide && (unitCount d (snd e) =? 0)).
  - apply zeroVerbReplace_tokens; assumption.
  - apply verbReplace_tokens; assumption.
Qed.

Lemma frmtStep_tokens elide d toks P e :
  wellFormed toks ->
  (elide = true -> noDoubleSpace (flat toks)) ->
  (forall e', In e' P -> In e' formatUnits) -> In e formatUnits ->
  frmtStep elide d (flat toks) (flat (pass (actOf elide d P) toks)) e =
  flat (pass (actOf elide d (P ++ [e])) toks).
Proof.
  intros Hwf Hnds HP He. unfold frmtStep.
  destruct e as [verb unit] eqn:Ee. rewrite <- Ee in *.
  replace verb with (fst e) by (rewrite Ee; reflexivity).
  replace unit with (snd e) by (rewrite Ee; reflexivity).
  clear Ee verb unit.
  destruct (strings.Contains (flat toks) (fst e)) eqn:Ec.
  - rewrite (replaceWith_tokens elide d e _ He)
      by (apply wellFormed_pass; [apply actOf_clean, HP | exact Hwf]).
    f_equal. rewrite pass_pass.
    + apply pass_ext. intros w _. symmetry. apply actOf_app.
    + apply actOf_good, HP.
    + destruct elide; [left; apply Hnds; reflexivity | right].
      intros w. unfold only, entryAction. cbn [andb].
      destruct (Ascii.eqb w _); discriminate.
  - f_equal. apply pass_ext. intros w Hw. rewrite actOf_app. unfold andThen, only.
    destruct (Ascii.eqb w (verbLetter (fst e))) eqn:Ew.
    + apply Ascii.eqb_eq in Ew. subst w. apply In_Verb_Contains in Hw.
      rewrite <- (entry_verb e He), Ec in Hw. discriminate Hw.
    + destruct (actOf elide d P w); reflexivity.
Qed.

Lemma frmt_tokens elide d toks : forall entries P,
  wellFormed toks ->
  (elide = true -> noDoubleSpace (flat toks)) ->
  (forall e, In e P -> In e formatUnits) ->
  (forall e, In e entries -> In e formatUnits) ->
  fold_left (frmtStep elide d (flat toks)) entries
            (flat (pass (actOf elide d P) toks)) =
  flat (pass (actOf elide d (P ++ entries)) toks).
Proof.
  induction entries as [ | e entries IH]; intros P Hwf Hnds HP He.
  - rewrite app_nil_r. reflexivity.
  - cbn [fold_left]. rewrite frmtStep_tokens; try assumption;
      [ | apply He; left; reflexivity].
    rewrite IH; try assumption.
    + rewrite <- app_assoc. reflexivity.
    + intros e' H. apply in_app_or in H as [H | [<- | []]];
        [apply HP, H | apply He; left; reflexivity].
    + intros e' H. apply He. right. exact H.
Qed.

(** *** The order of the entries does not matter *)

Lemma find_letter_perm (l l' : list (string * string)) w :
  NoDup (map (fun e => verbLetter (fst e)) l) -> Permutation l l' ->
  find (fun e => Ascii.eqb (verbLetter (fst e)) w) l =
  find (fun e => Ascii.eqb (verbLetter (fst e)) w) l'.
Proof.
  intros Hnd Hp. induction Hp as [ | x l l' Hp IH | x y l | l l' l'' Hp1 IH1 Hp2 IH2].
  - reflexivity.
  - cbn [find]. destruct (Ascii.eqb _ w); [reflexivity | ].
    apply IH. inversion Hnd; assumption.
  - cbn [find].
    destruct (Ascii.eqb (verbLetter (fst y)) w) eqn:Ey,
             (Ascii.eqb (verbLetter (fst x)) w) eqn:Ex; try reflexivity.
    apply Ascii.eqb_eq in Ey, Ex. exfalso.
    inversion Hnd as [ | ? ? Hnotin _]. apply Hnotin. left. congruence.
  - rewrite IH1 by exact Hnd. apply IH2.
    apply (Permutation_NoDup (l := map (fun e => verbLetter (fst e)) l));
      [apply Permutation_map, Hp1 | exact Hnd].
Qed.

Lemma formatUnits_letters : NoDup (map (fun e => verbLetter (fst e)) formatUnits).
Proof.
  cbn. repeat constructor; cbn; intuition discriminate.
Qed.

Lemma actOf_order elide d order w :
  Permutation order formatUnits ->
  actOf elide d order w = actOf elide d formatUnits w.
Proof.
  intros Hp. unfold actOf.
  rewrite (find_letter_perm formatUnits order w formatUnits_letters
             (Permutation_sym Hp)). reflexivity.
Qed.

Lemma actOf_spec elide d w :
  In w verbLetters -> actOf elide d formatUnits w = specAct elide d w.
Proof. revert w. apply letter_cases; reflexivity. Qed.

Lemma string_pair_ind (P : string -> Prop) :
  P EmptyString -> (forall c, P (String c EmptyString)) ->
  (forall c v rest, P rest -> P (String v rest) -> P (String c (String v rest))) ->
  forall s, P s.
Proof.
  intros H0 H1 H2 s.
  assert (H : P s /\ forall c, P (String c s)); [ | tauto].
  induction s as [ | v rest [IH IH']]; [split; auto | ].
  split; [apply IH' | ]. intros c. apply H2; [exact IH | apply IH'].
Qed.

Lemma isVerbLetter_In v : isVerbLetter v = true <-> In v verbLetters.
Proof.
  unfold isVerbLetter. rewrite <- verbMode_letters.
  destruct (verbMode v); split; intros H; congruence.
Qed.

Lemma tokenize_pair c v rest :
  tokenize (String c (String v rest)) =
  if Ascii.eqb c "%" && isVerbLetter v then Verb v :: tokenize rest
  else Lit c :: tokenize (String v rest).
Proof. reflexivity. Qed.

Lemma tokenize_flat s :
  noUnknownVerb s -> lastChar s <> Some "%"%char ->
  wellFormed (tokenize s) /\ flat (tokenize s) = s.
Proof.
  induction s as [ | c | c v rest IH IH'] using string_pair_ind; intros Hno Hlast.
  - split; [constructor | reflexivity].
  - cbn [tokenize flat]. split; [ | reflexivity].
    apply wellFormed_cons. split; [ | constructor].
    intros ->. apply Hlast. reflexivity.
  - assert (Hno1 : noUnknownVerb (String v rest)).
    { intros i c' H. exact (Hno (S i) c' H). }
    assert (Hno2 : noUnknownVerb rest).
    { intros i c' H. exact (Hno1 (S i) c' H). }
    rewrite lastChar_cons in Hlast.
    rewrite tokenize_pair. destruct (Ascii.eqb c "%") eqn:Ec.
    + apply Ascii.eqb_eq in Ec. subst c.
      assert (Hv : In v verbLetters).
      { destruct (in_dec ascii_dec v verbLetters) as [H | H]; [exact H | ].
        exfalso. apply (Hno 0%nat v). repeat split. exact H. }
      rewrite (proj2 (isVerbLetter_In v) Hv). cbn [andb].
      assert (Hlast2 : lastChar rest <> Some "%"%char).
      { rewrite lastChar_cons in Hlast. destruct rest; [discriminate | exact Hlast]. }
      destruct (IH Hno2 Hlast2) as [Hwf Hflat].
      split; [apply wellFormed_cons; split; assumption | ].
      cbn [flat]. rewrite Hflat. reflexivity.
    + cbn [andb]. destruct (IH' Hno1 Hlast) as [Hwf Hflat].
      apply Ascii.eqb_neq in Ec.
      split; [apply wellFormed_cons; split; assumption | ].
      cbn [flat]. rewrite Hflat. reflexivity.
Qed.

Lemma unmarshal_tokens f m :
  unmarshal f = Ok m -> wellFormed (tokenize f) /\ flat (tokenize f) = f.
Proof.
  intros H. pose proof (unmarshal_spec f) as Hs. rewrite H in Hs.
  destruct Hs as (Hno & Hlast & _). apply tokenize_flat; assumption.
Qed.

(** *** [specRender] is one pass *)

Lemma isDrop_specAct elide d w :
  isDrop (specAct elide d w) = elide && (specCount d w =? 0).
Proof. unfold specAct. destruct (_ && _); reflexivity. Qed.

Lemma specRender_verb elide d v s :
  In v verbLetters ->
  specRender elide d (String "%" (String v s)) =
  ((if elide && (specCount d v =? 0)%Z then EmptyString
    else specVerbText (specCount d v) v) ++ specRender elide d s)%string.
Proof.
  intros Hv. cbn [specRender]. rewrite (proj2 (isVerbLetter_In v) Hv). reflexivity.
Qed.

Lemma specRender_lit_end elide d c : specRender elide d (String c EmptyString) = String c EmptyString.
Proof. reflexivity. Qed.

Lemma specRender_lit_lit elide d c c' s :
  c <> "%"%char -> c' <> "%"%char ->
  specRender elide d (String c (String c' s)) =
  String c (specRender elide d (String c' s)).
Proof.
  intros Hc Hc'. apply Ascii.eqb_neq in Hc, Hc'.
  cbn [specRender]. rewrite Hc, Hc'. cbn [andb].
  rewrite andb_false_r. cbn [andb]. destruct s; reflexivity.
Qed.

Lemma specRender_lit_verb elide d c w s :
  c <> "%"%char -> In w verbLetters ->
  specRender elide d (String c (String "%" (String w s))) =
  if Ascii.eqb c " " && (elide && (specCount d w =? 0))
  then specRender elide d s
  else String c (specRender elide d (String "%" (String w s))).
Proof.
  intros Hc Hw. apply Ascii.eqb_neq in Hc.
  cbn [specRender]. rewrite Hc, (proj2 (isVerbLetter_In w) Hw). cbn [andb].
  change (Ascii.eqb "%" "%") with true. rewrite !andb_true_r.
  rewrite <- !andb_assoc. reflexivity.
Qed.

Lemma specRender_tokens elide d toks :
  wellFormed toks ->
  specRender elide d (flat toks) = flat (pass (specAct elide d) toks).
Proof.
  induction toks as [ | | t u rest IH IH'] using token_pair_ind; intros Hwf.
  - reflexivity.
  - apply wellFormed_cons in Hwf as [Ht _]. destruct t as [c | v].
    + reflexivity.
    + rewrite flat_verb, (specRender_verb _ _ _ _ Ht), pass_verb. unfold specAct.
      destruct (_ && _); [reflexivity | ].
      rewrite flat_app, flat_lits. reflexivity.
  - pose proof (proj2 (proj1 (wellFormed_cons _ _) Hwf)) as Hwf1.
    pose proof (proj2 (proj1 (wellFormed_cons _ _) Hwf1)) as Hwf2.
    pose proof (proj1 (proj1 (wellFormed_cons _ _) Hwf)) as Ht.
    pose proof (proj1 (proj1 (wellFormed_cons _ _) Hwf1)) as Hu.
    specialize (IH Hwf2). specialize (IH' Hwf1).
    destruct t as [c | v].
    + destruct u as [c' | w].
      * rewrite pass_lit_lit, !(flat_lit c), <- IH', flat_lit.
        apply specRender_lit_lit; assumption.
      * rewrite pass_lit_verb, isDrop_specAct, (flat_lit c), flat_verb.
        rewrite (specRender_lit_verb _ _ _ _ _ Ht Hu).
        destruct (Ascii.eqb c " " && _); [exact IH | ].
        rewrite flat_lit, <- IH', flat_verb. reflexivity.
    + rewrite flat_verb, (specRender_verb _ _ _ _ Ht), pass_verb, IH'. unfold specAct.
      destruct (_ && _); [reflexivity | ].
      rewrite flat_app, flat_lits. reflexivity.
Qed.

(** *** No two spaces in a row *)

Lemma noDoubleSpace_cons c s :
  noDoubleSpace (String c s)
  <-> ~ (c = " "%char /\ String.get 0 s = Some " "%char) /\ noDoubleSpace s.
Proof.
  unfold noDoubleSpace. cbn [strings.Contains]. rewrite orb_false_iff.
  assert (H : prefix "  " (String c s) = false
              <-> ~ (c = " "%char /\ String.get 0 s = Some " "%char)).
  { rewrite prefix_cons. destruct s as [ | c' s].
    - cbn. rewrite andb_false_r. split; [intros _ [_ H]; discriminate H | reflexivity].
    - rewrite prefix_cons, prefix_empty, andb_true_r. cbn [String.get].
      rewrite andb_false_iff, <- !not_true_iff_false, !Ascii.eqb_eq.
      split.
      + intros [H | H] [H1 H2]; [congruence | injection H2 as H2; congruence].
      + intros H. destruct (ascii_dec " " c) as [<- | Hc]; [ | tauto].
        right. intros <-. apply H. split; reflexivity. }
  tauto.
Qed.

Lemma noDoubleSpace_nonspace c s :
  c <> " "%char -> noDoubleSpace s -> noDoubleSpace (String c s).
Proof. intros Hc Hs. apply noDoubleSpace_cons. tauto. Qed.

Lemma noDoubleSpace_empty : noDoubleSpace EmptyString.
Proof. reflexivity. Qed.

Lemma noDoubleSpace_append a b :
  noDoubleSpace a -> noDoubleSpace b -> lastChar a <> Some " "%char ->
  noDoubleSpace (a ++ b).
Proof.
  induction a as [ | c a IH]; intros Ha Hb Hlast; [exact Hb | ].
  cbn [append]. apply noDoubleSpace_cons in Ha as [Hhead Ha].
  rewrite lastChar_cons in Hlast.
  apply noDoubleSpace_cons. split.
  - intros [-> Hget]. destruct a as [ | c' a].
    + apply Hlast. reflexivity.
    + apply Hhead. split; [reflexivity | exact Hget].
  - apply IH; [exact Ha | exact Hb | ]. destruct a; [discriminate | exact Hlast].
Qed.

Lemma get0_append a b : a <> EmptyString -> String.get 0 (a ++ b) = String.get 0 a.
Proof. destruct a; [contradiction | reflexivity]. Qed.

Lemma noDoubleSpace_pass act toks :
  wellFormed toks ->
  (forall v text, act v = Put text -> niceText text) ->
  noDoubleSpace (flat toks) -> noDoubleSpace (flat (pass act toks)).
Proof.
  intros Hwf Hnice.
  assert (Hverb : forall v rest,
            In v verbLetters ->
            noDoubleSpace (flat (pass act rest)) ->
            noDoubleSpace (flat (pass act (Verb v :: rest)))).
  { intros v rest Hv H. rewrite pass_verb. destruct (act v) as [ | | text] eqn:E.
    - rewrite flat_verb. apply noDoubleSpace_nonspace; [discriminate | ].
      apply noDoubleSpace_nonspace; [apply letter_not_space, Hv | exact H].
    - exact H.
    - rewrite flat_app, flat_lits. destruct (Hnice _ _ E) as ([_ Hl] & Hn & _).
      apply noDoubleSpace_append; assumption. }
  revert Hwf.
  induction toks as [ | | t u rest IH IH'] using token_pair_ind; intros Hwf Hnds.
  - reflexivity.
  - apply wellFormed_cons in Hwf as [Ht _]. destruct t as [c | v]; [exact Hnds | ].
    apply Hverb; [exact Ht | reflexivity].
  - pose proof (proj2 (proj1 (wellFormed_cons _ _) Hwf)) as Hwf1.
    pose proof (proj2 (proj1 (wellFormed_cons _ _) Hwf1)) as Hwf2.
    pose proof (proj1 (proj1 (wellFormed_cons _ _) Hwf)) as Ht.
    pose proof (proj1 (proj1 (wellFormed_cons _ _) Hwf1)) as Hu.
    pose proof (noDoubleSpace_flat_tail _ _ Hnds) as Hnds1.
    pose proof (noDoubleSpace_flat_tail _ _ Hnds1) as Hnds2.
    specialize (IH Hwf2 Hnds2). specialize (IH' Hwf1 Hnds1).
    destruct t as [c | v]; [ | apply Hverb; assumption].
    destruct u as [c' | w].
    + rewrite pass_lit_lit, flat_lit.
      destruct (ascii_dec c " ") as [-> | Hc];
        [ | apply noDoubleSpace_nonspace; assumption].
      rewrite !flat_lit in Hnds. apply noDoubleSpace_head in Hnds.
      apply noDoubleSpace_cons. split; [ | exact IH'].
      rewrite (pass_nonspace act c') by exact Hnds.
      intros [_ H]. cbn in H. congruence.
    + rewrite pass_lit_verb. destruct (Ascii.eqb c " " && isDrop (act w)) eqn:E;
        [exact IH | ].
      rewrite flat_lit.
      destruct (ascii_dec c " ") as [-> | Hc];
        [ | apply noDoubleSpace_nonspace; assumption].
      apply noDoubleSpace_cons. split; [ | exact IH'].
      change (Ascii.eqb " " " ") with true in E. rewrite andb_true_l in E.
      rewrite pass_verb. intros [_ H]. destruct (act w) as [ | | text] eqn:Ew.
      * discriminate H.
      * discriminate E.
      * destruct (Hnice _ _ Ew) as ([Hne _] & _ & Hfirst).
        rewrite flat_app, flat_lits, get0_append in H by exact Hne. contradiction.
Qed.

Lemma plain_noDoubleSpace s : allChars plain s = true -> noDoubleSpace s.
Proof.
  induction s as [ | c s IH]; intros H; [reflexivity | ].
  cbn in H. apply andb_true_iff in H as [Hc Hs].
  apply noDoubleSpace_nonspace; [ | exact (IH Hs)].
  intros ->. discriminate Hc.
Qed.

Lemma specVerbText_nice n v : In v verbLetters -> niceText (specVerbText n v).
Proof.
  intros Hv. split; [apply specVerbText_good, Hv | ].
  pose proof (Itoa_plain n) as Hp. pose proof (Itoa_nonempty n) as Hne.
  pose proof (plain_goodText _ Hne Hp) as [_ Hl].
  assert (Hfirst : String.get 0 (strconv.Itoa n) <> Some " "%char).
  { intros H. pose proof (allChars_get _ _ Hp 0%nat _ H) as Hc. discriminate Hc. }
  revert v Hv. apply letter_cases; unfold specVerbText; cbn [specUpper specNoun];
    (split;
     [ first [ apply plain_noDoubleSpace; exact Hp
             | apply noDoubleSpace_append;
               [apply plain_noDoubleSpace; exact Hp
               | destruct (n =? 1); reflexivity
               | exact Hl] ]
     | rewrite ?get0_append by exact Hne; exact Hfirst ]).
Qed.

Lemma frmt_fold elide order d rawFormat :
  frmt order d rawFormat (replaceWith elide) rawFormat =
  fold_left (frmtStep elide d rawFormat) order rawFormat.
Proof. reflexivity. Qed.

Lemma format_replaceWith order d rawFormat :
  format order d rawFormat = frmt order d rawFormat (replaceWith true) rawFormat.
Proof. reflexivity. Qed.

Lemma formatWithZeros_replaceWith order d rawFormat :
  formatWithZeros order d rawFormat =
  frmt order d rawFormat (replaceWith false) rawFormat.
Proof. reflexivity. Qed.

(** The loop of [frmt] over any arrangement of the entries is one pass
    with the action of the specification. *)
Lemma frmt_pass elide order d toks :
  Permutation order formatUnits -> wellFormed toks ->
  (elide = true -> noDoubleSpace (flat toks)) ->
  frmt order d (flat toks) (replaceWith elide) (flat toks) =
  flat (pass (specAct elide d) toks).
Proof.
  intros Hp Hwf Hnds. rewrite frmt_fold.
  pose proof (frmt_tokens elide d toks order [] Hwf Hnds) as H.
  rewrite pass_ext with (a' := fun _ => Keep) in H by reflexivity.
  rewrite pass_keep in H. rewrite H.
  - f_equal. apply pass_ext. intros w Hw. cbn [app].
    rewrite (actOf_order _ _ _ _ Hp). apply actOf_spec.
    unfold wellFormed in Hwf. rewrite Forall_forall in Hwf. exact (Hwf _ Hw).
  - intros e [].
  - intros e He. apply (Permutation_in _ Hp He).
Qed.

Lemma specAct_nice elide d v text :
  In v verbLetters -> specAct elide d v = Put text -> niceText text.
Proof.
  intros Hv. unfold specAct. destruct (_ && _); [discriminate | ].
  intros H. injection H as <-. apply specVerbText_nice, Hv.
Qed.

Lemma noDoubleSpace_spec_pass elide d toks :
  wellFormed toks -> noDoubleSpace (flat toks) ->
  noDoubleSpace (flat (pass (specAct elide d) toks)).
Proof.
  intros Hwf Hnds.
  rewrite pass_ext with (a' := fun v => if in_dec ascii_dec v verbLetters
                                        then specAct elide d v else Keep).
  - apply noDoubleSpace_pass; [exact Hwf | | exact Hnds].
    intros v text. destruct (in_dec ascii_dec v verbLetters) as [Hv | ];
      [apply specAct_nice, Hv | discriminate].
  - intros v Hv. unfold wellFormed in Hwf. rewrite Forall_forall in Hwf.
    specialize (Hwf _ Hv). cbn in Hwf.
    destruct (in_dec ascii_dec v verbLetters); [reflexivity | contradiction].
Qed.

(** *** [verbReplace] *)

Lemma ReplaceAll_substVerb v text s :
  v <> "%"%char ->
  strings.ReplaceAll s (verbOf v) text = substVerb v text s.
Proof.
  intros Hv. unfold strings.ReplaceAll, verbOf.
  induction s as [ | c | c w rest IH IH'] using string_pair_ind.
  - reflexivity.
  - rewrite replaceFrom_here, !prefix_cons. cbn [prefix substVerb].
    rewrite andb_false_r. reflexivity.
  - rewrite replaceFrom_here, !prefix_cons, prefix_empty, andb_true_r.
    cbn [substVerb]. rewrite (Ascii.eqb_sym "%" c), (Ascii.eqb_sym v w).
    destruct (Ascii.eqb c "%" && Ascii.eqb w v).
    + cbn [String.length Nat.sub]. rewrite replaceFrom_skip, IH. reflexivity.
    + rewrite IH'. reflexivity.
Qed.

End RenderFacts.

(* ================================================================== *)
(** ** Locations: fixed zones, and the loops in any location *)
(* ================================================================== *)

Module ZoneFacts.

Import Calendar CalendarFacts DiffFacts.

Lemma nsPerSecond_eq : time.nsPerSecond = 1000000000.
Proof. reflexivity. Qed.

Lemma Time_ext a b : time.nanos a = time.nanos b -> time.loc a = time.loc b -> a = b.
Proof. destruct a, b. cbn. intros -> ->. reflexivity. Qed.

Lemma reading_eta r : clock.mkTime (clock.nanos r) = r.
Proof. destruct r. reflexivity. Qed.

(** *** Times of one fixed zone *)

Lemma lookup_fixed o sec : time.lookup (time.FixedZone o) sec = (o, None, None).
Proof. reflexivity. Qed.

Lemma offset_fixed t o : time.loc t = time.FixedZone o -> time.offset t = o.
Proof. intros H. unfold time.offset. rewrite H. reflexivity. Qed.

Lemma abs_zoned o r : time.abs (zoned o r) = r.
Proof.
  unfold time.abs. rewrite (offset_fixed (zoned o r) o eq_refl). cbn [zoned time.nanos].
  rewrite <- (reading_eta r) at 2. f_equal. lia.
Qed.

Lemma zoned_abs t o : time.loc t = time.FixedZone o -> t = zoned o (time.abs t).
Proof.
  intros H. apply Time_ext; [ | exact H].
  unfold time.abs. rewrite (offset_fixed _ _ H). cbn. lia.
Qed.

Lemma fixed_zoned t o : time.loc t = time.FixedZone o -> exists r, t = zoned o r.
Proof. intros H. exists (time.abs t). apply zoned_abs, H. Qed.

Lemma Date_fixed year month day hour min sec nsec o :
  time.Date year month day hour min sec nsec (time.FixedZone o)
  = zoned o (clock.Date year month day hour min sec nsec).
Proof.
  unfold time.Date. cbv zeta. rewrite lookup_fixed. cbv beta iota.
  destruct (o =? 0); reflexivity.
Qed.

Lemma Nanosecond_zoned o r : time.Nanosecond (zoned o r) = clock.Nanosecond r.
Proof.
  unfold time.Nanosecond, clock.Nanosecond. cbn [zoned time.nanos].
  unfold time.nsPerSecond. generalize (clock.nanos r). intros n.
  change clock.nsPerSecond with 1000000000.
  Z.div_mod_to_equations. lia.
Qed.

Lemma AddDate_zoned o r years months days :
  time.AddDate (zoned o r) years months days
  = zoned o (clock.AddDate r years months days).
Proof.
  unfold time.AddDate, clock.AddDate, time.date, time.Hour, time.Minute, time.Second.
  rewrite abs_zoned, Nanosecond_zoned.
  destruct (clock.date r) as [[year month] day]. apply Date_fixed.
Qed.

Lemma Year_zoned o r : time.Year (zoned o r) = clock.Year r.
Proof. unfold time.Year. rewrite abs_zoned. reflexivity. Qed.

Lemma Month_zoned o r : time.Month (zoned o r) = clock.Month r.
Proof. unfold time.Month. rewrite abs_zoned. reflexivity. Qed.

Lemma Day_zoned o r : time.Day (zoned o r) = clock.Day r.
Proof. unfold time.Day. rewrite abs_zoned. reflexivity. Qed.

Lemma After_zoned o a b : time.After (zoned o a) (zoned o b) = clock.After a b.
Proof.
  unfold time.After, clock.After. cbn [zoned time.nanos].
  destruct (Z.ltb_spec (clock.nanos b) (clock.nanos a));
    [apply Z.ltb_lt | apply Z.ltb_ge]; lia.
Qed.

Lemma Equal_zoned o a b : time.Equal (zoned o a) (zoned o b) = clock.Equal a b.
Proof.
  unfold time.Equal, clock.Equal. cbn [zoned time.nanos].
  destruct (Z.eqb_spec (clock.nanos a) (clock.nanos b));
    [apply Z.eqb_eq | apply Z.eqb_neq]; lia.
Qed.

Lemma reached_zoned o a b : reached (zoned o a) (zoned o b) = OnClock.reached a b.
Proof.
  unfold reached, OnClock.reached, time.Before, clock.Before.
  rewrite Equal_zoned. f_equal. cbn [zoned time.nanos].
  destruct (Z.ltb_spec (clock.nanos a) (clock.nanos b));
    [apply Z.ltb_lt | apply Z.ltb_ge]; lia.
Qed.

Lemma zoned_inj o a b : zoned o a = zoned o b -> a = b.
Proof.
  intros H. apply (f_equal time.abs) in H. rewrite !abs_zoned in H. exact H.
Qed.

Lemma fullYearsDiff_zoned o s e :
  fullYearsDiff (zoned o s) (zoned o e) = OnClock.fullYearsDiff s e.
Proof.
  unfold fullYearsDiff, OnClock.fullYearsDiff.
  rewrite !Year_zoned, AddDate_zoned, After_zoned. reflexivity.
Qed.

Lemma fullMonthsDiff_loop_zoned o s e : forall fuel months,
  fullMonthsDiff_loop fuel (zoned o s) (zoned o e) months
  = OnClock.fullMonthsDiff_loop fuel s e months.
Proof.
  induction fuel as [ | fuel IH]; intros months; [reflexivity | ].
  cbn [fullMonthsDiff_loop OnClock.fullMonthsDiff_loop].
  rewrite AddDate_zoned, reached_zoned, IH. reflexivity.
Qed.

Lemma fullWeeksDiff_loop_zoned o s e : forall fuel weeks days,
  fullWeeksDiff_loop fuel (zoned o s) (zoned o e) weeks days
  = OnClock.fullWeeksDiff_loop fuel s e weeks days.
Proof.
  induction fuel as [ | fuel IH]; intros weeks days; [reflexivity | ].
  cbn [fullWeeksDiff_loop OnClock.fullWeeksDiff_loop].
  rewrite AddDate_zoned, reached_zoned, IH. reflexivity.
Qed.

Lemma fullDaysDiff_loop_zoned o s e : forall fuel days,
  fullDaysDiff_loop fuel (zoned o s) (zoned o e) days
  = OnClock.fullDaysDiff_loop fuel s e days.
Proof.
  induction fuel as [ | fuel IH]; intros days; [reflexivity | ].
  cbn [fullDaysDiff_loop OnClock.fullDaysDiff_loop].
  rewrite AddDate_zoned, reached_zoned, IH. reflexivity.
Qed.

Lemma iterations_zoned o s e :
  iterations (zoned o s) (zoned o e) = OnClock.iterations s e.
Proof.
  unfold iterations, OnClock.iterations. cbn [zoned time.nanos time.loc].
  change (offsetSpread (time.FixedZone o)) with (o - o).
  do 3 f_equal. unfold time.nsPerSecond. lia.
Qed.

Lemma fullMonthsDiff_zoned o s e :
  fullMonthsDiff (zoned o s) (zoned o e) = OnClock.fullMonthsDiff s e.
Proof.
  unfold fullMonthsDiff.
  rewrite fullMonthsDiff_loop_zoned, iterations_zoned.
  reflexivity.
Qed.

Lemma fullWeeksDiff_zoned o s e :
  fullWeeksDiff (zoned o s) (zoned o e) = OnClock.fullWeeksDiff s e.
Proof.
  unfold fullWeeksDiff.
  rewrite fullWeeksDiff_loop_zoned, iterations_zoned.
  reflexivity.
Qed.

Lemma fullDaysDiff_zoned o s e :
  fullDaysDiff (zoned o s) (zoned o e) = OnClock.fullDaysDiff s e.
Proof.
  unfold fullDaysDiff.
  rewrite fullDaysDiff_loop_zoned, iterations_zoned.
  reflexivity.
Qed.

Lemma newDiff_zoned o s e m :
  newDiff (zoned o s) (zoned o e) m = OnClock.newDiff s e m.
Proof.
  unfold newDiff, OnClock.newDiff. by_mode m;
    rewrite ?fullYearsDiff_zoned, ?AddDate_zoned, ?fullMonthsDiff_zoned,
            ?AddDate_zoned, ?fullWeeksDiff_zoned, ?AddDate_zoned,
            ?fullDaysDiff_zoned; exact eq_refl.
Qed.

Lemma advance_zoned o u s n :
  advance u (zoned o s) n = zoned o (OnClock.advance u s n).
Proof. destruct u; apply AddDate_zoned. Qed.

(** Times of one fixed zone are taken to their readings, and the package's
    functions to the counting on readings. *)
Ltac on_clock :=
  repeat match goal with
  | H : time.loc ?t = time.FixedZone ?o |- _ =>
      let r := fresh "r" in destruct (fixed_zoned t o H) as [r ->]; clear H
  end;
  repeat (progress (rewrite ?AddDate_zoned, ?advance_zoned, ?Year_zoned, ?Month_zoned,
                            ?Day_zoned, ?After_zoned, ?Equal_zoned, ?reached_zoned,
                            ?fullYearsDiff_zoned, ?fullMonthsDiff_zoned,
                            ?fullWeeksDiff_zoned, ?fullDaysDiff_zoned, ?newDiff_zoned
                      in * )).

(** *** The loops take the end date as an instant *)

Lemma reached_In t e l : reached t (time.In e l) = reached t e.
Proof. reflexivity. Qed.

Lemma fullMonthsDiff_loop_In s e l : forall fuel months,
  fullMonthsDiff_loop fuel s (time.In e l) months = fullMonthsDiff_loop fuel s e months.
Proof.
  induction fuel as [ | fuel IH]; intros months; [reflexivity | ].
  cbn [fullMonthsDiff_loop]. rewrite reached_In, IH. reflexivity.
Qed.

Lemma fullWeeksDiff_loop_In s e l : forall fuel weeks days,
  fullWeeksDiff_loop fuel s (time.In e l) weeks days
  = fullWeeksDiff_loop fuel s e weeks days.
Proof.
  induction fuel as [ | fuel IH]; intros weeks days; [reflexivity | ].
  cbn [fullWeeksDiff_loop]. rewrite reached_In, IH. reflexivity.
Qed.

Lemma fullDaysDiff_loop_In s e l : forall fuel days,
  fullDaysDiff_loop fuel s (time.In e l) days = fullDaysDiff_loop fuel s e days.
Proof.
  induction fuel as [ | fuel IH]; intros days; [reflexivity | ].
  cbn [fullDaysDiff_loop]. rewrite reached_In, IH. reflexivity.
Qed.

Lemma fullMonthsDiff_In s e l : fullMonthsDiff s (time.In e l) = fullMonthsDiff s e.
Proof. unfold fullMonthsDiff. rewrite fullMonthsDiff_loop_In. reflexivity. Qed.

Lemma fullWeeksDiff_In s e l : fullWeeksDiff s (time.In e l) = fullWeeksDiff s e.
Proof. unfold fullWeeksDiff. rewrite fullWeeksDiff_loop_In. reflexivity. Qed.

Lemma fullDaysDiff_In s e l : fullDaysDiff s (time.In e l) = fullDaysDiff s e.
Proof. unfold fullDaysDiff. rewrite fullDaysDiff_loop_In. reflexivity. Qed.

Lemma In_zoned e o :
  time.In e (time.FixedZone o)
  = zoned o (clock.mkTime (time.nanos e + o * time.nsPerSecond)).
Proof. apply Time_ext; [cbn; lia | reflexivity]. Qed.

Lemma newDiff_In s e l m :
  hasMode m ModeYears = false -> hasMode m ModeMonths = false ->
  newDiff s (time.In e l) m = newDiff s e m.
Proof.
  intros HY HM. unfold newDiff. rewrite HY, HM.
  destruct (hasMode m ModeWeeks), (hasMode m ModeDays);
    cbv beta iota zeta delta [Years Months Weeks Days rawFormat mode];
    rewrite ?fullWeeksDiff_In, ?fullDaysDiff_In; reflexivity.
Qed.

(** *** The fields of [newDiff], in any location *)

Lemma Years_newDiff start end_ m :
  Years (newDiff start end_ m) =
  if hasMode m ModeYears then fullYearsDiff start end_ else 0.
Proof. unfold newDiff. by_mode m; exact eq_refl. Qed.

Lemma Months_newDiff start end_ m :
  Months (newDiff start end_ m) =
  if hasMode m ModeMonths then
    if hasMode m ModeYears
    then fullMonthsDiff (time.AddDate (afterYears start end_ m) 0 0 0) end_
    else fullYearsDiff start end_ * monthsInYear
         + fullMonthsDiff (time.AddDate start (fullYearsDiff start end_) 0 0) end_
  else 0.
Proof.
  unfold afterYears, newDiff.
  by_mode m; rewrite ?Z.mul_0_l, ?Z.add_0_l; exact eq_refl.
Qed.

Lemma Weeks_newDiff start end_ m :
  Weeks (newDiff start end_ m) =
  if hasMode m ModeWeeks then fullWeeksDiff (afterMonths start end_ m) end_ else 0.
Proof.
  unfold afterMonths, afterYears. rewrite Months_newDiff. unfold afterYears, newDiff.
  by_mode m; rewrite ?Z.mul_0_l, ?Z.add_0_l; exact eq_refl.
Qed.

Lemma Days_newDiff start end_ m :
  Days (newDiff start end_ m) =
  if hasMode m ModeDays then fullDaysDiff (afterWeeks start end_ m) end_ else 0.
Proof.
  unfold afterWeeks. rewrite Weeks_newDiff.
  unfold afterMonths, afterYears. rewrite Months_newDiff. unfold afterYears, newDiff.
  by_mode m; rewrite ?Z.mul_0_l, ?Z.add_0_l; exact eq_refl.
Qed.

Lemma mode_newDiff start end_ m : mode (newDiff start end_ m) = m.
Proof. unfold newDiff. by_mode m; exact eq_refl. Qed.

Lemma rawFormat_newDiff start end_ m : rawFormat (newDiff start end_ m) = EmptyString.
Proof. unfold newDiff. by_mode m; exact eq_refl. Qed.

(** *** Instants and readings in any location *)

Lemma reached_iff t e : reached t e = true <-> time.nanos t <= time.nanos e.
Proof.
  unfold reached, time.Before, time.Equal. rewrite orb_true_iff, Z.ltb_lt, Z.eqb_eq. lia.
Qed.

Lemma reached_not t e : reached t e = false <-> time.nanos e < time.nanos t.
Proof. rewrite <- not_true_iff_false, reached_iff. lia. Qed.

Lemma After_iff t u : time.After t u = true <-> time.nanos u < time.nanos t.
Proof. unfold time.After. apply Z.ltb_lt. Qed.

Lemma After_not t u : time.After t u = false <-> time.nanos t <= time.nanos u.
Proof. unfold time.After. rewrite Z.ltb_ge. reflexivity. Qed.

Lemma lookupFrom_offset lo hi sec : forall tx offset start,
  lo <= offset <= hi ->
  Forall (fun t => lo <= snd t <= hi) tx ->
  lo <= fst (fst (time.lookupFrom tx offset start sec)) <= hi.
Proof.
  induction tx as [ | [when offset'] rest IH]; intros offset start Ho Htx;
    cbn [time.lookupFrom]; [exact Ho | ].
  inversion Htx as [ | ? ? Hhead Hrest]; subst.
  destruct (sec <? when); [exact Ho | ]. apply IH; assumption.
Qed.

Lemma offsets_between l :
  leastOffset l <= time.first l <= greatestOffset l
  /\ Forall (fun t => leastOffset l <= snd t <= greatestOffset l) (time.tx l).
Proof.
  unfold leastOffset, greatestOffset.
  induction (time.tx l) as [ | t rest IH]; cbn [fold_right]; [split; [lia | constructor] | ].
  destruct IH as [Hfirst Hrest]. split; [lia | ].
  constructor; [lia | ].
  eapply Forall_impl; [ | exact Hrest]. cbn. intros a Ha. lia.
Qed.

Lemma lookup_offset l sec :
  leastOffset l <= fst (fst (time.lookup l sec)) <= greatestOffset l.
Proof.
  destruct (offsets_between l) as [Hfirst Hrest].
  apply lookupFrom_offset; assumption.
Qed.

Lemma offsetSpread_nonneg l : 0 <= offsetSpread l.
Proof. unfold offsetSpread. destruct (offsets_between l) as [H _]. lia. Qed.

(** The reading of [t] is its instant with an offset of the location. *)
Lemma abs_offset t :
  clock.nanos (time.abs t) = time.nanos t + time.offset t * time.nsPerSecond
  /\ leastOffset (time.loc t) <= time.offset t <= greatestOffset (time.loc t).
Proof. split; [reflexivity | apply lookup_offset]. Qed.

(** [Date] takes an offset of the location off the reading asked for. *)
Lemma Date_offset year month day hour min sec nsec l :
  time.loc (time.Date year month day hour min sec nsec l) = l
  /\ exists offset,
       leastOffset l <= offset <= greatestOffset l
       /\ time.nanos (time.Date year month day hour min sec nsec l)
          = clock.nanos (clock.Date year month day hour min sec nsec)
            - offset * time.nsPerSecond.
Proof.
  unfold time.Date. cbv zeta.
  set (reading := clock.nanos (clock.Date year month day hour min sec nsec)).
  set (unix := reading / time.nsPerSecond - time.unixToInternal).
  pose proof (lookup_offset l unix) as H1.
  destruct (time.lookup l unix) as [[offset start] end_]. cbn [fst] in H1.
  pose proof (lookup_offset l (unix - offset)) as H2.
  cbn [time.loc time.nanos]. split; [reflexivity | ].
  destruct (offset =? 0); [exists offset; split; [exact H1 | reflexivity] | ].
  destruct (_ || _); eexists; (split; [ | reflexivity]); assumption.
Qed.

Lemma Nanosecond_abs t : clock.Nanosecond (time.abs t) = time.Nanosecond t.
Proof.
  unfold clock.Nanosecond, time.Nanosecond, time.abs. cbn [clock.nanos].
  unfold time.nsPerSecond. apply Z.mod_add. discriminate.
Qed.

Lemma AddDate_Date t years months days :
  time.AddDate t years months days
  = time.Date (clock.Year (time.abs t) + years) (clock.Month (time.abs t) + months)
              (clock.Day (time.abs t) + days) (clock.Hour (time.abs t))
              (clock.Minute (time.abs t)) (clock.Second (time.abs t))
              (clock.Nanosecond (time.abs t)) (time.loc t).
Proof.
  unfold time.AddDate, time.date, clock.Year, clock.Month, clock.Day.
  rewrite Nanosecond_abs.
  destruct (clock.date (time.abs t)) as [[year month] day]. reflexivity.
Qed.

Lemma clock_AddDate_Date r years months days :
  clock.AddDate r years months days
  = clock.Date (clock.Year r + years) (clock.Month r + months) (clock.Day r + days)
               (clock.Hour r) (clock.Minute r) (clock.Second r) (clock.Nanosecond r).
Proof.
  unfold clock.AddDate, clock.Year, clock.Month, clock.Day.
  destruct (clock.date r) as [[year month] day]. reflexivity.
Qed.

Lemma loc_AddDate t years months days :
  time.loc (time.AddDate t years months days) = time.loc t.
Proof. rewrite AddDate_Date. apply Date_offset. Qed.

(** [AddDate] moves the instant as it moves the reading, up to the
    difference of the two offsets taken off and put on. *)
Lemma AddDate_near t years months days :
  Z.abs (time.nanos (time.AddDate t years months days) - time.nanos t
         - (clock.nanos (clock.AddDate (time.abs t) years months days)
            - clock.nanos (time.abs t)))
  <= offsetSpread (time.loc t) * time.nsPerSecond.
Proof.
  rewrite AddDate_Date, clock_AddDate_Date.
  destruct (abs_offset t) as [H1 H1'].
  destruct (proj2 (Date_offset (clock.Year (time.abs t) + years)
                     (clock.Month (time.abs t) + months) (clock.Day (time.abs t) + days)
                     (clock.Hour (time.abs t)) (clock.Minute (time.abs t))
                     (clock.Second (time.abs t)) (clock.Nanosecond (time.abs t))
                     (time.loc t))) as (o2 & H2' & H2).
  rewrite H2, H1. unfold offsetSpread. rewrite nsPerSecond_eq. lia.
Qed.

(** *** The three counting loops run to their exit test, in any location *)

Lemma months_loop_count fuel start end_ : forall months,
  fullMonthsDiff_loop fuel start end_ months =
  count_loop fuel (fun j => reached (time.AddDate start 0 j 0) end_) months.
Proof.
  induction fuel as [ | fuel IH]; intros months; cbn; [reflexivity | ].
  rewrite IH. reflexivity.
Qed.

Lemma weeks_loop_count fuel start end_ : forall weeks,
  fullWeeksDiff_loop fuel start end_ weeks ((weeks + 1) * daysInWeek) =
  count_loop fuel (fun j => reached (time.AddDate start 0 0 (j * daysInWeek)) end_) weeks.
Proof.
  induction fuel as [ | fuel IH]; intros weeks; cbn [fullWeeksDiff_loop count_loop];
    [reflexivity | ].
  replace ((weeks + 1) * daysInWeek + daysInWeek) with ((weeks + 1 + 1) * daysInWeek) by lia.
  rewrite IH. reflexivity.
Qed.

Lemma weeks_loop_count0 fuel start end_ :
  fullWeeksDiff_loop fuel start end_ 0 daysInWeek =
  count_loop fuel (fun j => reached (time.AddDate start 0 0 (j * daysInWeek)) end_) 0.
Proof. apply (weeks_loop_count fuel start end_ 0). Qed.

Lemma days_loop_count fuel start end_ : forall days,
  fullDaysDiff_loop fuel start end_ days =
  count_loop fuel (fun j => reached (time.AddDate start 0 0 j) end_) days.
Proof.
  induction fuel as [ | fuel IH]; intros days; cbn; [reflexivity | ].
  rewrite IH. reflexivity.
Qed.

Lemma iterations_bound start end_ :
  time.nanos end_ - time.nanos start
  + offsetSpread (time.loc start) * time.nsPerSecond
  < Z.of_nat (iterations start end_) * time.nsPerDay.
Proof.
  unfold iterations. rewrite Nat2Z.inj_succ.
  change time.nsPerDay with 86400000000000.
  generalize (time.nanos end_ - time.nanos start
              + offsetSpread (time.loc start) * time.nsPerSecond). intros x.
  Z.div_mod_to_equations. lia.
Qed.

Lemma iterations_positive start end_ : (0 < iterations start end_)%nat.
Proof. unfold iterations. lia. Qed.

Lemma months_loop_fuel start end_ fuel :
  (iterations start end_ <= fuel)%nat ->
  fullMonthsDiff_loop fuel start end_ 0 = Some (fullMonthsDiff start end_).
Proof.
  intros Hfuel.
  destruct (count_loop_total (fun j => reached (time.AddDate start 0 j 0) end_)
              (iterations start end_) (iterations_positive _ _)) as [r Hr].
  { apply reached_not. pose proof (iterations_bound start end_) as Hi.
    pose proof (AddDate_near start 0 (Z.of_nat (iterations start end_)) 0) as Hn.
    pose proof (nanos_AddDate_months_ge (time.abs start)
                  (Z.of_nat (iterations start end_))) as Hm.
    change time.nsPerDay with 86400000000000 in Hi. rewrite nsPerDay_eq in Hm. lia. }
  unfold fullMonthsDiff. rewrite !months_loop_count, Hr.
  apply (count_loop_fuel _ _ _ _ _ Hr Hfuel).
Qed.

Lemma weeks_loop_fuel start end_ fuel :
  (iterations start end_ <= fuel)%nat ->
  fullWeeksDiff_loop fuel start end_ 0 daysInWeek = Some (fullWeeksDiff start end_).
Proof.
  intros Hfuel.
  destruct (count_loop_total
              (fun j => reached (time.AddDate start 0 0 (j * daysInWeek)) end_)
              (iterations start end_) (iterations_positive _ _)) as [r Hr].
  { apply reached_not. pose proof (iterations_bound start end_) as Hi.
    pose proof (AddDate_near start 0 0
                  (Z.of_nat (iterations start end_) * daysInWeek)) as Hn.
    rewrite nanos_AddDate_days in Hn. unfold daysInWeek in *.
    change time.nsPerDay with 86400000000000 in Hi. rewrite nsPerDay_eq in Hn. lia. }
  unfold fullWeeksDiff. rewrite !weeks_loop_count0, Hr.
  apply (count_loop_fuel _ _ _ _ _ Hr Hfuel).
Qed.

Lemma days_loop_fuel start end_ fuel :
  (iterations start end_ <= fuel)%nat ->
  fullDaysDiff_loop fuel start end_ 0 = Some (fullDaysDiff start end_).
Proof.
  intros Hfuel.
  destruct (count_loop_total (fun j => reached (time.AddDate start 0 0 j) end_)
              (iterations start end_) (iterations_positive _ _)) as [r Hr].
  { apply reached_not. pose proof (iterations_bound start end_) as Hi.
    pose proof (AddDate_near start 0 0 (Z.of_nat (iterations start end_))) as Hn.
    rewrite nanos_AddDate_days in Hn.
    change time.nsPerDay with 86400000000000 in Hi. rewrite nsPerDay_eq in Hn. lia. }
  unfold fullDaysDiff. rewrite !days_loop_count, Hr.
  apply (count_loop_fuel _ _ _ _ _ Hr Hfuel).
Qed.

(** *** A loop whose first probe is after the end counts nothing *)

Lemma fullMonthsDiff_none start end_ :
  time.nanos end_ < time.nanos (time.AddDate start 0 1 0) ->
  fullMonthsDiff start end_ = 0.
Proof.
  intros H. apply reached_not in H. unfold fullMonthsDiff, iterations.
  cbn [fullMonthsDiff_loop]. change (0 + 1) with 1. rewrite H. reflexivity.
Qed.

Lemma fullWeeksDiff_none start end_ :
  time.nanos end_ < time.nanos (time.AddDate start 0 0 daysInWeek) ->
  fullWeeksDiff start end_ = 0.
Proof.
  intros H. apply reached_not in H. unfold fullWeeksDiff, iterations.
  cbn [fullWeeksDiff_loop]. rewrite H. reflexivity.
Qed.

Lemma fullDaysDiff_none start end_ :
  time.nanos end_ < time.nanos (time.AddDate start 0 0 1) ->
  fullDaysDiff start end_ = 0.
Proof.
  intros H. apply reached_not in H. unfold fullDaysDiff, iterations.
  cbn [fullDaysDiff_loop]. change (0 + 1) with 1. rewrite H. reflexivity.
Qed.

(** *** Moving a time on moves it forward, where the offsets are close *)

Lemma AddDate_days_later t days :
  offsetSpread (time.loc t) * time.nsPerSecond < days * time.nsPerDay ->
  time.nanos t < time.nanos (time.AddDate t 0 0 days).
Proof.
  intros H. pose proof (AddDate_near t 0 0 days) as Hn.
  rewrite nanos_AddDate_days in Hn. unfold time.nsPerDay in H. lia.
Qed.

Lemma AddDate_month_later t :
  offsetSpread (time.loc t) * time.nsPerSecond < 28 * time.nsPerDay ->
  time.nanos t < time.nanos (time.AddDate t 0 1 0).
Proof.
  intros H. pose proof (AddDate_near t 0 1 0) as Hn.
  pose proof (nanos_AddDate_months_ge (time.abs t) 1) as Hm.
  unfold time.nsPerDay in H. lia.
Qed.

Lemma AddDate_nothing_fixed t o :
  time.loc t = time.FixedZone o -> time.AddDate t 0 0 0 = t.
Proof. intros H. on_clock. rewrite AddDate_zero. reflexivity. Qed.

Lemma offsetSpread_fixed t o : time.loc t = time.FixedZone o -> offsetSpread (time.loc t) = 0.
Proof. intros ->. unfold offsetSpread. cbn. lia. Qed.

(** *** Between a time and itself *)

Lemma fullYearsDiff_same_time t :
  time.AddDate t 0 0 0 = t -> fullYearsDiff t t = 0.
Proof.
  intros H. unfold fullYearsDiff. rewrite Z.sub_diag. cbv zeta. rewrite H.
  unfold time.After. rewrite Z.ltb_irrefl. reflexivity.
Qed.

Lemma newDiff_same_time t m :
  offsetSpread (time.loc t) < 86400 -> time.AddDate t 0 0 0 = t ->
  newDiff t t m = mkDiff 0 0 0 0 EmptyString m.
Proof.
  intros Hspread H0.
  assert (Hs : offsetSpread (time.loc t) * time.nsPerSecond < 1 * time.nsPerDay).
  { rewrite nsPerSecond_eq. change time.nsPerDay with 86400000000000. lia. }
  assert (HfY : fullYearsDiff t t = 0) by (apply fullYearsDiff_same_time, H0).
  assert (HfM : fullMonthsDiff t t = 0).
  { apply fullMonthsDiff_none, AddDate_month_later.
    change time.nsPerDay with 86400000000000 in *. lia. }
  assert (HfW : fullWeeksDiff t t = 0).
  { apply fullWeeksDiff_none, AddDate_days_later. unfold daysInWeek.
    change time.nsPerDay with 86400000000000 in *. lia. }
  assert (HfD : fullDaysDiff t t = 0).
  { apply fullDaysDiff_none, AddDate_days_later, Hs. }
  assert (HcY : afterYears t t m = t).
  { unfold afterYears. rewrite HfY, H0. destruct (hasMode _ _); reflexivity. }
  assert (HM : Months (newDiff t t m) = 0).
  { rewrite Months_newDiff, HcY, HfY, H0, HfM. destruct (hasMode m ModeMonths),
      (hasMode m ModeYears); reflexivity. }
  assert (HcM : afterMonths t t m = t).
  { unfold afterMonths. rewrite HM, HcY, H0. destruct (hasMode _ _); reflexivity. }
  assert (HW : Weeks (newDiff t t m) = 0).
  { rewrite Weeks_newDiff, HcM, HfW. destruct (hasMode _ _); reflexivity. }
  assert (HcW : afterWeeks t t m = t).
  { unfold afterWeeks. rewrite HW, HcM. change (0 * daysInWeek) with 0. rewrite H0.
    destruct (hasMode _ _); reflexivity. }
  rewrite (Diff_eta (newDiff t t m)), HM, HW, Years_newDiff, Days_newDiff, HcW, HfY, HfD,
    mode_newDiff, rawFormat_newDiff.
  destruct (hasMode m ModeYears), (hasMode m ModeDays); reflexivity.
Qed.

End ZoneFacts.

(* ================================================================== *)
(** ** Decomposition: totals, boundaries, monotonicity *)
(* ================================================================== *)

Import Calendar CalendarFacts DiffFacts ZoneFacts.

(** C1. With Months selected and Years not, [newDiff] reports twelve times
    the year count of [fullYearsDiff] plus the months the loop counts from
    the year-advanced cursor to end, for any two times: the months add up
    over the years and are not a remainder below twelve. For start not
    after end, both in one fixed zone, the year count is the number of
    whole years from start to end and the loop count the number of whole
    months from the cursor to end; and after exactly [n] years the months
    are [12 * n]. *)
Theorem months_alone_total (start end_ : time.Time) (m : DiffMode) :
  hasMode m ModeMonths = true -> hasMode m ModeYears = false ->
  let years := fullYearsDiff start end_ in
  let cursor := time.AddDate start years 0 0 in
  let months := fullMonthsDiff cursor end_ in
  Months (newDiff start end_ m) = years * 12 + months
  /\ (forall o,
        time.loc start = time.FixedZone o -> time.loc end_ = time.FixedZone o ->
        time.After start end_ = false ->
        0 <= years
        /\ reached cursor end_ = true
        /\ reached (time.AddDate start (years + 1) 0 0) end_ = false
        /\ 0 <= months
        /\ reached (time.AddDate cursor 0 months 0) end_ = true
        /\ reached (time.AddDate cursor 0 (months + 1) 0) end_ = false)
  /\ (forall o n,
        time.loc start = time.FixedZone o -> 0 <= n ->
        Months (newDiff start (time.AddDate start n 0 0) m) = 12 * n).
Proof.
  intros HM HY. cbv zeta. split; [ | split].
  - rewrite Months_newDiff, HM, HY. reflexivity.
  - intros o Hs He Hord. on_clock.
    destruct (clock_months_alone_total r0 r m Hord HM HY) as (_ & H).
    cbv zeta in H. tauto.
  - intros o n Hs Hn. on_clock.
    destruct (clock_months_alone_total r r m (After_irrefl r) HM HY)
      as (_ & _ & _ & _ & _ & _ & _ & H).
    apply H, Hn.
Qed.

Lemma months_alone_total_witness :
  Months (newDiff (time.Date 2000 4 17 0 0 0 0 time.UTC)
                  (time.Date 2003 3 16 0 0 0 0 time.UTC) ModeMonths) = 2 * 12 + 10
  /\ Months (newDiff (time.Date 2000 4 17 0 0 0 0 time.UTC)
                     (time.AddDate (time.Date 2000 4 17 0 0 0 0 time.UTC) 3 0 0)
                     ModeMonths) = 36.
Proof.
  pose proof (months_alone_total
                (time.Date 2000 4 17 0 0 0 0 time.UTC)
                (time.Date 2003 3 16 0 0 0 0 time.UTC)
                ModeMonths eq_refl eq_refl) as H.
  cbv zeta in H. destruct H as (Heq & _ & Hyears).
  split.
  - rewrite Heq. vm_compute. reflexivity.
  - rewrite (Hyears 0 3 eq_refl) by lia. reflexivity.
Defined.




(** The year shortcut of the months block, from February 29: thirteen
    months on from 2000-02-29 are reported as twelve, while the loop run
    from the start itself counts thirteen. *)
Lemma months_from_feb29 :
  Months (newDiff (time.Date 2000 2 29 0 0 0 0 time.UTC)
                  (time.AddDate (time.Date 2000 2 29 0 0 0 0 time.UTC) 0 13 0)
                  ModeMonths) = 12
  /\ fullMonthsDiff (time.Date 2000 2 29 0 0 0 0 time.UTC)
                    (time.AddDate (time.Date 2000 2 29 0 0 0 0 time.UTC) 0 13 0) = 13.
Proof. split; vm_compute; reflexivity. Qed.





(* ================================================================== *)
(** ** Parsing a format string *)
(* ================================================================== *)

Import UnmarshalFacts.

(** C4, as the code has it. For a format string that does not end in a
    percent sign: parsing fails with the unknown-verb error, carrying the
    string and the character after the first percent sign that no verb
    letter follows, exactly when there is such a percent sign; it fails
    with the undefined-mode error exactly when there is none and no verb
    either; and it returns the set of the verbs found, which is not empty,
    exactly when there is none and some verb occurs. *)
Theorem unmarshal_outcomes (s : string) :
  lastChar s <> Some "%"%char ->
  (forall f c, unmarshal s = Err (errUnknownVerb f c)
               <-> f = s /\ firstUnknownVerb s c)
  /\ ((exists c, unmarshal s = Err (errUnknownVerb s c))
      <-> exists i c, unknownVerbAt s i c)
  /\ (unmarshal s = Err errUndefinedDiffMode
      <-> noUnknownVerb s /\ ~ exists i c, verbAt s i c)
  /\ (forall m, unmarshal s = Ok m
                <-> noUnknownVerb s /\ (exists i c, verbAt s i c)
                    /\ m = unitsFound s)
  /\ (forall m, unmarshal s = Ok m -> m <> 0).
Proof.
  intros Hlast. pose proof (unmarshal_spec s) as Hs.
  pose proof (unitsFound_verbAt s) as Hv.
  destruct (unmarshal s) as [m | [ | | f c] | i n].
  - destruct Hs as (Hno & _ & -> & Hnz).
    split; [ | split; [ | split; [ | split]]].
    + intros f c. split; [intros H; discriminate H | ].
      intros [_ (i & Hi & _)]. exfalso. exact (Hno i c Hi).
    + split; [intros [c H]; discriminate H | ].
      intros (i & c & Hi). exfalso. exact (Hno i c Hi).
    + split; [intros H; discriminate H | ]. intros [_ H]. tauto.
    + intros m. split.
      * intros H. injection H as <-. tauto.
      * intros (_ & _ & ->). reflexivity.
    + intros m H. injection H as <-. exact Hnz.
  - contradiction.
  - destruct Hs as (Hno & _ & Hz).
    split; [ | split; [ | split; [ | split]]].
    + intros f c. split; [intros H; discriminate H | ].
      intros [_ (i & Hi & _)]. exfalso. exact (Hno i c Hi).
    + split; [intros [c H]; discriminate H | ].
      intros (i & c & Hi). exfalso. exact (Hno i c Hi).
    + split; [ | reflexivity]. intros _. split; [exact Hno | ]. tauto.
    + intros m. split; [intros H; discriminate H | ]. intros (_ & H & _). tauto.
    + intros m H. discriminate H.
  - destruct Hs as [-> Hfirst].
    assert (Hex : exists i c', unknownVerbAt s i c').
    { destruct Hfirst as (i & Hi & _). exists i, c. exact Hi. }
    split; [ | split; [ | split; [ | split]]].
    + intros f c'. split.
      * intros H. injection H as <- <-. tauto.
      * intros [-> H]. rewrite (firstUnknownVerb_unique s c c' Hfirst H). reflexivity.
    + split; [intros _; exact Hex | ]. intros _. exists c. reflexivity.
    + split; [intros H; discriminate H | ].
      intros [Hno _]. destruct Hex as (i & c' & Hi). exfalso. exact (Hno i c' Hi).
    + intros m. split; [intros H; discriminate H | ].
      intros (Hno & _). destruct Hex as (i & c' & Hi). exfalso. exact (Hno i c' Hi).
    + intros m H. discriminate H.
  - destruct Hs as (_ & _ & _ & H). contradiction.
Qed.

Lemma unmarshal_outcomes_witness :
  unmarshal "%Y %M %D" = Ok (unitsFound "%Y %M %D")
  /\ unmarshal "%X%L %S" = Err (errUnknownVerb "%X%L %S" "X")
  /\ unmarshal "Years and months" = Err errUndefinedDiffMode.
Proof.
  split; [ | split; reflexivity].
  apply (proj1 (proj2 (proj2 (proj2 (unmarshal_outcomes "%Y %M %D" ltac:(discriminate))))) _).
  pose proof (unmarshal_spec "%Y %M %D") as H. vm_compute unmarshal in H.
  destruct H as (Hno & _ & _ & Hnz).
  split; [exact Hno | ]. split; [ | reflexivity].
  exists 0%nat, "Y"%char. split; [reflexivity | ]. split; [reflexivity | ].
  cbn. tauto.
Defined.

(** C4 as stated fails on the string "%X": no verb occurs in it, and the
    parser reports the unknown verb, not the empty unit set. *)
Lemma unknown_verb_precedes_empty_set : ~ parsesAsStated "%X".
Proof.
  intros (_ & [_ H] & _).
  assert (Hun : unmarshal "%X" = Err errUndefinedDiffMode).
  { apply H. intros (i & c & H0 & H1 & Hin).
    destruct i as [ | [ | i]]; cbn in H0, H1; try discriminate H0.
    injection H1 as <-. cbn in Hin. intuition discriminate. }
  discriminate Hun.
Qed.

(** C9. A format string in which every percent sign before the last
    character is followed by a verb letter, and whose last character is a
    percent sign, makes [unmarshal] index the string at its length: the
    call panics and returns nothing. *)
Theorem unmarshal_trailing_percent_panics (s : string) :
  noUnknownVerb s -> lastChar s = Some "%"%char ->
  unmarshal s = Panic (String.length s) (String.length s).
Proof.
  intros Hno Hlast. pose proof (unmarshal_spec s) as Hs.
  destruct (unmarshal s) as [m | [ | | f c] | i n].
  - destruct Hs as (_ & H & _). contradiction.
  - contradiction.
  - destruct Hs as (_ & H & _). contradiction.
  - destruct Hs as [_ (i & Hi & _)]. exfalso. exact (Hno i c Hi).
  - destruct Hs as (-> & -> & _). reflexivity.
Qed.

Lemma unmarshal_trailing_percent_panics_witness :
  unmarshal "%Y %" = Panic 4 4.
Proof.
  apply (unmarshal_trailing_percent_panics "%Y %").
  - intros i c (H0 & H1 & Hin).
    destruct i as [ | [ | [ | [ | i]]]]; cbn in H0, H1; try discriminate H0;
      try discriminate H1.
    injection H1 as <-. apply Hin. cbn. tauto.
  - reflexivity.
Defined.

(* ================================================================== *)
(** ** The constructors and [Equal] *)
(* ================================================================== *)

(** C5, as the code has it. Both constructors fail with
    [errStartIsAfterEnd] exactly when start is after end, whatever the
    locations and the format string are. Equal start and end held in one
    location are accepted and give four zero counts, when the offsets of
    the location differ by less than a day and [AddDate] by nothing leaves
    the time as it is; every time of a fixed zone is such a time. *)
Theorem start_after_end_rejected :
  (forall start end_ rawFormat,
     NewDiff start end_ rawFormat = Err errStartIsAfterEnd
     <-> time.After start end_ = true)
  /\ (forall start end_ m,
        NewDiffWithMode start end_ m = Err errStartIsAfterEnd
        <-> time.After start end_ = true)
  /\ (forall start end_ m,
        time.Equal start end_ = true -> time.loc start = time.loc end_ ->
        offsetSpread (time.loc start) < 86400 ->
        time.AddDate start 0 0 0 = start ->
        NewDiffWithMode start end_ m = Ok (mkDiff 0 0 0 0 EmptyString m))
  /\ (forall start end_ rawFormat m,
        time.Equal start end_ = true -> time.loc start = time.loc end_ ->
        offsetSpread (time.loc start) < 86400 ->
        time.AddDate start 0 0 0 = start ->
        unmarshal rawFormat = Ok m ->
        NewDiff start end_ rawFormat = Ok (mkDiff 0 0 0 0 rawFormat m))
  /\ (forall o t,
        time.loc t = time.FixedZone o ->
        offsetSpread (time.loc t) < 86400 /\ time.AddDate t 0 0 0 = t).
Proof.
  assert (Hzero : forall start end_ m,
            time.Equal start end_ = true -> time.loc start = time.loc end_ ->
            offsetSpread (time.loc start) < 86400 ->
            time.AddDate start 0 0 0 = start ->
            time.After start end_ = false
            /\ newDiff start end_ m = mkDiff 0 0 0 0 EmptyString m).
  { intros start end_ m Heq Hloc Hspread H0.
    assert (He : end_ = start).
    { apply Time_ext; [ | congruence]. apply Z.eqb_eq in Heq. congruence. }
    subst end_. split; [apply Z.ltb_irrefl | apply newDiff_same_time; assumption]. }
  repeat apply conj.
  - intros start end_ f. unfold NewDiff.
    destruct (time.After start end_); [tauto | ].
    pose proof (unmarshal_not_after f) as Hf.
    destruct (unmarshal f) as [m | e | i n]; split; intros H;
      try discriminate H. injection H as ->. contradiction.
  - intros start end_ m. unfold NewDiffWithMode.
    destruct (time.After start end_); [tauto | ].
    split; intros H; discriminate H.
  - intros start end_ m Heq Hloc Hspread H0. unfold NewDiffWithMode.
    destruct (Hzero start end_ m Heq Hloc Hspread H0) as [Hord Hd]. rewrite Hord, Hd.
    reflexivity.
  - intros start end_ f m Heq Hloc Hspread H0 H. unfold NewDiff, withRawFormat.
    destruct (Hzero start end_ m Heq Hloc Hspread H0) as [Hord Hd]. rewrite Hord, H, Hd.
    reflexivity.
  - intros o t Ht. split; [ | apply (AddDate_nothing_fixed t o Ht)].
    rewrite (offsetSpread_fixed t o Ht). lia.
Qed.

Lemma start_after_end_rejected_witness :
  NewDiff (time.Date 2021 7 1 12 0 0 0 easternTime2021)
          (time.Date 2021 7 1 12 0 0 0 easternTime2021) "%Y %M %D"
  = Ok (mkDiff 0 0 0 0 "%Y %M %D" (Z.lor (Z.lor ModeYears ModeMonths) ModeDays)).
Proof.
  apply (proj1 (proj2 (proj2 (proj2 start_after_end_rejected))));
    vm_compute; reflexivity.
Defined.

(** C5 as stated fails. Equal instants held in different locations:
    2001-01-01 00:30 at +14:00 and the same instant in UTC, where the
    clock shows 2000-12-31 10:30, give -1 year. And one and the same time
    where the clock shows an hour twice: the first 02:30 of 2021-10-31 in
    Central European Time gives -1 year with itself. *)
Lemma equal_dates_minus_one_year :
  ~ zeroWhenEqual ModeYears
      (time.Date 2001 1 1 0 30 0 0 (time.FixedZone 50400))
      (time.In (time.Date 2001 1 1 0 30 0 0 (time.FixedZone 50400)) time.UTC)
  /\ ~ zeroWhenEqual ModeYears
         (time.In (time.Date 2021 10 31 0 30 0 0 time.UTC) centralEurope2021)
         (time.In (time.Date 2021 10 31 0 30 0 0 time.UTC) centralEurope2021).
Proof.
  split; intros H; specialize (H eq_refl); vm_compute in H; discriminate H.
Qed.

(** The year of each date is read off its own clock: the two equal
    instants of the first case are in 2001 and in 2000. *)
Lemma equal_instants_two_years :
  let start := time.Date 2001 1 1 0 30 0 0 (time.FixedZone 50400) in
  let end_ := time.In start time.UTC in
  time.Equal start end_ = true
  /\ time.Year start = 2001 /\ time.Year end_ = 2000
  /\ NewDiffWithMode start end_ ModeYears
     = Ok (mkDiff (-1) 0 0 0 EmptyString ModeYears).
Proof. repeat split; vm_compute; reflexivity. Qed.

(** In Central European Time the clock shows 02:30 twice on 2021-10-31;
    for the first of the two, [AddDate] by nothing gives the second, as the
    standard library resolves such a reading in a zone east of UTC, which
    is after it, and -1 year is reported. *)
Lemma same_time_minus_one_year :
  let t := time.In (time.Date 2021 10 31 0 30 0 0 time.UTC) centralEurope2021 in
  (time.Hour t, time.Minute t, time.offset t) = (2, 30, 7200)
  /\ time.After (time.AddDate t 0 0 0) t = true
  /\ NewDiffWithMode t t ModeYears = Ok (mkDiff (-1) 0 0 0 EmptyString ModeYears).
Proof. repeat split; vm_compute; reflexivity. Qed.

(** C8. [Equal] holds exactly when the four counts agree; the format
    string and the mode are not looked at, so two results over the same
    dates from format strings with the same verbs are equal. *)
Theorem Equal_counts_only :
  (forall d other,
     Equal d other = true
     <-> Years d = Years other /\ Months d = Months other
         /\ Weeks d = Weeks other /\ Days d = Days other)
  /\ (forall start end_ f1 f2 m,
        time.After start end_ = false ->
        unmarshal f1 = Ok m -> unmarshal f2 = Ok m ->
        exists d1 d2,
          NewDiff start end_ f1 = Ok d1 /\ NewDiff start end_ f2 = Ok d2
          /\ rawFormat d1 = f1 /\ rawFormat d2 = f2
          /\ Equal d1 d2 = true).
Proof.
  assert (Hiff : forall d other,
     Equal d other = true
     <-> Years d = Years other /\ Months d = Months other
         /\ Weeks d = Weeks other /\ Days d = Days other).
  { intros d other. unfold Equal. rewrite !andb_true_iff, !Z.eqb_eq. tauto. }
  split; [exact Hiff | ].
  intros start end_ f1 f2 m Hord H1 H2. unfold NewDiff. rewrite Hord, H1, H2.
  eexists _, _. repeat split. apply Hiff. repeat split.
Qed.

Lemma Equal_counts_only_witness :
  exists d1 d2,
    NewDiff (time.Date 2000 10 1 0 0 0 0 time.UTC) (time.Date 2010 11 30 0 0 0 0 time.UTC)
            "%Y %M %D" = Ok d1
    /\ NewDiff (time.Date 2000 10 1 0 0 0 0 time.UTC) (time.Date 2010 11 30 0 0 0 0 time.UTC)
               "%D days, %M and %Y" = Ok d2
    /\ rawFormat d1 = "%Y %M %D"%string /\ rawFormat d2 = "%D days, %M and %Y"%string
    /\ Equal d1 d2 = true.
Proof.
  apply (proj2 Equal_counts_only _ _ _ _ (Z.lor (Z.lor ModeYears ModeMonths) ModeDays));
    reflexivity.
Defined.

(** C10. Construction by mode accepts the empty unit set, mode 0, and any
    mode without one of the four flags: for start not after end it returns
    a result with four zero counts. Construction by format string never
    ends with an empty unit set: a string without a verb is an error. *)
Theorem empty_mode_accepted :
  (forall start end_ m,
     time.After start end_ = false ->
     hasMode m ModeYears = false -> hasMode m ModeMonths = false ->
     hasMode m ModeWeeks = false -> hasMode m ModeDays = false ->
     NewDiffWithMode start end_ m = Ok (mkDiff 0 0 0 0 EmptyString m))
  /\ (forall start end_,
        time.After start end_ = false ->
        NewDiffWithMode start end_ 0 = Ok (mkDiff 0 0 0 0 EmptyString 0))
  /\ (forall start end_ rawFormat d,
        NewDiff start end_ rawFormat = Ok d -> mode d <> 0)
  /\ (forall start end_ rawFormat,
        time.After start end_ = false ->
        (forall i, String.get i rawFormat <> Some "%"%char) ->
        NewDiff start end_ rawFormat = Err errUndefinedDiffMode).
Proof.
  assert (Hgen : forall start end_ m,
     time.After start end_ = false ->
     hasMode m ModeYears = false -> hasMode m ModeMonths = false ->
     hasMode m ModeWeeks = false -> hasMode m ModeDays = false ->
     NewDiffWithMode start end_ m = Ok (mkDiff 0 0 0 0 EmptyString m)).
  { intros start end_ m Hord HY HM HW HD. unfold NewDiffWithMode, newDiff.
    rewrite Hord, HY, HM, HW, HD. reflexivity. }
  split; [exact Hgen | ]. split; [ | split].
  - intros start end_ Hord. apply Hgen; [assumption | reflexivity ..].
  - intros start end_ f d H. unfold NewDiff in H.
    destruct (time.After start end_); [discriminate H | ].
    destruct (unmarshal f) as [m | e | i n] eqn:E; try discriminate H.
    injection H as <-. unfold withRawFormat. cbn [mode].
    rewrite mode_newDiff. exact (unmarshal_Ok_nonzero f m E).
  - intros start end_ f Hord Hno. unfold NewDiff. rewrite Hord.
    pose proof (unmarshal_spec f) as Hs.
    destruct (unmarshal f) as [m | [ | | f' c] | i n].
    + destruct Hs as (_ & _ & -> & Hnz). apply unitsFound_verbAt in Hnz.
      destruct Hnz as (i & c & Hi & _). exfalso. exact (Hno i Hi).
    + contradiction.
    + reflexivity.
    + destruct Hs as [_ (i & (Hi & _) & _)]. exfalso. exact (Hno i Hi).
    + destruct Hs as (_ & _ & _ & Hlast). exfalso.
      clear - Hno Hlast. induction f as [ | c f IH]; [discriminate Hlast | ].
      destruct f as [ | c' f'].
      * cbn in Hlast. injection Hlast as ->. exact (Hno 0%nat eq_refl).
      * apply IH; [ | exact Hlast]. intros i. exact (Hno (S i)).
Qed.

Lemma empty_mode_accepted_witness :
  NewDiffWithMode (time.Date 2000 10 1 0 0 0 0 time.UTC) (time.Date 2010 11 30 0 0 0 0 time.UTC) 0
  = Ok (mkDiff 0 0 0 0 EmptyString 0)
  /\ NewDiff (time.Date 2000 10 1 0 0 0 0 time.UTC) (time.Date 2010 11 30 0 0 0 0 time.UTC) "   "
     = Err errUndefinedDiffMode.
Proof.
  split.
  - apply (proj1 (proj2 empty_mode_accepted)). reflexivity.
  - apply (proj2 (proj2 (proj2 empty_mode_accepted))); [reflexivity | ].
    intros i H. destruct i as [ | [ | [ | i]]]; discriminate H.
Defined.


(* ================================================================== *)
(** ** Rendering a result *)
(* ================================================================== *)

Import RenderFacts.

(** C6, as the code has it. For a format string the parser accepts and any
    order in which [frmt] visits the map: rendering with zeros replaces
    every verb by its text; and when the format string has no two spaces
    in a row, rendering without zeros leaves out each verb whose count is
    0 with the one space right before it, replaces the other verbs, and
    its result has no two spaces in a row either. *)
Theorem rendering_matches_spec (order : list (string * string)) (d : Diff)
    (rawFormat : string) (m : DiffMode) :
  Permutation order formatUnits ->
  unmarshal rawFormat = Ok m ->
  formatWithZeros order d rawFormat = specRender false d rawFormat
  /\ FormatWithZeros order d rawFormat = Ok (specRender false d rawFormat)
  /\ (strings.Contains rawFormat "  " = false ->
      format order d rawFormat = specRender true d rawFormat
      /\ Format order d rawFormat = Ok (specRender true d rawFormat)
      /\ strings.Contains (specRender true d rawFormat) "  " = false).
Proof.
  intros Hp Hm. destruct (unmarshal_tokens _ _ Hm) as [Hwf Hflat].
  set (toks := tokenize rawFormat) in *.
  assert (HZ : formatWithZeros order d rawFormat = specRender false d rawFormat).
  { rewrite formatWithZeros_replaceWith, <- Hflat.
    rewrite frmt_pass by (try assumption; discriminate).
    symmetry. apply specRender_tokens, Hwf. }
  split; [exact HZ | ]. split.
  { unfold FormatWithZeros. rewrite Hm, HZ. reflexivity. }
  intros Hnds.
  assert (HF : format order d rawFormat = specRender true d rawFormat).
  { rewrite format_replaceWith, <- Hflat.
    rewrite frmt_pass; try assumption.
    - symmetry. apply specRender_tokens, Hwf.
    - intros _. rewrite Hflat. exact Hnds. }
  split; [exact HF | ]. split.
  { unfold Format. rewrite Hm, HF. reflexivity. }
  rewrite <- Hflat, (specRender_tokens _ _ _ Hwf).
  apply noDoubleSpace_spec_pass; [exact Hwf | ]. rewrite Hflat. exact Hnds.
Qed.

Lemma rendering_matches_spec_witness :
  format formatUnits (mkDiff 10 0 0 29 EmptyString 0) "%Y %M %D"
  = "10 years 29 days"%string
  /\ formatWithZeros formatUnits (mkDiff 10 0 0 29 EmptyString 0) "%Y %M %D"
     = "10 years 0 months 29 days"%string.
Proof.
  destruct (rendering_matches_spec formatUnits (mkDiff 10 0 0 29 EmptyString 0)
              "%Y %M %D" (Z.lor (Z.lor ModeYears ModeMonths) ModeDays)
              (Permutation_refl _) eq_refl) as (HZ & _ & HF).
  destruct (HF eq_refl) as (HF' & _).
  split; [rewrite HF' | rewrite HZ]; reflexivity.
Defined.

(** C6 as stated fails where the format string has two spaces before a
    verb whose count is 0: one space goes with the verb, and the result
    has two spaces in a row. *)
Lemma elision_takes_one_space_only :
  ~ rendersAsStated formatUnits (mkDiff 10 0 0 29 EmptyString 0) "%Y  %M %D".
Proof. intros (_ & H & _). vm_compute in H. discriminate H. Qed.

(** With two spaces before two adjacent verbs that both count 0, the
    result of [format] depends on the order in which the map is visited. *)
Lemma format_depends_on_order :
  format formatUnits (mkDiff 0 0 0 0 EmptyString 0) "a  %Y%M" = "a"%string
  /\ format (rev formatUnits) (mkDiff 0 0 0 0 EmptyString 0) "a  %Y%M" = "a "%string.
Proof. split; reflexivity. Qed.

(** C7. The text put in the place of a verb of [formatUnits]: for an
    upper-case verb the number, a space and the unit name, with an "s"
    unless the number is 1; for a lower-case verb the number alone. Every
    occurrence of the verb gets this text. *)
Theorem verb_text_plural (n : Z) (verb unit : string) :
  0 <= n -> In (verb, unit) formatUnits ->
  let v := verbLetter verb in
  (unicode.IsUpper v = true ->
   replacement n verb unit =
   (strconv.Itoa n ++ " " ++ unit ++ (if (n =? 1)%Z then "" else "s"))%string)
  /\ (unicode.IsUpper v = false -> replacement n verb unit = strconv.Itoa n)
  /\ unicode.IsUpper v = specUpper v
  /\ replacement n verb unit = specVerbText n v
  /\ forall s, verbReplace s n verb unit = substVerb v (replacement n verb unit) s.
Proof.
  intros _ He. cbv zeta.
  pose proof (entry_verb _ He) as Hverb. pose proof (entry_letter _ He) as Hv.
  pose proof (entry_text n _ He) as Htext. cbn [fst snd] in *.
  repeat apply conj.
  - intros Hup. unfold replacement, formatNoun. rewrite Hup. reflexivity.
  - intros Hlow. unfold replacement. rewrite Hlow. reflexivity.
  - clear - Hv. revert Hv. generalize (verbLetter verb).
    apply letter_cases; reflexivity.
  - exact Htext.
  - intros s. unfold verbReplace. rewrite Hverb at 1.
    apply ReplaceAll_substVerb, letter_not_percent, Hv.
Qed.

Lemma verb_text_plural_witness :
  replacement 1 "%M" "month" = "1 month"%string
  /\ replacement 0 "%M" "month" = "0 months"%string
  /\ replacement 29 "%d" "day" = "29"%string
  /\ verbReplace "%M and %M" 2 "%M" "month" = "2 months and 2 months"%string.
Proof.
  pose proof (verb_text_plural 1 "%M" "month" ltac:(lia) ltac:(cbn; tauto)) as H1.
  pose proof (verb_text_plural 0 "%M" "month" ltac:(lia) ltac:(cbn; tauto)) as H0.
  pose proof (verb_text_plural 29 "%d" "day" ltac:(lia) ltac:(cbn; tauto)) as H29.
  pose proof (verb_text_plural 2 "%M" "month" ltac:(lia) ltac:(cbn; tauto)) as H2.
  cbv zeta in *.
  destruct H1 as (H1 & _), H0 as (H0 & _), H29 as (_ & H29 & _),
           H2 as (_ & _ & _ & _ & H2).
  repeat apply conj.
  - rewrite H1 by reflexivity. reflexivity.
  - rewrite H0 by reflexivity. reflexivity.
  - rewrite H29 by reflexivity. reflexivity.
  - rewrite H2. reflexivity.
Defined.

(* ================================================================== *)
(** ** Further properties of the counting functions and of [newDiff] *)
(* ================================================================== *)

(** X1. For a start in a fixed zone and an end in any location,
    [fullDaysDiff] counts the whole 24-hour periods from start to end, and
    0 when end is before start. *)
Theorem fullDaysDiff_whole_days (o : Z) (start end_ : time.Time) :
  time.loc start = time.FixedZone o ->
  fullDaysDiff start end_
  = Z.max 0 ((time.nanos end_ - time.nanos start) / time.nsPerDay).
Proof.
  intros Hs. rewrite <- (fullDaysDiff_In start end_ (time.FixedZone o)), In_zoned.
  on_clock. rewrite fullDaysDiff_eq. cbn [clock.nanos zoned time.nanos].
  unfold time.nsPerDay. do 2 f_equal. lia.
Qed.

Lemma fullDaysDiff_whole_days_witness :
  fullDaysDiff (time.Date 2021 3 13 12 0 0 0 (time.FixedZone (-18000)))
               (time.Date 2021 3 14 12 0 0 0 easternTime2021) = 0.
Proof.
  rewrite (fullDaysDiff_whole_days (-18000)); [ | reflexivity].
  vm_compute. reflexivity.
Defined.

(** Where the clock of the start changes its offset, a day of [AddDate]
    need not be 24 hours: in Eastern Time, from noon of 2021-03-13 to noon
    of 2021-03-14 are 23 hours and one day. *)
Lemma days_across_clock_change :
  let start := time.Date 2021 3 13 12 0 0 0 easternTime2021 in
  let end_ := time.Date 2021 3 14 12 0 0 0 easternTime2021 in
  time.nanos end_ - time.nanos start = 23 * clock.nsPerHour
  /\ fullDaysDiff start end_ = 1
  /\ fullDaysDiff_loop 2 start end_ 0 = Some 1.
Proof. repeat split; vm_compute; reflexivity. Qed.

(** X2. For a start in a fixed zone and an end in any location,
    [fullWeeksDiff] counts the whole periods of seven times 24 hours from
    start to end, and 0 when end is before start. *)
Theorem fullWeeksDiff_whole_weeks (o : Z) (start end_ : time.Time) :
  time.loc start = time.FixedZone o ->
  fullWeeksDiff start end_
  = Z.max 0 ((time.nanos end_ - time.nanos start) / (daysInWeek * time.nsPerDay)).
Proof.
  intros Hs. rewrite <- (fullWeeksDiff_In start end_ (time.FixedZone o)), In_zoned.
  on_clock. rewrite fullWeeksDiff_eq. cbn [clock.nanos zoned time.nanos].
  unfold time.nsPerDay. do 2 f_equal. lia.
Qed.

Lemma fullWeeksDiff_whole_weeks_witness :
  fullWeeksDiff (time.Date 2021 3 1 12 0 0 0 (time.FixedZone 3600))
                (time.Date 2021 3 16 11 0 0 0 time.UTC) = 2.
Proof.
  rewrite (fullWeeksDiff_whole_weeks 3600); [ | reflexivity].
  vm_compute. reflexivity.
Defined.

(** X3. For start and end in one fixed zone, [fullYearsDiff] is the one
    number of years [y] for which start moved on by [y] years is not after
    end and start moved on by [y + 1] years is. *)
Theorem fullYearsDiff_bracket (o : Z) (start end_ : time.Time) :
  time.loc start = time.FixedZone o -> time.loc end_ = time.FixedZone o ->
  let years := fullYearsDiff start end_ in
  time.After (time.AddDate start years 0 0) end_ = false
  /\ time.After (time.AddDate start (years + 1) 0 0) end_ = true
  /\ forall y,
       time.After (time.AddDate start y 0 0) end_ = false ->
       time.After (time.AddDate start (y + 1) 0 0) end_ = true ->
       y = years.
Proof.
  intros Hs He. cbv zeta. on_clock.
  destruct (clock_fullYearsDiff_bracket r0 r) as (H1 & H2 & H3).
  repeat apply conj; [exact H1 | exact H2 | ].
  intros y Hy1 Hy2. on_clock. apply H3; assumption.
Qed.

Lemma fullYearsDiff_bracket_witness :
  fullYearsDiff (time.Date 2000 4 17 0 0 0 0 (time.FixedZone 3600))
                (time.Date 2003 3 16 0 0 0 0 (time.FixedZone 3600)) = 2.
Proof.
  destruct (fullYearsDiff_bracket 3600
              (time.Date 2000 4 17 0 0 0 0 (time.FixedZone 3600))
              (time.Date 2003 3 16 0 0 0 0 (time.FixedZone 3600)) eq_refl eq_refl)
    as (_ & _ & Huniq).
  symmetry. apply Huniq; vm_compute; reflexivity.
Defined.

(** With the end held in another location the years of the two clocks are
    subtracted all the same: from 2000-01-01 UTC to 2024-12-31 20:00 at
    -05:00, which is 2025-01-01 01:00 UTC, [fullYearsDiff] gives 24
    although start moved on by 25 years is not after end. *)
Lemma years_across_locations :
  let start := time.Date 2000 1 1 0 0 0 0 time.UTC in
  let end_ := time.Date 2024 12 31 20 0 0 0 (time.FixedZone (-18000)) in
  fullYearsDiff start end_ = 24
  /\ time.After (time.AddDate start 25 0 0) end_ = false.
Proof. split; vm_compute; reflexivity. Qed.

(** X4. [fullMonthsDiff] stops at the first number of months that takes
    start past end, in any location: its count [months] is not negative,
    start moved on by [months + 1] months is after end, and, when the
    count is not 0, start moved on by [months] months is not. For a start
    in a fixed zone that is not after end, [months] is the one number with
    the two properties. *)
Theorem fullMonthsDiff_bracket (start end_ : time.Time) :
  let months := fullMonthsDiff start end_ in
  0 <= months
  /\ time.After (time.AddDate start 0 (months + 1) 0) end_ = true
  /\ (0 < months -> time.After (time.AddDate start 0 months 0) end_ = false)
  /\ (forall o,
        time.loc start = time.FixedZone o -> time.After start end_ = false ->
        time.After (time.AddDate start 0 months 0) end_ = false
        /\ forall m,
             0 <= m ->
             time.After (time.AddDate start 0 m 0) end_ = false ->
             time.After (time.AddDate start 0 (m + 1) 0) end_ = true ->
             m = months).
Proof.
  cbv zeta. pose proof (months_loop_fuel start end_ _ (Nat.le_refl _)) as H.
  rewrite months_loop_count in H.
  apply count_loop_some in H as (Hle & Hstop & Hall).
  split; [exact Hle | ]. split; [apply After_iff, reached_not, Hstop | ].
  split; [intros Hpos; apply After_not, reached_iff, Hall; lia | ].
  intros o Hs Hord.
  rewrite <- (fullMonthsDiff_In start end_ (time.FixedZone o)).
  change (time.After start end_)
    with (time.After start (time.In end_ (time.FixedZone o))) in Hord.
  assert (Hgoal : forall e', e' = time.In end_ (time.FixedZone o) ->
            time.After start e' = false ->
            time.After (time.AddDate start 0 (fullMonthsDiff start e') 0) e' = false
            /\ forall m, 0 <= m ->
                 time.After (time.AddDate start 0 m 0) e' = false ->
                 time.After (time.AddDate start 0 (m + 1) 0) e' = true ->
                 m = fullMonthsDiff start e').
  { clear Hle Hstop Hall. intros e' He' Hord'. rewrite In_zoned in He'. subst e'.
    on_clock.
    destruct (clock_fullMonthsDiff_bracket r _ Hord') as (H0 & H1 & H2 & H3).
    split; [exact H1 | ].
    intros m Hm Hm1 Hm2. on_clock. apply H3; assumption. }
  exact (Hgoal _ eq_refl Hord).
Qed.

Lemma fullMonthsDiff_bracket_witness :
  fullMonthsDiff (time.Date 2000 1 31 0 0 0 0 time.UTC)
                 (time.Date 2000 3 30 0 0 0 0 easternTime2021) = 1.
Proof.
  destruct (fullMonthsDiff_bracket (time.Date 2000 1 31 0 0 0 0 time.UTC)
              (time.Date 2000 3 30 0 0 0 0 easternTime2021))
    as (_ & _ & _ & H).
  destruct (H 0 eq_refl eq_refl) as [_ Huniq].
  symmetry. apply Huniq; [lia | vm_compute; reflexivity | vm_compute; reflexivity].
Defined.

(** X5. A month count is 0 when start is after end, in any location whose
    offsets are less than 28 days apart. *)
Theorem fullMonthsDiff_after (start end_ : time.Time) :
  offsetSpread (time.loc start) < 28 * 86400 ->
  time.After start end_ = true -> fullMonthsDiff start end_ = 0.
Proof.
  intros Hspread Hord. apply After_iff in Hord. apply fullMonthsDiff_none.
  assert (H : time.nanos start < time.nanos (time.AddDate start 0 1 0)).
  { apply AddDate_month_later. rewrite nsPerSecond_eq.
    change time.nsPerDay with 86400000000000. lia. }
  lia.
Qed.

Lemma fullMonthsDiff_after_witness :
  fullMonthsDiff (time.Date 2021 4 1 0 0 0 0 easternTime2021)
                 (time.Date 2021 3 1 0 0 0 0 time.UTC) = 0.
Proof. apply fullMonthsDiff_after; [vm_compute | ]; reflexivity. Defined.

(** X6. The three counting loops stop at their own test, in any location:
    run with at least [iterations] steps, each loop returns, and returns
    the same count however many more steps it is given. *)
Theorem counting_loops_terminate (start end_ : time.Time) (fuel : nat) :
  (iterations start end_ <= fuel)%nat ->
  fullMonthsDiff_loop fuel start end_ 0 = Some (fullMonthsDiff start end_)
  /\ fullWeeksDiff_loop fuel start end_ 0 daysInWeek = Some (fullWeeksDiff start end_)
  /\ fullDaysDiff_loop fuel start end_ 0 = Some (fullDaysDiff start end_).
Proof.
  intros H. repeat apply conj.
  - apply months_loop_fuel, H.
  - apply weeks_loop_fuel, H.
  - apply days_loop_fuel, H.
Qed.

Lemma counting_loops_terminate_witness :
  fullMonthsDiff_loop 100 (time.Date 2021 1 1 0 0 0 0 easternTime2021)
                      (time.Date 2021 3 15 0 0 0 0 easternTime2021) 0 = Some 2
  /\ fullWeeksDiff_loop 100 (time.Date 2021 1 1 0 0 0 0 easternTime2021)
                        (time.Date 2021 3 15 0 0 0 0 easternTime2021) 0 daysInWeek
     = Some 10
  /\ fullDaysDiff_loop 100 (time.Date 2021 1 1 0 0 0 0 easternTime2021)
                       (time.Date 2021 3 15 0 0 0 0 easternTime2021) 0 = Some 73.
Proof.
  apply (counting_loops_terminate (time.Date 2021 1 1 0 0 0 0 easternTime2021)
           (time.Date 2021 3 15 0 0 0 0 easternTime2021) 100).
  vm_compute. lia.
Defined.

(** X7. [newDiff] reports 0 for every unit that is not selected, keeps the
    mode and leaves the format string empty. *)
Theorem newDiff_unselected_zero (start end_ : time.Time) (m : DiffMode)
    (u : timeUnit) :
  ~ selected m u ->
  count u (newDiff start end_ m) = 0
  /\ mode (newDiff start end_ m) = m
  /\ rawFormat (newDiff start end_ m) = EmptyString.
Proof.
  intros H. apply not_selected in H.
  split; [ | split; [apply mode_newDiff | apply rawFormat_newDiff]].
  destruct u; cbn [count unitFlag] in *.
  - rewrite Years_newDiff, H. reflexivity.
  - rewrite Months_newDiff, H. reflexivity.
  - rewrite Weeks_newDiff, H. reflexivity.
  - rewrite Days_newDiff, H. reflexivity.
Qed.

Lemma newDiff_unselected_zero_witness :
  count UnitWeeks (newDiff (time.Date 2000 10 1 0 0 0 0 time.UTC)
                           (time.Date 2010 11 30 0 0 0 0 easternTime2021)
                           (Z.lor (Z.lor ModeYears ModeMonths) ModeDays)) = 0.
Proof.
  apply (newDiff_unselected_zero (time.Date 2000 10 1 0 0 0 0 time.UTC)
           (time.Date 2010 11 30 0 0 0 0 easternTime2021)
           (Z.lor (Z.lor ModeYears ModeMonths) ModeDays) UnitWeeks).
  intros H. discriminate H.
Defined.

(** X8. For start not after end, both in one fixed zone, no count of
    [newDiff] is negative. *)
Theorem newDiff_counts_nonnegative (o : Z) (start end_ : time.Time) (m : DiffMode) :
  time.loc start = time.FixedZone o -> time.loc end_ = time.FixedZone o ->
  time.After start end_ = false ->
  forall u, 0 <= count u (newDiff start end_ m).
Proof.
  intros Hs He Hord u. on_clock. apply clock_counts_nonnegative, Hord.
Qed.

Lemma newDiff_counts_nonnegative_witness :
  0 <= count UnitDays (newDiff (time.Date 2000 10 1 0 0 0 0 time.UTC)
                               (time.Date 2010 11 30 0 0 0 0 time.UTC) ModeDays).
Proof. apply (newDiff_counts_nonnegative 0); reflexivity. Defined.

(** X9. For start and end in one fixed zone and with Years selected, the
    months [newDiff] reports are a remainder below twelve. *)
Theorem months_below_twelve (o : Z) (start end_ : time.Time) (m : DiffMode) :
  time.loc start = time.FixedZone o -> time.loc end_ = time.FixedZone o ->
  hasMode m ModeYears = true ->
  0 <= Months (newDiff start end_ m) <= 11.
Proof.
  intros Hs He HY. on_clock. apply clock_months_below_twelve, HY.
Qed.

Lemma months_below_twelve_witness :
  0 <= Months (newDiff (time.Date 2000 4 17 0 0 0 0 time.UTC)
                       (time.Date 2003 3 16 0 0 0 0 time.UTC)
                       (Z.lor ModeYears ModeMonths)) <= 11.
Proof. apply (months_below_twelve 0); reflexivity. Defined.

(** X10. For start and end in one fixed zone and with Weeks selected, the
    days [newDiff] reports are a remainder below seven. *)
Theorem days_below_seven (o : Z) (start end_ : time.Time) (m : DiffMode) :
  time.loc start = time.FixedZone o -> time.loc end_ = time.FixedZone o ->
  hasMode m ModeWeeks = true ->
  0 <= Days (newDiff start end_ m) <= 6.
Proof.
  intros Hs He HW. on_clock. apply clock_days_below_seven, HW.
Qed.

Lemma days_below_seven_witness :
  0 <= Days (newDiff (time.Date 2000 4 17 0 0 0 0 time.UTC)
                     (time.Date 2003 3 16 0 0 0 0 time.UTC)
                     (Z.lor ModeWeeks ModeDays)) <= 6.
Proof. apply (days_below_seven 0); reflexivity. Defined.

(** Where the clock of the start skips an hour, the week cursor can land
    on it and seven days remain: in Eastern Time, from 2021-03-07 02:30
    to 2021-03-21 02:00, one week and seven days are reported, and
    thirteen days when days alone are asked for. *)
Lemma seven_days_after_skipped_hour :
  let start := time.Date 2021 3 7 2 30 0 0 easternTime2021 in
  let end_ := time.Date 2021 3 21 2 0 0 0 easternTime2021 in
  newDiff start end_ (Z.lor ModeWeeks ModeDays)
  = mkDiff 0 0 1 7 EmptyString (Z.lor ModeWeeks ModeDays)
  /\ newDiff start end_ ModeDays = mkDiff 0 0 0 13 EmptyString ModeDays.
Proof. split; vm_compute; reflexivity. Qed.

(** X11. For start and end in one fixed zone and with Months selected,
    [newDiff] reports at most four weeks. *)
Theorem weeks_at_most_four (o : Z) (start end_ : time.Time) (m : DiffMode) :
  time.loc start = time.FixedZone o -> time.loc end_ = time.FixedZone o ->
  hasMode m ModeMonths = true ->
  0 <= Weeks (newDiff start end_ m) <= 4.
Proof.
  intros Hs He HM. on_clock. apply clock_weeks_at_most_four, HM.
Qed.

Lemma weeks_at_most_four_witness :
  0 <= Weeks (newDiff (time.Date 2000 1 31 0 0 0 0 time.UTC)
                      (time.Date 2003 3 30 0 0 0 0 time.UTC)
                      (Z.lor ModeMonths ModeWeeks)) <= 4.
Proof. apply (weeks_at_most_four 0); reflexivity. Defined.

(** X12. For start not after end, both in one fixed zone, and with all
    four units selected: moving start on by the years, then the months,
    then the weeks and days that [newDiff] reports gives an instant that
    is not after end and is less than 24 hours before it. *)
Theorem counts_lead_back_to_end (o : Z) (start end_ : time.Time) (m : DiffMode) :
  time.loc start = time.FixedZone o -> time.loc end_ = time.FixedZone o ->
  time.After start end_ = false ->
  hasMode m ModeYears = true -> hasMode m ModeMonths = true ->
  hasMode m ModeWeeks = true -> hasMode m ModeDays = true ->
  let d := newDiff start end_ m in
  let t := time.AddDate
             (time.AddDate (time.AddDate start (Years d) 0 0) 0 (Months d) 0)
             0 0 (Weeks d * daysInWeek + Days d) in
  time.nanos t <= time.nanos end_ < time.nanos t + time.nsPerDay.
Proof.
  intros Hs He Hord HY HM HW HD. cbv zeta. on_clock.
  pose proof (clock_counts_lead_back_to_end r0 r m Hord HY HM HW HD) as H.
  cbv zeta in H. cbn [zoned time.nanos]. unfold time.nsPerDay. lia.
Qed.

Lemma counts_lead_back_to_end_witness :
  let start := time.Date 2000 10 1 8 30 0 0 (time.FixedZone 3600) in
  let end_ := time.Date 2010 11 30 7 0 0 0 (time.FixedZone 3600) in
  let d := newDiff start end_ 240 in
  let t := time.AddDate
             (time.AddDate (time.AddDate start (Years d) 0 0) 0 (Months d) 0)
             0 0 (Weeks d * daysInWeek + Days d) in
  time.nanos t <= time.nanos end_ < time.nanos t + time.nsPerDay.
Proof.
  apply (counts_lead_back_to_end 3600
           (time.Date 2000 10 1 8 30 0 0 (time.FixedZone 3600))
           (time.Date 2010 11 30 7 0 0 0 (time.FixedZone 3600)) 240); reflexivity.
Defined.

(** X13. For a start in a fixed zone and an end in any location, weeks
    and days together count the days: seven times the weeks plus the days
    of mode Weeks|Days are the days of mode Days. *)
Theorem weeks_and_days_are_days (o : Z) (start end_ : time.Time) :
  time.loc start = time.FixedZone o ->
  let d := newDiff start end_ (Z.lor ModeWeeks ModeDays) in
  daysInWeek * Weeks d + Days d = Days (newDiff start end_ ModeDays).
Proof.
  intros Hs. cbv zeta.
  rewrite <- (newDiff_In start end_ (time.FixedZone o) (Z.lor ModeWeeks ModeDays))
    by reflexivity.
  rewrite <- (newDiff_In start end_ (time.FixedZone o) ModeDays) by reflexivity.
  rewrite In_zoned. on_clock. apply clock_weeks_and_days.
Qed.

Lemma weeks_and_days_are_days_witness :
  let d := newDiff (time.Date 2021 3 7 2 30 0 0 (time.FixedZone (-18000)))
                   (time.Date 2021 3 21 2 0 0 0 easternTime2021)
                   (Z.lor ModeWeeks ModeDays) in
  daysInWeek * Weeks d + Days d
  = Days (newDiff (time.Date 2021 3 7 2 30 0 0 (time.FixedZone (-18000)))
                  (time.Date 2021 3 21 2 0 0 0 easternTime2021) ModeDays).
Proof. apply (weeks_and_days_are_days (-18000)). reflexivity. Defined.

(** X14. Years and months together count the months, in any location:
    twelve times the years plus the months of mode Years|Months are the
    months of mode Months, when the year cursor is a time that [AddDate]
    by nothing leaves as it is, which every time of a fixed zone is. *)
Theorem years_and_months_are_months (start end_ : time.Time) :
  let cursor := time.AddDate start (fullYearsDiff start end_) 0 0 in
  time.AddDate cursor 0 0 0 = cursor ->
  let d := newDiff start end_ (Z.lor ModeYears ModeMonths) in
  monthsInYear * Years d + Months d = Months (newDiff start end_ ModeMonths).
Proof.
  cbv zeta. intros H0.
  rewrite !Months_newDiff, Years_newDiff. unfold afterYears.
  change (hasMode (Z.lor ModeYears ModeMonths) ModeYears) with true.
  change (hasMode (Z.lor ModeYears ModeMonths) ModeMonths) with true.
  change (hasMode ModeMonths ModeYears) with false.
  change (hasMode ModeMonths ModeMonths) with true.
  cbv iota. rewrite H0. lia.
Qed.

Lemma years_and_months_are_months_witness :
  let d := newDiff (time.Date 2018 4 17 0 0 0 0 easternTime2021)
                   (time.Date 2021 3 16 0 0 0 0 time.UTC)
                   (Z.lor ModeYears ModeMonths) in
  monthsInYear * Years d + Months d
  = Months (newDiff (time.Date 2018 4 17 0 0 0 0 easternTime2021)
                    (time.Date 2021 3 16 0 0 0 0 time.UTC) ModeMonths).
Proof. apply years_and_months_are_months. vm_compute. reflexivity. Defined.

(** X15. Only the four flag bits of a mode count: the other bits of the
    byte change no count. *)
Theorem newDiff_ignores_low_bits (start end_ : time.Time) (m : DiffMode) :
  Equal (newDiff start end_ m) (newDiff start end_ (Z.land m 240)) = true.
Proof.
  assert (H : forall flag, Z.land 240 flag = flag ->
                           hasMode (Z.land m 240) flag = hasMode m flag).
  { intros flag Hf. unfold hasMode. rewrite <- Z.land_assoc, Hf. reflexivity. }
  pose proof (H ModeYears eq_refl) as HY. pose proof (H ModeMonths eq_refl) as HM.
  pose proof (H ModeWeeks eq_refl) as HW. pose proof (H ModeDays eq_refl) as HD.
  assert (E1 : afterYears start end_ (Z.land m 240) = afterYears start end_ m).
  { unfold afterYears. rewrite HY. reflexivity. }
  assert (E2 : Months (newDiff start end_ (Z.land m 240)) = Months (newDiff start end_ m)).
  { rewrite !Months_newDiff, HY, HM, E1. reflexivity. }
  assert (E3 : afterMonths start end_ (Z.land m 240) = afterMonths start end_ m).
  { unfold afterMonths. rewrite HM, E1, E2. reflexivity. }
  assert (E4 : Weeks (newDiff start end_ (Z.land m 240)) = Weeks (newDiff start end_ m)).
  { rewrite !Weeks_newDiff, HW, E3. reflexivity. }
  assert (E5 : afterWeeks start end_ (Z.land m 240) = afterWeeks start end_ m).
  { unfold afterWeeks. rewrite HW, E3, E4. reflexivity. }
  unfold Equal. rewrite E2, E4, !Years_newDiff, !Days_newDiff, HY, HD, E5.
  rewrite !Z.eqb_refl. reflexivity.
Qed.

(** X22. With neither Years nor Months selected, [newDiff] takes the end
    date as an instant: the location it is held in changes no count. *)
Theorem end_location_plays_no_part (start end_ : time.Time) (l : time.Location)
    (m : DiffMode) :
  hasMode m ModeYears = false -> hasMode m ModeMonths = false ->
  newDiff start (time.In end_ l) m = newDiff start end_ m.
Proof. apply newDiff_In. Qed.

Lemma end_location_plays_no_part_witness :
  newDiff (time.Date 2021 3 7 2 30 0 0 easternTime2021)
          (time.In (time.Date 2021 3 21 2 0 0 0 easternTime2021) time.UTC)
          (Z.lor ModeWeeks ModeDays)
  = newDiff (time.Date 2021 3 7 2 30 0 0 easternTime2021)
            (time.Date 2021 3 21 2 0 0 0 easternTime2021)
            (Z.lor ModeWeeks ModeDays).
Proof. apply end_location_plays_no_part; reflexivity. Defined.

(* ================================================================== *)
(** ** Further properties of the parser, the constructors and rendering *)
(* ================================================================== *)

(** The scan of an accepted prefix [a] only adds its units to the mode. *)
Lemma unmarshal_from_append raw b : forall a mode,
  noUnknownVerb a -> lastChar a <> Some "%"%char ->
  unmarshal_from raw (a ++ b) mode = unmarshal_from raw b (Z.lor mode (unitsFound a)).
Proof.
  induction a as [ | c | c v rest IH IH'] using string_pair_ind;
    intros mode Hno Hlast.
  - cbn [append]. rewrite unitsFound_empty, Z.lor_0_r. reflexivity.
  - assert (Hc : c <> "%"%char) by (intros ->; apply Hlast; reflexivity).
    cbn [append unmarshal_from]. apply Ascii.eqb_neq in Hc. rewrite Hc.
    apply Ascii.eqb_neq in Hc.
    rewrite (unitsFound_cons_other _ _ Hc), unitsFound_empty, Z.lor_0_r. reflexivity.
  - assert (Hno1 : noUnknownVerb (String v rest)).
    { intros i c' H. exact (Hno (S i) c' H). }
    rewrite lastChar_cons in Hlast.
    change (String c (String v rest) ++ b)%string
      with (String c (String v rest ++ b)%string).
    cbn [unmarshal_from]. destruct (Ascii.eqb c "%") eqn:Ec.
    + apply Ascii.eqb_eq in Ec. subst c.
      change (String v rest ++ b)%string with (String v (rest ++ b)%string).
      cbv iota.
      destruct (verbMode v) as [flag | ] eqn:Ev.
      * change (String v (rest ++ b)%string) with (String v rest ++ b)%string.
        rewrite (IH' _ Hno1 Hlast), (unitsFound_verb _ _ _ Ev), !Z.lor_assoc.
        reflexivity.
      * exfalso. apply (Hno 0%nat v). repeat split. apply verbMode_None, Ev.
    + apply Ascii.eqb_neq in Ec.
      rewrite (IH' _ Hno1 Hlast), (unitsFound_cons_other _ _ Ec). reflexivity.
Qed.

(** The outcome of the scan of an accepted string does not depend on the
    string kept for the error message. *)
Lemma unmarshal_from_accepted raw b mode mb :
  unmarshal b = Ok mb -> unmarshal_from raw b mode = Ok (Z.lor mode mb).
Proof.
  intros Hb. pose proof (unmarshal_spec b) as Hs. rewrite Hb in Hs.
  destruct Hs as (Hno & Hlast & -> & Hnz).
  pose proof (unmarshal_from_spec raw b mode) as H.
  destruct (unmarshal_from raw b mode) as [m | [ | | f c] | i n].
  - destruct H as (_ & _ & -> & _). reflexivity.
  - contradiction.
  - destruct H as (_ & _ & H). apply Z.lor_eq_0_iff in H as [_ H]. contradiction.
  - destruct H as [_ (i & Hi & _)]. exfalso. exact (Hno i c Hi).
  - destruct H as (_ & _ & _ & H). contradiction.
Qed.

(** X16. Two accepted format strings put one after the other are accepted,
    with the union of their unit sets. *)
Theorem unmarshal_append (a b : string) (ma mb : DiffMode) :
  unmarshal a = Ok ma -> unmarshal b = Ok mb ->
  unmarshal (a ++ b) = Ok (Z.lor ma mb).
Proof.
  intros Ha Hb. pose proof (unmarshal_spec a) as Hs. rewrite Ha in Hs.
  destruct Hs as (Hno & Hlast & -> & _).
  unfold unmarshal at 1. rewrite (unmarshal_from_append _ b a 0 Hno Hlast).
  rewrite Z.lor_0_l. apply unmarshal_from_accepted, Hb.
Qed.

Lemma unmarshal_append_witness :
  unmarshal ("%Y and " ++ "%m months") = Ok (Z.lor ModeYears ModeMonths).
Proof. apply unmarshal_append; reflexivity. Defined.

(** X17. Built from a format string or from the mode that string parses
    to, the results have the same counts; the first keeps the string, the
    second none. *)
Theorem constructors_agree (start end_ : time.Time) (rawFormat : string)
    (m : DiffMode) :
  time.After start end_ = false -> unmarshal rawFormat = Ok m ->
  NewDiff start end_ rawFormat
  = Ok (withRawFormat (newDiff start end_ m) rawFormat)
  /\ NewDiffWithMode start end_ m = Ok (newDiff start end_ m)
  /\ Equal (withRawFormat (newDiff start end_ m) rawFormat)
           (newDiff start end_ m) = true.
Proof.
  intros Hord Hm. unfold NewDiff, NewDiffWithMode. rewrite Hord, Hm.
  repeat split. unfold Equal, withRawFormat. cbn [Years Months Weeks Days].
  rewrite !Z.eqb_refl. reflexivity.
Qed.

Lemma constructors_agree_witness :
  NewDiff (time.Date 2000 10 1 0 0 0 0 time.UTC) (time.Date 2010 11 30 0 0 0 0 time.UTC) "%Y %M %D"
  = Ok (mkDiff 10 1 0 29 "%Y %M %D" 208)
  /\ NewDiffWithMode (time.Date 2000 10 1 0 0 0 0 time.UTC) (time.Date 2010 11 30 0 0 0 0 time.UTC) 208
     = Ok (mkDiff 10 1 0 29 EmptyString 208).
Proof.
  assert (Hord : time.After (time.Date 2000 10 1 0 0 0 0 time.UTC)
                            (time.Date 2010 11 30 0 0 0 0 time.UTC) = false)
    by (vm_compute; reflexivity).
  destruct (constructors_agree _ _ "%Y %M %D" 208 Hord eq_refl)
    as (H1 & H2 & _).
  split; [rewrite H1 | rewrite H2]; vm_compute; reflexivity.
Defined.

(** X18. [NewDiff], [Format] and [FormatWithZeros] accept the same format
    strings, and where they fail they fail alike: with the same error, or
    with the same out-of-range index. *)
Theorem entry_points_fail_alike (order : list (string * string))
    (start end_ : time.Time) (d : Diff) (rawFormat : string) :
  time.After start end_ = false ->
  match NewDiff start end_ rawFormat with
  | Ok _ => (exists text, Format order d rawFormat = Ok text)
            /\ (exists text, FormatWithZeros order d rawFormat = Ok text)
  | Err e => Format order d rawFormat = Err e
             /\ FormatWithZeros order d rawFormat = Err e
  | Panic i n => Format order d rawFormat = Panic i n
                 /\ FormatWithZeros order d rawFormat = Panic i n
  end.
Proof.
  intros Hord. unfold NewDiff, Format, FormatWithZeros. rewrite Hord.
  destruct (unmarshal rawFormat) as [m | e | i n]; split; try reflexivity;
    eexists; reflexivity.
Qed.

Lemma entry_points_fail_alike_witness :
  Format formatUnits (mkDiff 3 0 0 0 "%Y" ModeYears) "%X%L %S"
  = Err (errUnknownVerb "%X%L %S" "X")
  /\ FormatWithZeros formatUnits (mkDiff 3 0 0 0 "%Y" ModeYears) "100%"
     = Panic 4 4.
Proof.
  assert (Hord : time.After (time.Date 2000 1 1 0 0 0 0 time.UTC)
                            (time.Date 2000 1 1 0 0 0 0 time.UTC) = false)
    by (vm_compute; reflexivity).
  pose proof (entry_points_fail_alike formatUnits _ _
                (mkDiff 3 0 0 0 "%Y" ModeYears) "%X%L %S" Hord) as H1.
  pose proof (entry_points_fail_alike formatUnits _ _
                (mkDiff 3 0 0 0 "%Y" ModeYears) "100%" Hord) as H2.
  vm_compute in H1, H2. vm_compute. split; [exact (proj1 H1) | exact (proj2 H2)].
Defined.

(** The loop of [frmt] gives one text whatever the order in which the map
    is visited, and for any two results with the same counts. *)
Lemma frmt_any_order elide order order' d d' toks :
  Permutation order formatUnits -> Permutation order' formatUnits ->
  wellFormed toks -> (elide = true -> noDoubleSpace (flat toks)) ->
  Equal d d' = true ->
  frmt order d (flat toks) (replaceWith elide) (flat toks)
  = frmt order' d' (flat toks) (replaceWith elide) (flat toks).
Proof.
  intros Hp Hp' Hwf Hnds Heq. rewrite !frmt_pass by assumption.
  f_equal. apply pass_ext. intros v _.
  unfold Equal in Heq. rewrite !andb_true_iff, !Z.eqb_eq in Heq.
  destruct Heq as (((HY & HM) & HW) & HD).
  unfold specAct, specCount. rewrite HY, HM, HW, HD. reflexivity.
Qed.

Lemma Equal_refl d : Equal d d = true.
Proof. unfold Equal. rewrite !Z.eqb_refl. reflexivity. Qed.

(** X19. Two results that are [Equal] render alike, in two separate calls
    that each visit the map in an order of their own: with zeros under
    every format string, and without zeros under every format string that
    has no two spaces in a row. The stored format string and mode play no
    part. *)
Theorem equal_results_render_alike (order order' : list (string * string))
    (d d' : Diff) (rawFormat : string) :
  Permutation order formatUnits -> Permutation order' formatUnits ->
  Equal d d' = true ->
  FormatWithZeros order d rawFormat = FormatWithZeros order' d' rawFormat
  /\ (strings.Contains rawFormat "  " = false ->
      Format order d rawFormat = Format order' d' rawFormat).
Proof.
  intros Hp Hp' Heq. unfold Format, FormatWithZeros.
  destruct (unmarshal rawFormat) as [m | e | i n] eqn:Em;
    [ | split; reflexivity | split; reflexivity].
  destruct (unmarshal_tokens _ _ Em) as [Hwf Hflat]. split.
  - rewrite !formatWithZeros_replaceWith, <- Hflat.
    rewrite (frmt_any_order false order order' d d'); try assumption; [reflexivity | ].
    discriminate.
  - intros Hnds. rewrite !format_replaceWith, <- Hflat.
    rewrite (frmt_any_order true order order' d d'); try assumption; [reflexivity | ].
    intros _. rewrite Hflat. exact Hnds.
Qed.

Lemma equal_results_render_alike_witness :
  Format formatUnits (mkDiff 10 1 0 29 "%Y %M %D" 208) "%y anos"
  = Format (rev formatUnits) (mkDiff 10 1 0 29 EmptyString 240) "%y anos".
Proof.
  apply (proj2 (equal_results_render_alike formatUnits (rev formatUnits)
                  (mkDiff 10 1 0 29 "%Y %M %D" 208)
                  (mkDiff 10 1 0 29 EmptyString 240) "%y anos"
                  (Permutation_refl _) (Permutation_sym (Permutation_rev _)) eq_refl)).
  reflexivity.
Defined.

(** A pass that keeps no verb leaves literals only. *)
Lemma pass_no_percent act toks :
  wellFormed toks ->
  (forall v, In (Verb v) toks -> act v <> Keep) ->
  (forall v text, act v = Put text -> cleanText text) ->
  cleanText (flat (pass act toks)).
Proof.
  intros Hwf Hkeep Hclean.
  assert (Hlit : forall c s, c <> "%"%char -> cleanText s -> cleanText (String c s)).
  { intros c s Hc Hs [ | i]; cbn; [congruence | apply Hs]. }
  assert (Happ : forall a b, cleanText a -> cleanText b -> cleanText (a ++ b)).
  { induction a as [ | c a IHa]; intros b Ha Hb; [exact Hb | ].
    cbn [append]. apply Hlit.
    - intros ->. exact (Ha 0%nat eq_refl).
    - apply IHa; [intros i; exact (Ha (S i)) | exact Hb]. }
  assert (Hverb : forall v rest,
            act v <> Keep -> cleanText (flat (pass act rest)) ->
            cleanText (flat (pass act (Verb v :: rest)))).
  { intros v rest Hv H. rewrite pass_verb. destruct (act v) as [ | | text] eqn:E.
    - contradiction.
    - exact H.
    - rewrite flat_app, flat_lits. apply Happ; [exact (Hclean _ _ E) | exact H]. }
  revert Hwf Hkeep.
  induction toks as [ | | t u rest IH IH'] using token_pair_ind; intros Hwf Hkeep.
  - intros i. destruct i; discriminate.
  - apply wellFormed_cons in Hwf as [Ht _]. destruct t as [c | v].
    + apply Hlit; [exact Ht | intros i; destruct i; discriminate].
    + apply Hverb; [apply Hkeep; left; reflexivity | intros i; destruct i; discriminate].
  - pose proof (proj2 (proj1 (wellFormed_cons _ _) Hwf)) as Hwf1.
    pose proof (proj2 (proj1 (wellFormed_cons _ _) Hwf1)) as Hwf2.
    pose proof (proj1 (proj1 (wellFormed_cons _ _) Hwf)) as Ht.
    assert (Hk1 : forall v, In (Verb v) (u :: rest) -> act v <> Keep).
    { intros v Hv. apply Hkeep. right. exact Hv. }
    assert (Hk2 : forall v, In (Verb v) rest -> act v <> Keep).
    { intros v Hv. apply Hk1. right. exact Hv. }
    specialize (IH Hwf2 Hk2). specialize (IH' Hwf1 Hk1).
    destruct t as [c | v].
    + destruct u as [c' | w].
      * rewrite pass_lit_lit, flat_lit. apply Hlit; assumption.
      * rewrite pass_lit_verb. destruct (_ && _); [exact IH | ].
        rewrite flat_lit. apply Hlit; assumption.
    + apply Hverb; [apply Hkeep; left; reflexivity | exact IH'].
Qed.

Lemma specAct_not_Keep elide d v : specAct elide d v <> Keep.
Proof. unfold specAct. destruct (_ && _); discriminate. Qed.

(** X20. The text rendered with zeros from an accepted format string has
    no percent sign left: every verb has been replaced. *)
Theorem rendered_text_has_no_verb (order : list (string * string)) (d : Diff)
    (rawFormat : string) (m : DiffMode) :
  Permutation order formatUnits -> unmarshal rawFormat = Ok m ->
  forall i, String.get i (formatWithZeros order d rawFormat) <> Some "%"%char.
Proof.
  intros Hp Hm. destruct (unmarshal_tokens _ _ Hm) as [Hwf Hflat].
  rewrite formatWithZeros_replaceWith, <- Hflat.
  rewrite frmt_pass by (try assumption; discriminate).
  rewrite pass_ext with (a' := fun v => if in_dec ascii_dec v verbLetters
                                        then specAct false d v else Put "0").
  - apply pass_no_percent; [exact Hwf | | ].
    + intros v _. destruct (in_dec ascii_dec v verbLetters);
        [apply specAct_not_Keep | discriminate].
    + intros v text. destruct (in_dec ascii_dec v verbLetters) as [Hv | ].
      * unfold specAct. cbn [andb]. intros H. injection H as <-.
        apply specVerbText_clean, Hv.
      * intros H. injection H as <-. intros i. destruct i as [ | [ | i]]; discriminate.
  - intros v Hv. unfold wellFormed in Hwf. rewrite Forall_forall in Hwf.
    specialize (Hwf _ Hv). cbn in Hwf.
    destruct (in_dec ascii_dec v verbLetters); [reflexivity | contradiction].
Qed.

Lemma rendered_text_has_no_verb_witness :
  String.get 3 (formatWithZeros formatUnits (mkDiff 10 0 0 29 EmptyString 0)
                                "%Y %M %D") <> Some "%"%char.
Proof.
  apply (rendered_text_has_no_verb formatUnits (mkDiff 10 0 0 29 EmptyString 0)
           "%Y %M %D" 208 (Permutation_refl _) eq_refl).
Defined.

Lemma rawFormat_withRawFormat d f : rawFormat (withRawFormat d f) = f.
Proof. reflexivity. Qed.

Lemma unmarshal_empty : unmarshal EmptyString = Err errUndefinedDiffMode.
Proof. reflexivity. Qed.

(** X21. For a result of [NewDiff], [StringWithZeros] gives the text of
    [FormatWithZeros] with the format string the result was built from,
    and [String] that of [Format] when that format string has no two
    spaces in a row, each call visiting the map in an order of its own;
    [formatMode] is not called. *)
Theorem String_renders_stored_format (order order' : list (string * string))
    (formatMode : Diff -> DiffMode -> bool -> string)
    (start end_ : time.Time) (rawFormat : string) (d : Diff) :
  Permutation order formatUnits -> Permutation order' formatUnits ->
  NewDiff start end_ rawFormat = Ok d ->
  FormatWithZeros order d rawFormat
  = Ok (Diff_StringWithZeros order' formatMode d)
  /\ (strings.Contains rawFormat "  " = false ->
      Format order d rawFormat = Ok (Diff_String order' formatMode d)).
Proof.
  intros Hp Hp' H. unfold NewDiff in H.
  destruct (time.After start end_); [discriminate H | ].
  destruct (unmarshal rawFormat) as [m | e | i n] eqn:Em; try discriminate H.
  injection H as <-.
  assert (Hne : String.eqb rawFormat "" = false).
  { apply String.eqb_neq. intros ->. rewrite unmarshal_empty in Em. discriminate Em. }
  destruct (unmarshal_tokens _ _ Em) as [Hwf Hflat].
  unfold Diff_String, Diff_StringWithZeros, Diff_format, Format, FormatWithZeros.
  rewrite Em, !rawFormat_withRawFormat, Hne. split.
  - f_equal. rewrite !formatWithZeros_replaceWith, <- Hflat.
    apply frmt_any_order; try assumption; [discriminate | apply Equal_refl].
  - intros Hnds. f_equal. rewrite !format_replaceWith, <- Hflat.
    apply frmt_any_order; try assumption; [ | apply Equal_refl].
    intros _. rewrite Hflat. exact Hnds.
Qed.

Lemma String_renders_stored_format_witness :
  Format formatUnits (mkDiff 10 1 0 29 "%Y %M %D" 208) "%Y %M %D"
  = Ok (Diff_String (rev formatUnits) (fun _ _ _ => EmptyString)
          (mkDiff 10 1 0 29 "%Y %M %D" 208)).
Proof.
  assert (Hd : NewDiff (time.Date 2000 10 1 0 0 0 0 time.UTC)
                 (time.Date 2010 11 30 0 0 0 0 time.UTC) "%Y %M %D"
               = Ok (mkDiff 10 1 0 29 "%Y %M %D" 208))
    by (vm_compute; reflexivity).
  apply (proj2 (String_renders_stored_format formatUnits (rev formatUnits)
                  (fun _ _ _ => EmptyString) _ _ _ _
                  (Permutation_refl _) (Permutation_sym (Permutation_rev _)) Hd)).
  reflexivity.
Defined.
